(** * JustVibe backend: the Auth Gate, the Favorites and Playlist managers
      and registration, over a relational model of the hosted store

    The route handlers of [src/middleware/auth.js] (auth gate and favorites
    router), [src/unnamed/part_001] (playlists router) and
    [src/unnamed/part_002] (users router) are embedded as computations in
    a small state-and-exception monad.  The state is the hosted backend as
    the handlers see it: the tables of [src/unnamed/part_005] (the schema),
    the Identity Provider's accounts, the clock, the console, and the
    outcomes the environment has in store for the coming round trips.

    Conventions.
    - A request-body field is an [option string]: [None] is JavaScript's
      [undefined].  A string is the UTF-8 encoding of the text it stands
      for; lengths are counted as JavaScript and Postgres count them
      ([Utf8]).
    - A nullable column is an [option]; a [NOT NULL] column is not.
    - Row identifiers (UUIDs) are opaque; they are drawn from a counter.
    - A write is refused when a value does not fit its column
      ([VARCHAR(n)], [INTEGER], text without a zero character). *)

From Stdlib Require Import ZArith Ascii String DecimalString DecimalNat.
From stdpp Require Import base decidable option list gmap strings sorting.

Local Open Scope Z_scope.

(** ** Text as UTF-8 *)

Module Utf8.

Definition byte (c : ascii) : nat := nat_of_ascii c.

Definition bytes (l : list nat) : string :=
  string_of_list_ascii (ascii_of_nat <$> l).

Definition between (lo hi : nat) (c : ascii) : bool :=
  ((lo <=? byte c) && (byte c <=? hi))%nat.

(** A continuation byte, [10xxxxxx]. *)
Definition continuation (c : ascii) : bool := between 128 191 c.

(** The second byte of a sequence of three or four bytes that starts
    with [a] (The Unicode Standard, table 3-7). *)
Definition second (a b : ascii) : bool :=
  if (byte a =? 224)%nat then between 160 191 b
  else if (byte a =? 237)%nat then between 128 159 b
  else if (byte a =? 240)%nat then between 144 191 b
  else if (byte a =? 244)%nat then between 128 143 b
  else continuation b.

(** The bytes are the encoding of a sequence of Unicode scalar values. *)
Fixpoint well_formed (s : string) : bool :=
  match s with
  | EmptyString => true
  | String a s1 =>
      if between 0 127 a then well_formed s1
      else
        match s1 with
        | String b s2 =>
            if between 194 223 a then continuation b && well_formed s2
            else
              match s2 with
              | String c s3 =>
                  if between 224 239 a then
                    second a b && continuation c && well_formed s3
                  else
                    match s3 with
                    | String d s4 =>
                        between 240 244 a && second a b && continuation c &&
                        continuation d && well_formed s4
                    | EmptyString => false
                    end
              | EmptyString => false
              end
        | EmptyString => false
        end
  end.

(** The number of characters (code points): every byte that is not a
    continuation byte starts one. *)
Fixpoint code_points (s : string) : nat :=
  match s with
  | EmptyString => 0
  | String c s' => ((if continuation c then 0 else 1) + code_points s')%nat
  end.

(** The number of UTF-16 code units: a character written in four bytes
    lies beyond the Basic Multilingual Plane and takes two. *)
Fixpoint utf16_units (s : string) : nat :=
  match s with
  | EmptyString => 0
  | String c s' =>
      ((if continuation c then 0 else if (240 <=? byte c)%nat then 2 else 1)
       + utf16_units s')%nat
  end.

(** Only characters of ASCII. *)
Fixpoint ascii_only (s : string) : bool :=
  match s with
  | EmptyString => true
  | String c s' => (byte c <? 128)%nat && ascii_only s'
  end.

End Utf8.

(** ** JavaScript values and string methods *)

Module Js.

(** [s.length]. *)
Definition length (s : string) : nat := Utf8.utf16_units s.

(** [!!s] for a string-or-undefined value. *)
Definition truthy (s : option string) : bool :=
  match s with
  | Some (String _ _) => true
  | _ => false
  end.

(** [a || b]. *)
Definition or (a b : option string) : option string :=
  if truthy a then a else b.

(** The string behind a truthy value: [Some s] exactly when the value is
    a non-empty string. *)
Definition truthy_value (s : option string) : option string :=
  if truthy s then s else None.

(** [x || null] as stored in a nullable column. *)
Definition or_null (a : option string) : option string := truthy_value a.

(** The characters [trim] removes (WhiteSpace and LineTerminator of
    ECMAScript), by the bytes that encode them: U+0009 to U+000D and
    U+0020 in one byte, U+00A0 in two, and U+1680, U+2000 to U+200A,
    U+2028, U+2029, U+202F, U+205F, U+3000 and U+FEFF in three. *)
Definition space1 (a : ascii) : bool :=
  Utf8.between 9 13 a || (Utf8.byte a =? 32)%nat.

Definition space2 (a b : ascii) : bool :=
  ((Utf8.byte a =? 194) && (Utf8.byte b =? 160))%nat.

Definition space3 (a b c : ascii) : bool :=
  let x := Utf8.byte a in
  let y := Utf8.byte b in
  let z := Utf8.byte c in
  ((x =? 225) && (y =? 154) && (z =? 128)
   || (x =? 226) && (y =? 128) &&
      (Utf8.between 128 138 c || (z =? 168) || (z =? 169) || (z =? 175))
   || (x =? 226) && (y =? 129) && (z =? 159)
   || (x =? 227) && (y =? 128) && (z =? 128)
   || (x =? 239) && (y =? 187) && (z =? 191))%nat.

(** [s.trimStart()]. *)
Fixpoint trimStart (s : string) : string :=
  match s with
  | String a s1 =>
      if space1 a then trimStart s1
      else
        match s1 with
        | String b s2 =>
            if space2 a b then trimStart s2
            else
              match s2 with
              | String c s3 => if space3 a b c then trimStart s3 else s
              | EmptyString => s
              end
        | EmptyString => s
        end
  | EmptyString => EmptyString
  end.

(** The same on the reversed string, where the bytes of a character come
    last byte first. *)
Fixpoint trimStart_reversed (s : string) : string :=
  match s with
  | String a s1 =>
      if space1 a then trimStart_reversed s1
      else
        match s1 with
        | String b s2 =>
            if space2 b a then trimStart_reversed s2
            else
              match s2 with
              | String c s3 => if space3 c b a then trimStart_reversed s3 else s
              | EmptyString => s
              end
        | EmptyString => s
        end
  | EmptyString => EmptyString
  end.

(** [s.trimEnd()]. *)
Definition trimEnd (s : string) : string :=
  String.rev (trimStart_reversed (String.rev s)).

(** [s.trim()]. *)
Definition trim (s : string) : string := trimEnd (trimStart s).

(** [s.includes(sub)]. *)
Fixpoint includes (sub s : string) : bool :=
  String.prefix sub s ||
  match s with
  | String _ s' => includes sub s'
  | EmptyString => false
  end.

(** [s.split(sep)[0]]: the part of [s] before the first [sep]. *)
Fixpoint split_head (sep : ascii) (s : string) : string :=
  match s with
  | String c s' => if Ascii.eqb c sep then EmptyString else String c (split_head sep s')
  | EmptyString => EmptyString
  end.

(** The decimal rendering of a length inside a template string. *)
Definition of_nat (n : nat) : string := NilZero.string_of_uint (Nat.to_uint n).

Definition dquote : string := String (Ascii.ascii_of_nat 34) EmptyString.

End Js.

(** ** The hosted store *)

Definition Uuid := nat.
Bind Scope nat_scope with Uuid.
Definition Timestamp := Z.

(** The [error] member of a Supabase response. *)
Record ApiError := { code : string; message : string }.

(** The [{ data, error }] object every Supabase call resolves to. *)
Record Response (A : Type) := { data : option A; error : option ApiError }.
Arguments data {A} _.
Arguments error {A} _.

Definition ok {A} (a : A) : Response A := {| data := Some a; error := None |}.
Definition failed {A} (e : ApiError) : Response A := {| data := None; error := Some e |}.

Module Pg.

(** PostgREST's answer to [.single()] when the result is not exactly one row. *)
Definition PGRST116 : ApiError :=
  {| code := "PGRST116";
     message := "JSON object requested, multiple (or no) rows returned" |}.

Definition unique_violation (constraint : string) : ApiError :=
  {| code := "23505";
     message := "duplicate key value violates unique constraint " +:+ constraint |}.

Definition not_null_violation (column : string) : ApiError :=
  {| code := "23502";
     message := "null value in column " +:+ column +:+ " violates not-null constraint" |}.

Definition foreign_key_violation (constraint : string) : ApiError :=
  {| code := "23503";
     message := "insert or update on table violates foreign key constraint " +:+ constraint |}.

(** *** Column types

    What Postgres refuses to store.  Text holds no zero character; a
    [VARCHAR(n)] column holds at most [n] characters; an [INTEGER] has
    32 bits.  (For a value whose characters beyond the [n]th are all
    spaces Postgres stores the first [n] instead; the model refuses such
    a value like any other that is too long.) *)

Definition string_data_right_truncation (n : nat) : ApiError :=
  {| code := "22001";
     message := "value too long for type character varying(" +:+ Js.of_nat n +:+ ")" |}.

Definition untranslatable_character : ApiError :=
  {| code := "22P05"; message := "unsupported Unicode escape sequence" |}.

Definition numeric_value_out_of_range : ApiError :=
  {| code := "22003"; message := "value is out of range for type integer" |}.

Fixpoint no_zero (s : string) : bool :=
  match s with
  | EmptyString => true
  | String c s' => negb (Utf8.byte c =? 0)%nat && no_zero s'
  end.

(** A value of type [text]. *)
Definition text (s : string) : bool := Utf8.well_formed s && no_zero s.

(** A value that fits a [VARCHAR(n)] column. *)
Definition varchar (n : nat) (s : string) : bool :=
  text s && (Utf8.code_points s <=? n)%nat.

(** A value of type [INTEGER]. *)
Definition integer (z : Z) : bool := (-2147483648 <=? z) && (z <=? 2147483647).

Inductive ColumnType :=
| TEXT
| VARCHAR (n : nat).

(** The error a value meets in a column of the type; [None] when it
    fits. *)
Definition refusal (type : ColumnType) (value : string) : option ApiError :=
  if negb (text value) then Some untranslatable_character
  else
    match type with
    | TEXT => None
    | VARCHAR n =>
        if (Utf8.code_points value <=? n)%nat then None
        else Some (string_data_right_truncation n)
    end.

(** The same for a value that may be NULL or left out. *)
Definition refusal_nullable (type : ColumnType) (value : option string) :
    option ApiError :=
  value ≫= refusal type.

Definition refusal_integer (z : Z) : option ApiError :=
  if integer z then None else Some numeric_value_out_of_range.

(** The first error among the columns of a row. *)
Fixpoint first_refusal (columns : list (option ApiError)) : option ApiError :=
  match columns with
  | [] => None
  | Some e :: _ => Some e
  | None :: rest => first_refusal rest
  end.

(** *** Lists in a filter

    [.in(column, values)] is sent as [column=in.(v1,...,vn)], the client
    having removed duplicates.  A list that holds nothing but the empty
    string goes out as [in.()], which PostgREST reads as the empty list:
    no row is selected.  [verbatim] are the values the list syntax
    carries as they are: not empty, free of commas, parentheses, double
    quotes and backslashes, and neither beginning nor ending with a
    blank or a tab. *)
Definition in_list (values : list string) (value : string) : bool :=
  bool_decide (value ∈ values) && negb (forallb (String.eqb "") values).

Fixpoint free_of (reserved : list ascii) (s : string) : bool :=
  match s with
  | EmptyString => true
  | String c s' => negb (bool_decide (c ∈ reserved)) && free_of reserved s'
  end.

Definition blank (c : ascii) : bool :=
  ((Utf8.byte c =? 32) || (Utf8.byte c =? 9))%nat.

Definition verbatim (s : string) : bool :=
  match s with
  | EmptyString => false
  | String first _ =>
      free_of (ascii_of_nat <$> [44; 40; 41; 34; 92]%nat) s &&
      negb (blank first) &&
      match String.rev s with
      | String last _ => negb (blank last)
      | EmptyString => false
      end
  end.

(** [.single()]: the row when there is exactly one, an error otherwise. *)
Definition single {A} (rows : list A) : Response A :=
  match rows with
  | [r] => ok r
  | _ => failed PGRST116
  end.

Definition backslash : ascii := ascii_of_nat 92.

Definition lower (c : ascii) : ascii :=
  let n := nat_of_ascii c in
  if ((65 <=? n) && (n <=? 90))%nat then ascii_of_nat (n + 32) else c.

(** [value ILIKE pattern] as PostgREST's [ilike] filter evaluates it: [%]
    (and PostgREST's alias [*]) matches any run of characters, [_] any
    single character, a backslash takes the next character literally, and
    letters compare without case.  A pattern that ends in a lone
    backslash is rejected by Postgres; no row matches it. *)
Fixpoint ilike_match (pattern : string) : string → bool :=
  match pattern with
  | EmptyString => λ s, match s with EmptyString => true | _ => false end
  | String c p =>
      if Ascii.eqb c "%" || Ascii.eqb c "*" then
        fix star (s : string) : bool :=
          ilike_match p s ||
          match s with
          | String _ s' => star s'
          | EmptyString => false
          end
      else if Ascii.eqb c "_" then
        λ s, match s with
             | String _ s' => ilike_match p s'
             | EmptyString => false
             end
      else if Ascii.eqb c backslash then
        match p with
        | String e p' =>
            λ s, match s with
                 | String d s' => Ascii.eqb (lower e) (lower d) && ilike_match p' s'
                 | EmptyString => false
                 end
        | EmptyString => λ _, false
        end
      else
        λ s, match s with
             | String d s' => Ascii.eqb (lower c) (lower d) && ilike_match p s'
             | EmptyString => false
             end
  end.

Definition ilike (value pattern : string) : bool := ilike_match pattern value.

(** Case-insensitive equality of two names, the comparison the playlist
    name rule is about. *)
Fixpoint lowercase (s : string) : string :=
  match s with
  | String c s' => String (lower c) (lowercase s')
  | EmptyString => EmptyString
  end.

Definition same_name (a b : string) : bool :=
  bool_decide (lowercase a = lowercase b).

(** [ORDER BY]: a stable insertion sort by a "comes no later than" test. *)
Fixpoint insert_by {A} (le : A → A → bool) (x : A) (l : list A) : list A :=
  match l with
  | [] => [x]
  | y :: l' => if le x y then x :: y :: l' else y :: insert_by le x l'
  end.

Definition order_by {A} (le : A → A → bool) (l : list A) : list A :=
  foldr (insert_by le) [] l.

(** Ascending order on a nullable integer column; Postgres puts NULL last
    when ascending and first when descending. *)
Definition asc (a b : option Z) : bool :=
  match a, b with
  | Some x, Some y => x <=? y
  | None, Some _ => false
  | _, None => true
  end.

Definition desc (a b : option Z) : bool := asc b a.

End Pg.

(** ** Tables ([src/unnamed/part_005]) and the Identity Provider *)

(** An account of the Identity Provider ([auth.users]). *)
Record AuthUser := { au_id : Uuid; au_email : string; au_password : string }.

(** [user_profiles]; the columns the modelled handlers read or write. *)
Record Profile := { pr_id : Uuid; pr_username : string }.

Record Favorite := {
  fav_id : Uuid;
  fav_user_id : Uuid;
  fav_song_title : string;
  fav_song_src : option string;
  fav_song_img : option string;
  fav_album_id : option string;
  fav_album_cover : option string;
  fav_artist : option string;
  fav_added_at : Timestamp }.

Record Playlist := {
  pl_id : Uuid;
  pl_user_id : Uuid;
  pl_name : string;
  pl_description : option string;
  pl_cover_image : option string;
  pl_created_at : Timestamp;
  pl_updated_at : Timestamp }.

(** [playlist_songs]: there is no album-cover column. *)
Record PlaylistSong := {
  ps_id : Uuid;
  ps_playlist_id : Uuid;
  ps_song_title : string;
  ps_song_src : option string;
  ps_song_img : option string;
  ps_album_id : option string;
  ps_artist : option string;
  ps_position : option Z;
  ps_added_at : Timestamp }.

Record Db := {
  auth_users : list AuthUser;
  user_profiles : list Profile;
  favorites : list Favorite;
  playlists : list Playlist;
  playlist_songs : list PlaylistSong;
  next_uuid : Uuid;        (* the next [uuid_generate_v4()] *)
  now : Timestamp          (* the store's [NOW()] *) }.

Definition with_auth_users (l : list AuthUser) (d : Db) : Db :=
  {| auth_users := l; user_profiles := user_profiles d; favorites := favorites d;
     playlists := playlists d; playlist_songs := playlist_songs d;
     next_uuid := next_uuid d; now := now d |}.

Definition with_user_profiles (l : list Profile) (d : Db) : Db :=
  {| auth_users := auth_users d; user_profiles := l; favorites := favorites d;
     playlists := playlists d; playlist_songs := playlist_songs d;
     next_uuid := next_uuid d; now := now d |}.

Definition with_favorites (l : list Favorite) (d : Db) : Db :=
  {| auth_users := auth_users d; user_profiles := user_profiles d; favorites := l;
     playlists := playlists d; playlist_songs := playlist_songs d;
     next_uuid := next_uuid d; now := now d |}.

Definition with_playlists (l : list Playlist) (d : Db) : Db :=
  {| auth_users := auth_users d; user_profiles := user_profiles d;
     favorites := favorites d; playlists := l; playlist_songs := playlist_songs d;
     next_uuid := next_uuid d; now := now d |}.

Definition with_playlist_songs (l : list PlaylistSong) (d : Db) : Db :=
  {| auth_users := auth_users d; user_profiles := user_profiles d;
     favorites := favorites d; playlists := playlists d; playlist_songs := l;
     next_uuid := next_uuid d; now := now d |}.

Definition with_next_uuid (n : Uuid) (d : Db) : Db :=
  {| auth_users := auth_users d; user_profiles := user_profiles d;
     favorites := favorites d; playlists := playlists d;
     playlist_songs := playlist_songs d; next_uuid := n; now := now d |}.

(** The request's surroundings: the store, the clock ([Date.now()], in
    milliseconds), [process.env.JWT_SECRET], the lines written with
    [console.error], and the outcome the environment has decided for each
    of the coming round trips to Supabase: [Some e] makes the call resolve
    to [{ data: null, error: e }] without touching the store, [None] (or an
    exhausted plan) lets the store serve it. *)
Record World := {
  db : Db;
  clock : Z;
  JWT_SECRET : string;
  console : list string;
  faults : list (option ApiError) }.

Definition with_db (d : Db) (w : World) : World :=
  {| db := d; clock := clock w; JWT_SECRET := JWT_SECRET w;
     console := console w; faults := faults w |}.

Definition with_console (c : list string) (w : World) : World :=
  {| db := db w; clock := clock w; JWT_SECRET := JWT_SECRET w;
     console := c; faults := faults w |}.

Definition with_faults (f : list (option ApiError)) (w : World) : World :=
  {| db := db w; clock := clock w; JWT_SECRET := JWT_SECRET w;
     console := console w; faults := f |}.

(** ** The handler monad: state, and JavaScript exceptions *)

Inductive Exn :=
| JsonWebTokenError (reason : string)
| TokenExpiredError
| ReferenceError (identifier : string)
| TypeError (reason : string)
| JsError (reason : string).

Inductive Outcome (A : Type) :=
| Value (a : A)
| Throw (e : Exn).
Arguments Value {A} _.
Arguments Throw {A} _.

Definition M (A : Type) : Type := World → Outcome A * World.

#[global] Instance M_ret : MRet M := λ A a w, (Value a, w).

#[global] Instance M_bind : MBind M := λ A B f m w,
  match m w with
  | (Value a, w') => f a w'
  | (Throw e, w') => (Throw e, w')
  end.

Definition throw {A} (e : Exn) : M A := λ w, (Throw e, w).

(** [try { body } catch (error) { handler }]. *)
Definition try_catch {A} (body : M A) (handler : Exn → M A) : M A := λ w,
  match body w with
  | (Throw e, w') => handler e w'
  | r => r
  end.

Definition console_error (line : string) : M unit := λ w,
  (Value (), with_console (console w ++ [line]) w).

Definition Date_now : M Z := λ w, (Value (clock w), w).

Definition env_JWT_SECRET : M string := λ w, (Value (JWT_SECRET w), w).

(** One awaited call to Supabase: the environment's planned outcome, or the
    store's own answer. *)
Definition round_trip {A} (query : Db → Response A * Db) : M (Response A) := λ w,
  match faults w with
  | Some e :: plan => (Value (failed e), with_faults plan w)
  | None :: plan =>
      let '(r, d) := query (db w) in (Value r, with_db d (with_faults plan w))
  | [] =>
      let '(r, d) := query (db w) in (Value r, with_db d w)
  end.

(** A read leaves the store as it is. *)
Definition read {A} (q : Db → Response A) : M (Response A) :=
  round_trip (λ d, (q d, d)).

(** ** Queries, as the handlers issue them *)

Module Store.

(** [from('favorites').select('*').eq('user_id', u).eq('song_title', t)] *)
Definition favorites_of (userId : Uuid) (songTitle : string) (d : Db) : list Favorite :=
  filter (λ f, fav_user_id f = userId ∧ fav_song_title f = songTitle) (favorites d).

Definition favorites_select_single (userId : Uuid) (songTitle : string)
    (d : Db) : Response Favorite :=
  Pg.single (favorites_of userId songTitle d).

(** The payload of an insert into [favorites]. *)
Record FavoriteInsert := {
  user_id : Uuid;
  song_title : string;
  song_src : option string;
  song_img : option string;
  album_id : option string;
  album_cover : option string;
  artist : option string }.

(** The column types of [favorites]. *)
Definition favorite_refusal (row : FavoriteInsert) : option ApiError :=
  Pg.first_refusal
    [ Pg.refusal (Pg.VARCHAR 200) (song_title row);
      Pg.refusal_nullable Pg.TEXT (song_src row);
      Pg.refusal_nullable Pg.TEXT (song_img row);
      Pg.refusal_nullable (Pg.VARCHAR 100) (album_id row);
      Pg.refusal_nullable Pg.TEXT (album_cover row);
      Pg.refusal_nullable (Pg.VARCHAR 100) (artist row) ].

(** [from('favorites').insert([row]).select().single()], under the
    column types, the table's [UNIQUE(user_id, song_title)] and the
    reference from [user_id] to the accounts; [id] and [added_at] take
    their defaults. *)
Definition favorites_insert (row : FavoriteInsert) (d : Db) : Response Favorite * Db :=
  match favorite_refusal row with
  | Some e => (failed e, d)
  | None =>
      match favorites_of (user_id row) (song_title row) d with
      | _ :: _ => (failed (Pg.unique_violation "favorites_user_id_song_title_key"), d)
      | [] =>
          if bool_decide (user_id row ∉ au_id <$> auth_users d) then
            (failed (Pg.foreign_key_violation "favorites_user_id_fkey"), d)
          else
            let f := {| fav_id := next_uuid d; fav_user_id := user_id row;
                        fav_song_title := song_title row; fav_song_src := song_src row;
                        fav_song_img := song_img row; fav_album_id := album_id row;
                        fav_album_cover := album_cover row; fav_artist := artist row;
                        fav_added_at := now d |} in
            (ok f,
             with_next_uuid (S (next_uuid d)) (with_favorites (favorites d ++ [f]) d))
      end
  end.

(** [from('favorites').delete().eq('user_id', u).eq('song_title', t)] *)
Definition favorites_delete (userId : Uuid) (songTitle : string)
    (d : Db) : Response unit * Db :=
  ({| data := None; error := None |},
   with_favorites
     (filter (λ f, ¬ (fav_user_id f = userId ∧ fav_song_title f = songTitle))
             (favorites d)) d).

(** [from('playlists').select('*').eq('user_id', u)
      .order('created_at', { ascending: false })] *)
Definition playlists_of_user (userId : Uuid) (d : Db) : Response (list Playlist) :=
  ok (Pg.order_by (λ a b, pl_created_at b <=? pl_created_at a)
                  (filter (λ p, pl_user_id p = userId) (playlists d))).

(** [from('playlists').select('id, name').eq('user_id', u)
      .ilike('name', pattern).single()] *)
Definition playlists_select_single_ilike (userId : Uuid) (pattern : string)
    (d : Db) : Response Playlist :=
  Pg.single (filter (λ p, pl_user_id p = userId ∧ Pg.ilike (pl_name p) pattern = true)
                    (playlists d)).

(** [from('playlists').select(..).eq('id', id).single()] *)
Definition playlists_select_single (id : Uuid) (d : Db) : Response Playlist :=
  Pg.single (filter (λ p, pl_id p = id) (playlists d)).

(** The payload of an insert into [playlists]. *)
Record PlaylistInsert := {
  new_user_id : Uuid;
  new_name : string;
  new_description : option string;
  new_cover_image : option string }.

(** The column types of [playlists]. *)
Definition playlist_refusal (row : PlaylistInsert) : option ApiError :=
  Pg.first_refusal
    [ Pg.refusal (Pg.VARCHAR 200) (new_name row);
      Pg.refusal_nullable Pg.TEXT (new_description row);
      Pg.refusal_nullable Pg.TEXT (new_cover_image row) ].

(** [from('playlists').insert([row]).select().single()], under the
    column types and the reference from [user_id] to the accounts.  The
    table has no constraint on names; [id], [created_at] and
    [updated_at] take their defaults. *)
Definition playlists_insert (row : PlaylistInsert) (d : Db) : Response Playlist * Db :=
  match playlist_refusal row with
  | Some e => (failed e, d)
  | None =>
      if bool_decide (new_user_id row ∉ au_id <$> auth_users d) then
        (failed (Pg.foreign_key_violation "playlists_user_id_fkey"), d)
      else
        let p := {| pl_id := next_uuid d; pl_user_id := new_user_id row;
                    pl_name := new_name row; pl_description := new_description row;
                    pl_cover_image := new_cover_image row;
                    pl_created_at := now d; pl_updated_at := now d |} in
        (ok p, with_next_uuid (S (next_uuid d)) (with_playlists (playlists d ++ [p]) d))
  end.

(** The [updateData] object of the update route: a key that is absent
    leaves its column alone. *)
Record PlaylistUpdate := {
  set_name : option string;
  set_description : option string;
  set_cover_image : option string;
  set_updated_at : Timestamp }.

Definition apply_update (u : PlaylistUpdate) (p : Playlist) : Playlist :=
  {| pl_id := pl_id p; pl_user_id := pl_user_id p;
     pl_name := default (pl_name p) (set_name u);
     pl_description :=
       match set_description u with Some x => Some x | None => pl_description p end;
     pl_cover_image :=
       match set_cover_image u with Some x => Some x | None => pl_cover_image p end;
     pl_created_at := pl_created_at p;
     pl_updated_at := set_updated_at u |}.

(** The column types of [playlists], for the keys of [updateData]. *)
Definition update_refusal (u : PlaylistUpdate) : option ApiError :=
  Pg.first_refusal
    [ Pg.refusal_nullable (Pg.VARCHAR 200) (set_name u);
      Pg.refusal_nullable Pg.TEXT (set_description u);
      Pg.refusal_nullable Pg.TEXT (set_cover_image u) ].

(** [from('playlists').update(updateData).eq('id', id).select().single()],
    under the column types: when the filter does not select exactly one
    row the request fails and changes nothing. *)
Definition playlists_update (id : Uuid) (u : PlaylistUpdate)
    (d : Db) : Response Playlist * Db :=
  match update_refusal u with
  | Some e => (failed e, d)
  | None =>
      match filter (λ p, pl_id p = id) (playlists d) with
      | [p] =>
          (ok (apply_update u p),
           with_playlists
             ((λ q, if decide (pl_id q = id) then apply_update u q else q)
                <$> playlists d) d)
      | _ => (failed Pg.PGRST116, d)
      end
  end.

Definition songs_of (id : Uuid) (d : Db) : list PlaylistSong :=
  filter (λ s, ps_playlist_id s = id) (playlist_songs d).

(** [position] ascending, then [added_at] descending. *)
Definition by_position_then_recent (a b : PlaylistSong) : bool :=
  if decide (ps_position a = ps_position b)
  then ps_added_at b <=? ps_added_at a
  else Pg.asc (ps_position a) (ps_position b).

(** [from('playlist_songs').select('*').eq('playlist_id', id)
      .order('position', { ascending: true })
      .order('added_at', { ascending: false })] *)
Definition playlist_songs_select (id : Uuid) (d : Db) : Response (list PlaylistSong) :=
  ok (Pg.order_by by_position_then_recent (songs_of id d)).

(** [from('playlist_songs').select('position').eq('playlist_id', id)
      .order('position', { ascending: false }).limit(1)] *)
Definition playlist_songs_top_position (id : Uuid) (d : Db) : Response (list (option Z)) :=
  ok (take 1 (Pg.order_by Pg.desc (ps_position <$> songs_of id d))).

(** [from('playlist_songs').select('song_title').eq('playlist_id', id)
      .in('song_title', titles)]; a title that is [undefined] goes into
    the list as the text [undefined]. *)
Definition playlist_songs_titles_in (id : Uuid) (titles : list (option string))
    (d : Db) : Response (list string) :=
  ok (ps_song_title <$>
      filter (λ s, ps_playlist_id s = id ∧
                   Pg.in_list (default "undefined" <$> titles) (ps_song_title s) = true)
             (playlist_songs d)).

(** One object of the array inserted into [playlist_songs]; a key whose
    value is [undefined] is left out of the request and its column
    becomes NULL. *)
Record PlaylistSongInsert := {
  new_playlist_id : Uuid;
  new_song_title : option string;
  new_song_src : option string;
  new_song_img : option string;
  new_album_id : option string;
  new_artist : option string;
  new_position : Z }.

Definition new_playlist_song (d : Db) (i : nat) (r : PlaylistSongInsert) : option PlaylistSong :=
  title ← new_song_title r;
  Some {| ps_id := (next_uuid d + i)%nat; ps_playlist_id := new_playlist_id r;
          ps_song_title := title; ps_song_src := new_song_src r;
          ps_song_img := new_song_img r; ps_album_id := new_album_id r;
          ps_artist := new_artist r; ps_position := Some (new_position r);
          ps_added_at := now d |}.

(** The column types of [playlist_songs]. *)
Definition song_refusal (row : PlaylistSongInsert) : option ApiError :=
  Pg.first_refusal
    [ Pg.refusal_nullable (Pg.VARCHAR 200) (new_song_title row);
      Pg.refusal_nullable Pg.TEXT (new_song_src row);
      Pg.refusal_nullable Pg.TEXT (new_song_img row);
      Pg.refusal_nullable (Pg.VARCHAR 100) (new_album_id row);
      Pg.refusal_nullable (Pg.VARCHAR 100) (new_artist row);
      Pg.refusal_integer (new_position row) ].

(** [from('playlist_songs').insert(rows).select()]: all rows or none,
    under the column types; [song_title] is [NOT NULL]. *)
Definition playlist_songs_insert (rows : list PlaylistSongInsert)
    (d : Db) : Response (list PlaylistSong) * Db :=
  match Pg.first_refusal (song_refusal <$> rows) with
  | Some e => (failed e, d)
  | None =>
      match mapM id (imap (new_playlist_song d) rows) with
      | Some new =>
          (ok new,
           with_next_uuid (next_uuid d + length rows)%nat
             (with_playlist_songs (playlist_songs d ++ new) d))
      | None => (failed (Pg.not_null_violation "song_title"), d)
      end
  end.

(** [from('user_profiles').select('username').eq('id', id).single()] *)
Definition profiles_select_single (id : Uuid) (d : Db) : Response Profile :=
  Pg.single (filter (λ p, pr_id p = id) (user_profiles d)).

(** [from('user_profiles').select('username').eq('username', u).single()] *)
Definition profiles_select_single_username (username : string)
    (d : Db) : Response Profile :=
  Pg.single (filter (λ p, pr_username p = username) (user_profiles d)).

(** [from('user_profiles').insert([{ id, username }])]: [id] is the
    primary key and refers to an account, [username] is a [UNIQUE]
    [VARCHAR(50)]. *)
Definition profiles_insert (id : Uuid) (username : string)
    (d : Db) : Response unit * Db :=
  match Pg.refusal (Pg.VARCHAR 50) username with
  | Some e => (failed e, d)
  | None =>
      if bool_decide (id ∈ pr_id <$> user_profiles d) then
        (failed (Pg.unique_violation "user_profiles_pkey"), d)
      else if bool_decide (id ∉ au_id <$> auth_users d) then
        (failed (Pg.foreign_key_violation "user_profiles_id_fkey"), d)
      else if bool_decide (username ∈ pr_username <$> user_profiles d) then
        (failed (Pg.unique_violation "user_profiles_username_key"), d)
      else
        ({| data := None; error := None |},
         with_user_profiles
           (user_profiles d ++ [{| pr_id := id; pr_username := username |}]) d)
  end.

(** [auth.admin.getUserById(id)] *)
Definition auth_getUserById (id : Uuid) (d : Db) : Response AuthUser :=
  match filter (λ u, au_id u = id) (auth_users d) with
  | u :: _ => ok u
  | [] => failed {| code := "user_not_found"; message := "User not found" |}
  end.

(** [auth.admin.createUser({ email, password, email_confirm: true })].
    The provider's own refusals (an address it already has, a password
    it finds too weak) are outcomes the environment plans. *)
Definition auth_createUser (email password : string) (d : Db) : Response AuthUser * Db :=
  let u := {| au_id := next_uuid d; au_email := email; au_password := password |} in
  (ok u, with_next_uuid (S (next_uuid d)) (with_auth_users (auth_users d ++ [u]) d)).

(** [auth.admin.deleteUser(id)]; every table refers to the account with
    [ON DELETE CASCADE], and [playlist_songs] to its playlist likewise. *)
Definition auth_deleteUser (id : Uuid) (d : Db) : Response unit * Db :=
  if bool_decide (id ∈ au_id <$> auth_users d) then
    let gone := pl_id <$> filter (λ p, pl_user_id p = id) (playlists d) in
    (ok (),
     with_auth_users (filter (λ u, au_id u ≠ id) (auth_users d))
       (with_user_profiles (filter (λ p, pr_id p ≠ id) (user_profiles d))
          (with_favorites (filter (λ f, fav_user_id f ≠ id) (favorites d))
             (with_playlists (filter (λ p, pl_user_id p ≠ id) (playlists d))
                (with_playlist_songs
                   (filter (λ s, ps_playlist_id s ∉ gone) (playlist_songs d)) d)))))
  else (failed {| code := "user_not_found"; message := "User not found" |}, d).

(** [from('favorites').select('*').eq('user_id', u)
      .order('added_at', { ascending: false })] *)
Definition favorites_select_user (userId : Uuid) (d : Db) : Response (list Favorite) :=
  ok (Pg.order_by (λ a b, fav_added_at b <=? fav_added_at a)
                  (filter (λ f, fav_user_id f = userId) (favorites d))).

(** [from('favorites').select('*', { count: 'exact', head: true })
      .eq('user_id', u)]; [data] stands for the [count] member. *)
Definition favorites_count (userId : Uuid) (d : Db) : Response nat :=
  ok (length (filter (λ f, fav_user_id f = userId) (favorites d))).

(** [from('playlists').delete().eq('id', id)]; the songs of a deleted
    playlist go with it ([ON DELETE CASCADE]). *)
Definition playlists_delete (id : Uuid) (d : Db) : Response unit * Db :=
  ({| data := None; error := None |},
   match filter (λ p, pl_id p = id) (playlists d) with
   | [] => d
   | _ :: _ =>
       with_playlists (filter (λ p, pl_id p ≠ id) (playlists d))
         (with_playlist_songs
            (filter (λ s, ps_playlist_id s ≠ id) (playlist_songs d)) d)
   end).

(** [from('playlist_songs').delete().eq('playlist_id', id)
      .eq('song_title', title)] *)
Definition playlist_songs_delete (id : Uuid) (title : string)
    (d : Db) : Response unit * Db :=
  ({| data := None; error := None |},
   with_playlist_songs
     (filter (λ s, ¬ (ps_playlist_id s = id ∧ ps_song_title s = title))
             (playlist_songs d)) d).

(** [from('playlist_songs').delete().eq('playlist_id', id)
      .in('song_title', titles)] *)
Definition playlist_songs_delete_in (id : Uuid) (titles : list string)
    (d : Db) : Response unit * Db :=
  ({| data := None; error := None |},
   with_playlist_songs
     (filter (λ s, ¬ (ps_playlist_id s = id ∧
                      Pg.in_list titles (ps_song_title s) = true))
             (playlist_songs d)) d).

(** [auth.signInWithPassword({ email, password })] *)
Definition auth_signInWithPassword (email password : string) (d : Db) : Response AuthUser :=
  match filter (λ u, au_email u = email ∧ au_password u = password) (auth_users d) with
  | u :: _ => ok u
  | [] => failed {| code := "invalid_credentials"; message := "Invalid login credentials" |}
  end.

End Store.

(** ** Requests and replies *)

(** [req.user], attached by the auth gate. *)
Record ReqUser := { userId : Uuid; email : string; username : string }.

(** A song as a playlist response shows it. *)
Record SongView := {
  sv_title : string;
  sv_src : option string;
  sv_img : option string;
  sv_albumId : option string;
  sv_albumCover : option string;
  sv_artist : option string;
  sv_position : option Z;
  sv_addedAt : Timestamp }.

Record PlaylistView := {
  pv_id : Uuid;
  pv_name : string;
  pv_description : option string;
  pv_coverImage : option string;
  pv_createdAt : Timestamp;
  pv_updatedAt : Timestamp }.

(** The JSON (or text) bodies the modelled routes send. *)
Inductive Body :=
| Error (error : string)
| IsFavorite (isFavorite : bool)
| FavoriteAdded (message : string) (favorite : option Favorite)
| Toggled (action message : string) (favorite : option Favorite) (isFavorite : bool)
| PlaylistList (playlists : list (PlaylistView * list SongView))
| PlaylistCreated (message : string) (playlist : PlaylistView) (songs : list SongView)
| PlaylistUpdated (message : string) (playlist : PlaylistView)
| SongList (songs : list SongView)
| SongsAdded (message : string) (songs : list SongView)
| Text (text : string).

Record Reply := { status : nat; body : Body }.

(** [res.status(s).json(b)] *)
Definition json (s : nat) (b : Body) : Reply := {| status := s; body := b |}.

(** [res.status(s).send(text)] *)
Definition send (s : nat) (text : string) : Reply := {| status := s; body := Text text |}.

(** ** Tokens ([jsonwebtoken]) *)

Module Jwt.

(** The payload [jwt.sign] is given at sign-in, with the expiry claim. *)
Record Payload := {
  userId : option Uuid;
  email : option string;
  username : option string;
  exp : option Z (* seconds *) }.

(** What the authorization header can carry: bytes that are no token, or
    a payload signed with some key. *)
Inductive Token :=
| Malformed (raw : string)
| Signed (key : string) (payload : Payload).

(** [jwt.verify(token, secret)]: throws on a malformed token, on an
    empty (or missing) secret, on a signature made with another key, and
    once the clock (in seconds) has reached [exp]; returns the payload
    otherwise. *)
Definition verify (token : Token) (secret : string) : M Payload := λ w,
  match token with
  | Malformed _ => (Throw (JsonWebTokenError "jwt malformed"), w)
  | Signed key payload =>
      if bool_decide (secret = "") then
        (Throw (JsonWebTokenError "secret or public key must be provided"), w)
      else if bool_decide (key ≠ secret) then
        (Throw (JsonWebTokenError "invalid signature"), w)
      else
        match exp payload with
        | Some e =>
            if bool_decide (e ≤ clock w `div` 1000) then (Throw TokenExpiredError, w)
            else (Value payload, w)
        | None => (Value payload, w)
        end
  end.

(** [jwt.sign(payload, secret, { expiresIn })], [expiresIn] in seconds:
    the token expires that long after the current second; an empty (or
    missing) secret makes it throw. *)
Definition sign (payload : Payload) (secret : string) (expiresIn : Z) : M Token := λ w,
  if bool_decide (secret = "") then
    (Throw (JsError "secretOrPrivateKey must have a value"), w)
  else
    (Value (Signed secret
              {| userId := userId payload; email := email payload;
                 username := username payload;
                 exp := Some (clock w `div` 1000 + expiresIn) |}), w).

End Jwt.

(** ** Replies of the remaining routes *)

(** A favorite as the list route shows it. *)
Record FavoriteView := {
  fv_id : Uuid;
  fv_songTitle : string;
  fv_songSrc : option string;
  fv_songImg : option string;
  fv_albumId : option string;
  fv_albumCover : option string;
  fv_artist : option string;
  fv_addedAt : Timestamp }.

(** What the remaining routes send: one of the bodies above, a bare
    message, a count, the list of favorites, or a text that ends in a
    token. *)
Inductive Content :=
| Of (b : Body)
| Message (message : string)
| Count (count : nat)
| FavoriteList (favorites : list FavoriteView)
| TextToken (prefix : string) (token : Jwt.Token).

Record Answer := { http : nat; content : Content }.

(** [res.status(s).json(c)], [res.status(s).send(c)] *)
Definition respond (s : nat) (c : Content) : Answer := {| http := s; content := c |}.

(** [res.status(s).json({ error })] *)
Definition refuse (s : nat) (error : string) : Answer := respond s (Of (Error error)).

(** ** Auth gate ([src/middleware/auth.js], first module) *)

Module AuthGate.

Import Store.

(** [authenticateToken]: [inl] is the response sent, [inr] the [req.user]
    with which [next()] is called.  The header is [None] when it is
    missing or empty.  The last operand of the user name, [email], is an
    identifier the module never binds; evaluating it throws. *)
Definition authenticateToken (authorization : option Jwt.Token) : M (Reply + ReqUser) :=
  match authorization with
  | None => mret (inl (json 401 (Error "Access token required")))
  | Some token =>
      try_catch
        (secret ← env_JWT_SECRET;
         decoded ← Jwt.verify token secret;
         now ← Date_now;
         if match Jwt.exp decoded with
            | Some e => bool_decide (e ≠ 0) && bool_decide (e * 1000 < now)
            | None => false
            end
         then mret (inl (json 401 (Error "Invalid or expired token")))
         else
           match Jwt.userId decoded with
           | None => mret (inl (json 401 (Error "Invalid token: missing user ID")))
           | Some userId =>
               r ← read (auth_getUserById userId);
               match error r, data r with
               | None, Some authUser =>
                   profile ← read (profiles_select_single userId);
                   username ←
                     match Js.truthy_value
                             (Js.or (pr_username <$> data profile)
                                    (Jwt.username decoded)) with
                     | Some u => mret u
                     | None => throw (ReferenceError "email")
                     end;
                   mret (inr {| userId := au_id authUser;
                                email := au_email authUser;
                                username := username |})
               | _, _ => mret (inl (json 401 (Error "Invalid token: user not found")))
               end
           end)
        (λ _, mret (inl (json 403 (Error "Invalid or expired token"))))
  end.

(** The ways a presented token fails verification, in the order the gate
    meets them. *)
Inductive Failure :=
| MalformedToken
| BadSignature
| ExpiredToken
| MissingSubject
| SubjectNotFound.

Definition live (w : World) (p : Jwt.Payload) : Prop :=
  ∀ e, Jwt.exp p = Some e → clock w `div` 1000 < e.

(** The token of the header fails for the given cause.  (A header that
    is empty is no header: the gate asks for a token before it verifies
    anything.) *)
Definition fails_with (w : World) (token : Jwt.Token) (cause : Failure) : Prop :=
  match cause with
  | MalformedToken => ∃ raw, raw ≠ "" ∧ token = Jwt.Malformed raw
  | BadSignature => ∃ key p, token = Jwt.Signed key p ∧ key ≠ JWT_SECRET w
  | ExpiredToken =>
      ∃ p e, token = Jwt.Signed (JWT_SECRET w) p ∧ Jwt.exp p = Some e ∧
             e ≤ clock w `div` 1000
  | MissingSubject =>
      ∃ p, token = Jwt.Signed (JWT_SECRET w) p ∧ live w p ∧ Jwt.userId p = None
  | SubjectNotFound =>
      ∃ p id, token = Jwt.Signed (JWT_SECRET w) p ∧ live w p ∧
              Jwt.userId p = Some id ∧ id ∉ au_id <$> auth_users (db w)
  end.

(** The rule "every verification failure gets one and the same signal",
    in a given state. *)
Definition one_generic_signal (w : World) : Prop :=
  ∃ generic : Reply, ∀ token cause,
    fails_with w token cause →
    (authenticateToken (Some token) w).1 = Value (inl generic).

(** What the gate answers to each. *)
Definition signal (cause : Failure) : Reply :=
  match cause with
  | MalformedToken | BadSignature | ExpiredToken =>
      json 403 (Error "Invalid or expired token")
  | MissingSubject => json 401 (Error "Invalid token: missing user ID")
  | SubjectNotFound => json 401 (Error "Invalid token: user not found")
  end.

(** A route behind the gate ([router.use(authenticateToken)], or the gate
    named in the route): the handler runs only when the gate calls
    [next()]. *)
Definition guarded {A} (authorization : option Jwt.Token) (handler : ReqUser → M A) :
    M (Reply + A) :=
  r ← authenticateToken authorization;
  match r with
  | inl refusal => mret (inl refusal)
  | inr user => a ← handler user; mret (inr a)
  end.

End AuthGate.

(** ** Favorites router ([src/middleware/auth.js], second module) *)

Module Favorites.

Import Store.

(** The fields [/add] and [/toggle] read from [req.body]. *)
Record SongBody := {
  songTitle : option string;
  songSrc : option string;
  songImg : option string;
  albumId : option string;
  albumCover : option string;
  artist : option string }.

Definition row_of (userId : Uuid) (title : string) (b : SongBody) : FavoriteInsert :=
  {| user_id := userId; song_title := title; song_src := songSrc b;
     song_img := songImg b; album_id := albumId b; album_cover := albumCover b;
     Store.artist := artist b |}.

(** [router.post('/add')] *)
Definition post_add (user : ReqUser) (b : SongBody) : M Reply :=
  try_catch
    (match Js.truthy_value (songTitle b) with
     | None => mret (json 400 (Error "Song title is required"))
     | Some title =>
         existing ← read (favorites_select_single (userId user) title);
         match data existing with
         | Some _ => mret (json 400 (Error "Song already in favorites"))
         | None =>
             r ← round_trip (favorites_insert (row_of (userId user) title b));
             match error r with
             | Some _ =>
                 _ ← console_error "Error adding favorite:";
                 mret (json 500 (Error "Failed to add to favorites"))
             | None =>
                 mret (json 200 (FavoriteAdded "Song added to favorites successfully"
                                               (data r)))
             end
         end
     end)
    (λ _, _ ← console_error "Error in add favorite:";
          mret (json 500 (Error "Internal server error"))).

(** [router.post('/check')] *)
Definition post_check (user : ReqUser) (songTitle : option string) : M Reply :=
  try_catch
    (match Js.truthy_value songTitle with
     | None => mret (json 200 (IsFavorite false))
     | Some title =>
         r ← read (favorites_select_single (userId user) title);
         match error r with
         | Some e =>
             if bool_decide (code e ≠ "PGRST116") then
               _ ← console_error "Error checking favorite:";
               mret (json 200 (IsFavorite false))
             else mret (json 200 (IsFavorite (bool_decide (is_Some (data r)))))
         | None => mret (json 200 (IsFavorite (bool_decide (is_Some (data r)))))
         end
     end)
    (λ _, _ ← console_error "Error in check favorite:";
          mret (json 200 (IsFavorite false))).

(** [router.post('/toggle')] *)
Definition post_toggle (user : ReqUser) (b : SongBody) : M Reply :=
  try_catch
    (match Js.truthy_value (songTitle b) with
     | None => mret (json 400 (Error "Song title is required"))
     | Some title =>
         existing ← read (favorites_select_single (userId user) title);
         match data existing with
         | Some _ =>
             r ← round_trip (favorites_delete (userId user) title);
             match error r with
             | Some _ => mret (json 500 (Error "Failed to remove from favorites"))
             | None =>
                 mret (json 200 (Toggled "removed" "Song removed from favorites"
                                         None false))
             end
         | None =>
             r ← round_trip (favorites_insert (row_of (userId user) title b));
             match error r with
             | Some _ => mret (json 500 (Error "Failed to add to favorites"))
             | None =>
                 mret (json 200 (Toggled "added" "Song added to favorites"
                                         (data r) true))
             end
         end
     end)
    (λ _, _ ← console_error "Error in toggle favorite:";
          mret (json 500 (Error "Internal server error"))).

(** The favorite set of a user: the titles the user has a row for. *)
Definition favorite_set (userId : Uuid) (d : Db) : gset string :=
  list_to_set (fav_song_title <$> filter (λ f, fav_user_id f = userId) (favorites d)).

Definition format_favorite (fav : Favorite) : FavoriteView :=
  {| fv_id := fav_id fav;
     fv_songTitle := fav_song_title fav;
     fv_songSrc := fav_song_src fav;
     fv_songImg := fav_song_img fav;
     fv_albumId := fav_album_id fav;
     fv_albumCover := fav_album_cover fav;
     fv_artist := fav_artist fav;
     fv_addedAt := fav_added_at fav |}.

(** [router.get('/user')] *)
Definition get_user (user : ReqUser) : M Answer :=
  try_catch
    (r ← read (favorites_select_user (userId user));
     match error r with
     | Some _ =>
         _ ← console_error "Error fetching favorites:";
         mret (refuse 500 "Failed to fetch favorites")
     | None =>
         match data r with
         | None => throw (TypeError "favorites.map")
         | Some favorites =>
             mret (respond 200 (FavoriteList (format_favorite <$> favorites)))
         end
     end)
    (λ _, _ ← console_error "Error in get favorites:";
          mret (refuse 500 "Internal server error")).

(** [router.delete('/remove')] *)
Definition delete_remove (user : ReqUser) (songTitle : option string) : M Answer :=
  try_catch
    (match Js.truthy_value songTitle with
     | None => mret (refuse 400 "Song title is required")
     | Some title =>
         r ← round_trip (favorites_delete (userId user) title);
         match error r with
         | Some _ =>
             _ ← console_error "Error removing favorite:";
             mret (refuse 500 "Failed to remove from favorites")
         | None => mret (respond 200 (Message "Song removed from favorites successfully"))
         end
     end)
    (λ _, _ ← console_error "Error in remove favorite:";
          mret (refuse 500 "Internal server error")).

(** [router.get('/count')] *)
Definition get_count (user : ReqUser) : M Answer :=
  try_catch
    (r ← read (favorites_count (userId user));
     match error r with
     | Some _ =>
         _ ← console_error "Error getting favorites count:";
         mret (refuse 500 "Failed to get favorites count")
     | None => mret (respond 200 (Count (default 0%nat (data r))))
     end)
    (λ _, _ ← console_error "Error in favorites count:";
          mret (refuse 500 "Internal server error")).

End Favorites.


(** ** Playlists router ([src/unnamed/part_001]) *)

Module Playlists.

Import Store.

(** The object literal the three song listings build from a stored row. *)
Definition format_song (song : PlaylistSong) : SongView :=
  {| sv_title := ps_song_title song;
     sv_src := ps_song_src song;
     sv_img := ps_song_img song;
     sv_albumId := ps_album_id song;
     sv_albumCover := ps_song_img song;
     sv_artist := ps_artist song;
     sv_position := ps_position song;
     sv_addedAt := ps_added_at song |}.

Definition format_playlist (playlist : Playlist) : PlaylistView :=
  {| pv_id := pl_id playlist;
     pv_name := pl_name playlist;
     pv_description := pl_description playlist;
     pv_coverImage := pl_cover_image playlist;
     pv_createdAt := pl_created_at playlist;
     pv_updatedAt := pl_updated_at playlist |}.

(** [router.get('/user')] *)
Definition get_user (user : ReqUser) : M Reply :=
  try_catch
    (r ← read (playlists_of_user (userId user));
     match error r with
     | Some _ =>
         _ ← console_error "Error fetching playlists:";
         mret (json 500 (Error "Failed to fetch playlists"))
     | None =>
         match data r with
         | None => throw (TypeError "playlists.map")
         | Some playlists =>
             playlistsWithSongs ←
               mapM (λ playlist,
                       songs ← read (playlist_songs_select (pl_id playlist));
                       mret (format_playlist playlist,
                             format_song <$> default [] (data songs)))
                    playlists;
             mret (json 200 (PlaylistList playlistsWithSongs))
         end
     end)
    (λ _, _ ← console_error "Error in get playlists:";
          mret (json 500 (Error "Internal server error"))).

Record CreateBody := {
  name : option string;
  description : option string;
  coverImage : option string }.

Definition already_exists (playlistName : string) : string :=
  "A playlist with the name " +:+ Js.dquote +:+ playlistName +:+ Js.dquote +:+
  " already exists".

(** [router.post('/create')] *)
Definition post_create (user : ReqUser) (b : CreateBody) : M Reply :=
  try_catch
    (match Js.truthy_value (name b) with
     | None => mret (json 400 (Error "Playlist name is required"))
     | Some name =>
         if negb (Js.truthy (Some (Js.trim name))) then
           mret (json 400 (Error "Playlist name is required"))
         else
           let playlistName := Js.trim name in
           existingPlaylist ←
             read (playlists_select_single_ilike (userId user) playlistName);
           match data existingPlaylist with
           | Some _ => mret (json 400 (Error (already_exists playlistName)))
           | None =>
               r ← round_trip
                     (playlists_insert
                        {| new_user_id := userId user;
                           new_name := playlistName;
                           new_description := Js.or_null (description b);
                           new_cover_image := Js.or_null (coverImage b) |});
               match error r with
               | Some e =>
                   _ ← console_error "Error creating playlist:";
                   if bool_decide (code e = "23505")
                      || Js.includes "duplicate" (message e)
                      || Js.includes "unique" (message e)
                   then mret (json 400 (Error (already_exists playlistName)))
                   else mret (json 500 (Error "Failed to create playlist"))
               | None =>
                   match data r with
                   | None => throw (TypeError "playlist.id")
                   | Some playlist =>
                       mret (json 200 (PlaylistCreated "Playlist created successfully"
                                         (format_playlist playlist) []))
                   end
               end
           end
     end)
    (λ _, _ ← console_error "Error in create playlist:";
          mret (json 500 (Error "Internal server error"))).

(** [router.put('/:id')]; the body has the members of [CreateBody]. *)
Definition put_id (user : ReqUser) (id : Uuid) (b : CreateBody) : M Reply :=
  try_catch
    (existingPlaylist ← read (playlists_select_single id);
     if match data existingPlaylist with
        | None => true
        | Some p => bool_decide (pl_user_id p ≠ userId user)
        end
     then mret (json 404 (Error "Playlist not found"))
     else
       updated_at ← Date_now;
       let updateData :=
         {| set_name := Js.trim <$> name b;
            set_description := description b;
            set_cover_image := coverImage b;
            set_updated_at := updated_at |} in
       r ← round_trip (playlists_update id updateData);
       match error r with
       | Some _ =>
           _ ← console_error "Error updating playlist:";
           mret (json 500 (Error "Failed to update playlist"))
       | None =>
           match data r with
           | None => throw (TypeError "playlist.id")
           | Some playlist =>
               mret (json 200 (PlaylistUpdated "Playlist updated successfully"
                                 (format_playlist playlist)))
           end
       end)
    (λ _, _ ← console_error "Error in update playlist:";
          mret (json 500 (Error "Internal server error"))).

(** [router.get('/:id/songs')] *)
Definition get_id_songs (user : ReqUser) (id : Uuid) : M Reply :=
  try_catch
    (playlist ← read (playlists_select_single id);
     if match data playlist with
        | None => true
        | Some p => bool_decide (pl_user_id p ≠ userId user)
        end
     then mret (json 404 (Error "Playlist not found"))
     else
       r ← read (playlist_songs_select id);
       match error r with
       | Some _ =>
           _ ← console_error "Error fetching playlist songs:";
           mret (json 500 (Error "Failed to fetch playlist songs"))
       | None =>
           mret (json 200 (SongList (format_song <$> default [] (data r))))
       end)
    (λ _, _ ← console_error "Error in get playlist songs:";
          mret (json 500 (Error "Internal server error"))).

(** A member of the [songs] array of the add-songs body. *)
Record SongDescriptor := {
  songTitle : option string;
  title : option string;
  songSrc : option string;
  src : option string;
  songImg : option string;
  img : option string;
  albumId : option string;
  album_id : option string;
  artist : option string }.

(** [song.songTitle || song.title] *)
Definition title_of (song : SongDescriptor) : option string :=
  Js.or (songTitle song) (title song).

(** [existingTitles.has(title)] on a [Set] of strings. *)
Definition has (existingTitles : gset string) (title : option string) : bool :=
  match title with
  | Some t => bool_decide (t ∈ existingTitles)
  | None => false
  end.

(** [nextPosition], from the answer to the top-position query. *)
Definition next_position (existingSongs : option (list (option Z))) : Z :=
  match existingSongs with
  | Some (Some position :: _) => if bool_decide (position ≠ 0) then position + 1 else 1
  | _ => 1
  end.

(** [songsToAdd]: the songs whose title is not in [existingTitles], each
    with its index in the filtered array added to [nextPosition]. *)
Definition songsToAdd (id : Uuid) (nextPosition : Z) (existingTitles : gset string)
    (songs : list SongDescriptor) : list PlaylistSongInsert :=
  imap (λ index song,
          {| new_playlist_id := id;
             new_song_title := title_of song;
             new_song_src := Js.or (songSrc song) (src song);
             new_song_img := Js.or (songImg song) (img song);
             new_album_id := Js.or (albumId song) (album_id song);
             new_artist := artist song;
             new_position := nextPosition + Z.of_nat index |})
       (filter (λ song, has existingTitles (title_of song) = false) songs).

Definition added_message (n : nat) : string :=
  "Successfully added " +:+ Js.of_nat n +:+ " song(s) to playlist".

(** [router.post('/:id/songs/add')] *)
Definition post_id_songs_add (user : ReqUser) (id : Uuid)
    (songs : option (list SongDescriptor)) : M Reply :=
  try_catch
    (match songs with
     | None | Some [] => mret (json 400 (Error "Songs array is required"))
     | Some songs =>
         playlist ← read (playlists_select_single id);
         if match data playlist with
            | None => true
            | Some p => bool_decide (pl_user_id p ≠ userId user)
            end
         then mret (json 404 (Error "Playlist not found"))
         else
           existingSongs ← read (playlist_songs_top_position id);
           let nextPosition := next_position (data existingSongs) in
           let songTitles := title_of <$> songs in
           existingPlaylistSongs ← read (playlist_songs_titles_in id songTitles);
           let existingTitles : gset string :=
             list_to_set (default [] (data existingPlaylistSongs)) in
           let songsToAdd := songsToAdd id nextPosition existingTitles songs in
           if bool_decide (length songsToAdd = 0%nat) then
             mret (json 400 (Error "All songs are already in the playlist"))
           else
             r ← round_trip (playlist_songs_insert songsToAdd);
             match error r with
             | Some _ =>
                 _ ← console_error "Error adding songs to playlist:";
                 mret (json 500 (Error "Failed to add songs to playlist"))
             | None =>
                 match data r with
                 | None => throw (TypeError "insertedSongs.length")
                 | Some insertedSongs =>
                     mret (json 200 (SongsAdded (added_message (length insertedSongs))
                                                (format_song <$> insertedSongs)))
                 end
             end
     end)
    (λ _, _ ← console_error "Error in add songs to playlist:";
          mret (json 500 (Error "Internal server error"))).

(** [router.delete('/:id')] *)
Definition delete_id (user : ReqUser) (id : Uuid) : M Answer :=
  try_catch
    (existingPlaylist ← read (playlists_select_single id);
     if match data existingPlaylist with
        | None => true
        | Some p => bool_decide (pl_user_id p ≠ userId user)
        end
     then mret (refuse 404 "Playlist not found")
     else
       r ← round_trip (playlists_delete id);
       match error r with
       | Some _ =>
           _ ← console_error "Error deleting playlist:";
           mret (refuse 500 "Failed to delete playlist")
       | None => mret (respond 200 (Message "Playlist deleted successfully"))
       end)
    (λ _, _ ← console_error "Error in delete playlist:";
          mret (refuse 500 "Internal server error")).

(** [router.delete('/:id/songs/remove')] *)
Definition delete_id_songs_remove (user : ReqUser) (id : Uuid)
    (songTitle : option string) : M Answer :=
  try_catch
    (match Js.truthy_value songTitle with
     | None => mret (refuse 400 "Song title is required")
     | Some title =>
         playlist ← read (playlists_select_single id);
         if match data playlist with
            | None => true
            | Some p => bool_decide (pl_user_id p ≠ userId user)
            end
         then mret (refuse 404 "Playlist not found")
         else
           r ← round_trip (playlist_songs_delete id title);
           match error r with
           | Some _ =>
               _ ← console_error "Error removing song from playlist:";
               mret (refuse 500 "Failed to remove song from playlist")
           | None =>
               mret (respond 200 (Message "Song removed from playlist successfully"))
           end
     end)
    (λ _, _ ← console_error "Error in remove song from playlist:";
          mret (refuse 500 "Internal server error")).

Definition removed_message (n : nat) : string :=
  "Successfully removed " +:+ Js.of_nat n +:+ " song(s) from playlist".

(** [router.delete('/:id/songs/remove-multiple')] *)
Definition delete_id_songs_remove_multiple (user : ReqUser) (id : Uuid)
    (songTitles : option (list string)) : M Answer :=
  try_catch
    (match songTitles with
     | None | Some [] => mret (refuse 400 "Song titles array is required")
     | Some songTitles =>
         playlist ← read (playlists_select_single id);
         if match data playlist with
            | None => true
            | Some p => bool_decide (pl_user_id p ≠ userId user)
            end
         then mret (refuse 404 "Playlist not found")
         else
           r ← round_trip (playlist_songs_delete_in id songTitles);
           match error r with
           | Some _ =>
               _ ← console_error "Error removing songs from playlist:";
               mret (refuse 500 "Failed to remove songs from playlist")
           | None =>
               mret (respond 200 (Message (removed_message (length songTitles))))
           end
     end)
    (λ _, _ ← console_error "Error in remove multiple songs from playlist:";
          mret (refuse 500 "Internal server error")).

End Playlists.

(** ** Users router ([src/unnamed/part_002]) *)

Module Users.

Import Store.

Record InsertBody := {
  username : option string;
  email : option string;
  password : option string }.

(** [router.post('/insert')]: registration. *)
Definition post_insert (b : InsertBody) : M Reply :=
  try_catch
    (match Js.truthy_value (username b), Js.truthy_value (email b),
           Js.truthy_value (password b) with
     | Some username, Some email, Some password =>
         if (Js.length password <? 8)%nat then
           mret (send 400 "400::Password must be at least 8 characters long.")
         else
           existingProfile ← read (profiles_select_single_username username);
           match data existingProfile with
           | Some _ => mret (send 400 "400::Username already exists.")
           | None =>
               a ← round_trip (auth_createUser email password);
               match error a with
               | Some authError =>
                   if Js.includes "already registered" (message authError) then
                     mret (send 400 "400::Email already registered.")
                   else
                     _ ← console_error "Auth registration error:";
                     mret (send 500 "500::Registration failed. Please try again.")
               | None =>
                   match data a with
                   | None => throw (TypeError "authData.user")
                   | Some authData =>
                       p ← round_trip (profiles_insert (au_id authData) username);
                       match error p with
                       | Some _ =>
                           _ ← round_trip (auth_deleteUser (au_id authData));
                           _ ← console_error "Profile creation error:";
                           mret (send 500 "500::Registration failed. Please try again.")
                       | None => mret (send 200 "200::Registration successful!")
                       end
                   end
               end
           end
     | _, _, _ => mret (send 400 "400::Please fill out all fields.")
     end)
    (λ _, _ ← console_error "Registration error:";
          mret (send 500 "500::An error occurred during registration.")).

Definition identity_exists (id : Uuid) (d : Db) : Prop := id ∈ au_id <$> auth_users d.

Definition profile_exists (id : Uuid) (d : Db) : Prop := id ∈ pr_id <$> user_profiles d.

(** Identifiers not handed out yet are in no table. *)
Definition fresh_ids (d : Db) : Prop :=
  ∀ id, (next_uuid d ≤ id)%nat → ¬ identity_exists id d ∧ ¬ profile_exists id d.

(** After the request, the identity it may have created and a profile
    row for it are both there or both absent. *)
Definition both_or_neither (b : InsertBody) (w : World) : Prop :=
  let d' := db (post_insert b w).2 in
  identity_exists (next_uuid (db w)) d' ↔ profile_exists (next_uuid (db w)) d'.

(** The deletion of the identity is the fourth round trip of a
    registration; the environment does not fail it. *)
Definition deletion_served (w : World) : Prop :=
  ∀ e, faults w !! 3%nat ≠ Some (Some e).

(** [router.post('/signin')].  [expiresIn] is the life time
    [process.env.JWT_EXPIRES_IN || '1d'] in seconds. *)
Definition post_signin (expiresIn : Z) (email password : option string) : M Answer :=
  try_catch
    (match Js.truthy_value email, Js.truthy_value password with
     | Some email, Some password =>
         a ← read (auth_signInWithPassword email password);
         match error a, data a with
         | None, Some authData =>
             profile ← read (profiles_select_single (au_id authData));
             secret ← env_JWT_SECRET;
             token ← Jwt.sign
                       {| Jwt.userId := Some (au_id authData);
                          Jwt.email := Some (au_email authData);
                          Jwt.username := Js.or (pr_username <$> data profile)
                                                (Some (Js.split_head "@" email));
                          Jwt.exp := None |}
                       secret expiresIn;
             mret (respond 200 (TextToken "200::" token))
         | _, _ => mret (respond 401 (Of (Text "401::Invalid email or password.")))
         end
     | _, _ => mret (respond 400 (Of (Text "400::Please enter both email and password.")))
     end)
    (λ _, _ ← console_error "Login error:";
          mret (respond 500 (Of (Text "500::An error occurred during login.")))).

(** The [while (true)] loop of [/getusername]: try [finalUsername], then
    [defaultUsername_1], [defaultUsername_2], ... until the lookup finds no
    single row.  [None] when the loop is still running after [fuel]
    lookups. *)
Fixpoint finalUsername_loop (fuel : nat) (defaultUsername finalUsername : string)
    (counter : nat) : M (option string) :=
  match fuel with
  | O => mret None
  | S fuel =>
      existing ← read (profiles_select_single_username finalUsername);
      match data existing with
      | None => mret (Some finalUsername)
      | Some _ =>
          finalUsername_loop fuel defaultUsername
            (defaultUsername +:+ "_" +:+ Js.of_nat counter) (S counter)
      end
  end.

(** [router.post('/getusername')], the token being the [csrid] member of
    the body; [uuid_text] is the text of an identifier.  [None] when the
    loop has not ended within [fuel] lookups. *)
Definition post_getusername (uuid_text : Uuid → string) (fuel : nat)
    (csrid : option Jwt.Token) : M (option Reply) :=
  try_catch
    (match csrid with
     | None => mret (Some (send 400 "Token required"))
     | Some token =>
         try_catch
           (secret ← env_JWT_SECRET;
            decoded ← Jwt.verify token secret;
            match Jwt.userId decoded with
            | None => mret (Some (send 403 "Invalid token: missing user ID"))
            | Some userId =>
                profile ← read (profiles_select_single userId);
                match error profile, data profile with
                | None, Some profile => mret (Some (send 200 (pr_username profile)))
                | _, _ =>
                    let defaultUsername :=
                      match Js.truthy_value (Jwt.email decoded) with
                      | Some email => Js.split_head "@" email
                      | None => "user_" +:+ String.substring 0 8 (uuid_text userId)
                      end in
                    found ← finalUsername_loop fuel defaultUsername defaultUsername 1;
                    match found with
                    | None => mret None
                    | Some finalUsername =>
                        r ← round_trip (profiles_insert userId finalUsername);
                        match error r with
                        | Some _ =>
                            _ ← console_error "Error creating user profile:";
                            mret (Some (send 200
                                          (default finalUsername
                                             (Js.truthy_value (Jwt.username decoded)))))
                        | None => mret (Some (send 200 finalUsername))
                        end
                    end
                end
            end)
           (λ _, _ ← console_error "JWT verification error:";
                 mret (Some (send 403 "Invalid or expired token")))
     end)
    (λ _, _ ← console_error "Get username error:";
          mret (Some (send 500 "An error occurred"))).

End Users.

(** ** Albums router ([src/routes/albums.js]): the reshaping of an album *)

Module Albums.

(** A row of [songs] as it comes embedded in its album. *)
Record Song := {
  title : string;
  src : string;
  img : option string;
  duration : option Z }.

(** An album with its embedded songs. *)
Record Album := {
  id : string;
  album_title : string;
  artist : string;
  album_img : option string;
  category : option string;
  genre : option string;
  description : option string;
  songs : option (list Song) }.

(** The key under which a song is remembered as seen. *)
Definition key (song : Song) : string := title song +:+ "-" +:+ src song.

(** The filter over [album.songs] with its [seenSongs] map. *)
Fixpoint filter_unseen (seenSongs : gset string) (songs : list Song) : list Song :=
  match songs with
  | [] => []
  | song :: rest =>
      if bool_decide (key song ∈ seenSongs) then filter_unseen seenSongs rest
      else song :: filter_unseen ({[key song]} ∪ seenSongs) rest
  end.

Definition uniqueSongs (album : Album) : list Song :=
  filter_unseen ∅ (default [] (songs album)).

Record SongShown := {
  shown_title : string;
  shown_src : string;
  shown_img : option string;
  shown_duration : option Z }.

Record AlbumShown := {
  shown_id : string;
  shown_album_title : string;
  shown_artist : string;
  shown_album_img : option string;
  shown_category : option string;
  shown_genre : option string;
  shown_description : option string;
  shown_songs : list SongShown }.

(** The object both album routes build from a fetched album. *)
Definition format_album (album : Album) : AlbumShown :=
  {| shown_id := id album;
     shown_album_title := album_title album;
     shown_artist := artist album;
     shown_album_img := album_img album;
     shown_category := category album;
     shown_genre := genre album;
     shown_description := description album;
     shown_songs :=
       (λ song, {| shown_title := title song;
                   shown_src := src song;
                   shown_img := Js.or (img song) (album_img album);
                   shown_duration := duration song |}) <$> uniqueSongs album |}.

End Albums.

(** ** Observations on a handler's run *)

(** The reply a run ends with, when it ends with one. *)
Definition reply_of (o : Outcome Reply * World) : option Reply :=
  match o.1 with
  | Value r => Some r
  | Throw _ => None
  end.

(** The run answered with HTTP 200. *)
Definition succeeded (o : Outcome Reply * World) : Prop :=
  status <$> reply_of o = Some 200%nat.

(** The [action] member of a toggle reply. *)
Definition action_of (o : Outcome Reply * World) : option string :=
  match body <$> reply_of o with
  | Some (Toggled action _ _ _) => Some action
  | _ => None
  end.

(** No round trip of the request is failed by the environment. *)
Definition healthy (w : World) : Prop := faults w = [].

(** [UNIQUE(user_id, song_title)] on [favorites], as a property of a state. *)
Definition favorites_unique (d : Db) : Prop :=
  NoDup ((λ f, (fav_user_id f, fav_song_title f)) <$> favorites d).

(** The songs a reply shows, whichever route sent it. *)
Definition songs_in (b : Body) : list SongView :=
  match b with
  | PlaylistList playlists => playlists ≫= snd
  | PlaylistCreated _ _ songs | SongList songs | SongsAdded _ songs => songs
  | _ => []
  end.

(** The run ended with a reply of the given HTTP status. *)
Definition answered (s : nat) (o : Outcome Answer * World) : Prop :=
  match o.1 with
  | Value a => http a = s
  | Throw _ => False
  end.

(** Every run of [m] takes the store to a state related to the one it
    started in. *)
Definition steps {A} (R : relation Db) (m : M A) : Prop :=
  ∀ w, R (db w) (db (m w).2).

(** The uniqueness constraint on [favorites] survives. *)
Definition unique_kept (d d' : Db) : Prop := favorites_unique d → favorites_unique d'.

(** At most the favorites of [u] differ between the two states. *)
Definition only_favorites_of (u : Uuid) (d d' : Db) : Prop :=
  auth_users d' = auth_users d ∧ user_profiles d' = user_profiles d ∧
  playlists d' = playlists d ∧ playlist_songs d' = playlist_songs d ∧
  filter (λ f, fav_user_id f ≠ u) (favorites d') =
  filter (λ f, fav_user_id f ≠ u) (favorites d).

(** The second state has the rows of the first and, after them, further
    playlist songs that all have a position; nothing else differs. *)
Definition songs_appended (d d' : Db) : Prop :=
  auth_users d' = auth_users d ∧ user_profiles d' = user_profiles d ∧
  favorites d' = favorites d ∧ playlists d' = playlists d ∧
  ∃ new, playlist_songs d' = playlist_songs d ++ new ∧
         Forall (λ s, is_Some (ps_position s)) new.

(** The account identifiers are distinct (the primary key of the
    Identity Provider's table). *)
Definition accounts_unique (d : Db) : Prop := NoDup (au_id <$> auth_users d).

(** [UNIQUE] on [user_profiles.username], as a property of a state. *)
Definition usernames_unique (d : Db) : Prop := NoDup (pr_username <$> user_profiles d).

(** The names [/getusername] tries, in order: the default one, then the
    default one followed by [_1], [_2], ... *)
Definition candidate (defaultUsername : string) (k : nat) : string :=
  match k with
  | O => defaultUsername
  | S _ => defaultUsername +:+ "_" +:+ Js.of_nat k
  end.

(** The token a sign-in with e-mail address [e] issues for the account
    [u]: it carries the profile's user name, or else the local part of
    [e], and expires [expiresIn] seconds after the current second. *)
Definition issued_token (expiresIn : Z) (e : string) (u : AuthUser) (w : World) : Jwt.Token :=
  Jwt.Signed (JWT_SECRET w)
    {| Jwt.userId := Some (au_id u);
       Jwt.email := Some (au_email u);
       Jwt.username :=
         Js.or (pr_username <$> data (Store.profiles_select_single (au_id u) (db w)))
               (Some (Js.split_head "@" e));
       Jwt.exp := Some (clock w `div` 1000 + expiresIn) |}.

(** The profile table has one row per identifier (its primary key). *)
Definition profiles_keyed (d : Db) : Prop := NoDup (pr_id <$> user_profiles d).

(** [d'] is [d] with profile rows added at the end, and nothing else
    changed. *)
Definition profiles_appended (d d' : Db) : Prop :=
  (∃ new, user_profiles d' = user_profiles d ++ new) ∧
  auth_users d' = auth_users d ∧ favorites d' = favorites d ∧
  playlists d' = playlists d ∧ playlist_songs d' = playlist_songs d.

(** A name in which ILIKE finds nothing to interpret: no [%], no [*], no
    [_] and no backslash. *)
Fixpoint literal (name : string) : bool :=
  match name with
  | EmptyString => true
  | String c rest =>
      negb (Ascii.eqb c "%" || Ascii.eqb c "*" || Ascii.eqb c "_" ||
            Ascii.eqb c Pg.backslash) && literal rest
  end.

(** The playlists of a user in the order of the table. *)
Definition playlists_of (user_id : Uuid) (d : Db) : list Playlist :=
  filter (λ p, pl_user_id p = user_id) (playlists d).

(** The names of a user's playlists differ pairwise, also without regard
    to case. *)
Definition names_distinct (user_id : Uuid) (d : Db) : Prop :=
  NoDup (Pg.lowercase ∘ pl_name <$> playlists_of user_id d).

(** ** Notions the playlist properties are stated with *)

Module PlaylistFacts.

Import Store Playlists.

(** The song view is the rendering of a stored row. *)
Definition shows_stored (d : Db) (sv : SongView) : Prop :=
  ∃ row, row ∈ playlist_songs d ∧ sv = format_song row.

(** The playlist exists (one row under its primary key) and belongs to
    the caller. *)
Definition owned (user : ReqUser) (id : Uuid) (d : Db) : Prop :=
  ∃ p, filter (λ p, pl_id p = id) (playlists d) = [p] ∧ pl_user_id p = userId user.

(** Every song of the playlist has a position. *)
Definition positions_assigned (id : Uuid) (d : Db) : Prop :=
  ∀ s, s ∈ songs_of id d → is_Some (ps_position s).

(** The fields of a new playlist fit their columns: texts without a
    zero character, the trimmed name within 200 characters. *)
Definition create_fits (b : CreateBody) : Prop :=
  Pg.first_refusal
    [ Pg.refusal_nullable (Pg.VARCHAR 200) (Js.trim <$> name b);
      Pg.refusal_nullable Pg.TEXT (Js.or_null (description b));
      Pg.refusal_nullable Pg.TEXT (Js.or_null (coverImage b)) ] = None.

(** The fields of an update that are present fit their columns: texts
    without a zero character, the trimmed name within 200 characters. *)
Definition update_fits (b : CreateBody) : Prop :=
  Pg.first_refusal
    [ Pg.refusal_nullable (Pg.VARCHAR 200) (Js.trim <$> name b);
      Pg.refusal_nullable Pg.TEXT (description b);
      Pg.refusal_nullable Pg.TEXT (coverImage b) ] = None.

(** The song has a title, and one that a list in a filter carries as
    it is. *)
Definition plainly_titled (song : SongDescriptor) : Prop :=
  ∃ t, title_of song = Some t ∧ Pg.verbatim t = true.

(** The values of the song fit the columns they go to: texts without
    a zero character, the title within 200 characters, album id and
    artist within 100. *)
Definition song_fits (song : SongDescriptor) : Prop :=
  Pg.first_refusal
    [ Pg.refusal_nullable (Pg.VARCHAR 200) (title_of song);
      Pg.refusal_nullable Pg.TEXT (Js.or (songSrc song) (src song));
      Pg.refusal_nullable Pg.TEXT (Js.or (songImg song) (img song));
      Pg.refusal_nullable (Pg.VARCHAR 100) (Js.or (albumId song) (album_id song));
      Pg.refusal_nullable (Pg.VARCHAR 100) (artist song) ] = None.

(** The [count] positions from [first] on are values of an [INTEGER]
    column. *)
Definition positions_fit (first : Z) (count : nat) : Prop :=
  -2147483648 ≤ first ∧ first + Z.of_nat count - 1 ≤ 2147483647.

(** The largest position in the playlist, if it has any song. *)
Definition max_position (id : Uuid) (d : Db) : option Z :=
  match omap ps_position (songs_of id d) with
  | [] => None
  | p :: ps => Some (foldr Z.max p ps)
  end.

(** The position after the last one; 1 in an empty playlist. *)
Definition first_free (id : Uuid) (d : Db) : Z :=
  match max_position id d with
  | Some m => m + 1
  | None => 1
  end.

(** The song's title is the title of a song of the playlist. *)
Definition already_in (id : Uuid) (d : Db) (song : SongDescriptor) : bool :=
  match title_of song with
  | Some t => bool_decide (t ∈ ps_song_title <$> songs_of id d)
  | None => false
  end.

(** The submitted songs that are not in the playlist yet, in
    submission order. *)
Definition new_songs (id : Uuid) (d : Db) (songs : list SongDescriptor) :
    list SongDescriptor :=
  filter (λ song, already_in id d song = false) songs.

(** The row the add-songs rule asks for: the song at [index] among the
    new songs takes the position [index] places after the first free
    one. *)
Definition expected_row (d : Db) (id : Uuid) (index : nat) (song : SongDescriptor) :
    PlaylistSong :=
  {| ps_id := (next_uuid d + index)%nat;
     ps_playlist_id := id;
     ps_song_title := default "" (title_of song);
     ps_song_src := Js.or (songSrc song) (src song);
     ps_song_img := Js.or (songImg song) (img song);
     ps_album_id := Js.or (albumId song) (album_id song);
     ps_artist := artist song;
     ps_position := Some (first_free id d + Z.of_nat index);
     ps_added_at := now d |}.

Definition expected_rows (d : Db) (id : Uuid) (songs : list SongDescriptor) :
    list PlaylistSong :=
  imap (expected_row d id) (new_songs id d songs).



End PlaylistFacts.

(** ** Concrete states and requests *)

Module Scenario.

Definition empty_db : Db :=
  {| auth_users := []; user_profiles := []; favorites := []; playlists := [];
     playlist_songs := []; next_uuid := 1; now := 1700000000000 |}.

Definition world (d : Db) (plan : list (option ApiError)) : World :=
  {| db := d; clock := 1700000000000; JWT_SECRET := "secret"; console := [];
     faults := plan |}.

(** An account without a profile row. *)
Definition alice_account : AuthUser :=
  {| au_id := 7; au_email := "alice@x.com"; au_password := "password1" |}.

Definition alice : ReqUser :=
  {| userId := 7; email := "alice@x.com"; username := "alice" |}.

Definition db_alice : Db := with_next_uuid 8 (with_auth_users [alice_account] empty_db).

(** A token for alice's account that carries no user name. *)
Definition token_without_username : Jwt.Token :=
  Jwt.Signed "secret"
    {| Jwt.userId := Some 7%nat; Jwt.email := Some "alice@x.com";
       Jwt.username := None; Jwt.exp := Some 1700086400 |}.

Definition token_with_username : Jwt.Token :=
  Jwt.Signed "secret"
    {| Jwt.userId := Some 7%nat; Jwt.email := Some "alice@x.com";
       Jwt.username := Some "alice"; Jwt.exp := Some 1700086400 |}.

Definition token_without_subject : Jwt.Token :=
  Jwt.Signed "secret"
    {| Jwt.userId := None; Jwt.email := Some "alice@x.com";
       Jwt.username := Some "alice"; Jwt.exp := Some 1700086400 |}.

Definition token_of_stranger : Jwt.Token :=
  Jwt.Signed "secret"
    {| Jwt.userId := Some 99%nat; Jwt.email := Some "bob@x.com";
       Jwt.username := Some "bob"; Jwt.exp := Some 1700086400 |}.

Definition token_malformed : Jwt.Token := Jwt.Malformed "not.a.token".

Definition unavailable : ApiError :=
  {| code := "503"; message := "Service Unavailable" |}.

(** A registration during which the profile insert and then the deletion
    of the new identity are both failed by the environment. *)
Definition registration : Users.InsertBody :=
  {| Users.username := Some "alice"; Users.email := Some "alice@x.com";
     Users.password := Some "password1" |}.

Definition registration_plan : list (option ApiError) :=
  [None; None; Some unavailable; Some unavailable].

(** Alice owns one playlist, "Rock". *)
Definition rock : Playlist :=
  {| pl_id := 20; pl_user_id := 7; pl_name := "Rock"; pl_description := None;
     pl_cover_image := None; pl_created_at := 1690000000000;
     pl_updated_at := 1690000000000 |}.

Definition db_rock : Db := with_next_uuid 21 (with_playlists [rock] db_alice).

Definition named (n : string) : Playlists.CreateBody :=
  {| Playlists.name := Some n; Playlists.description := None;
     Playlists.coverImage := None |}.

(** Alice creates "Mix" and "Other" and renames "Other" to "mix". *)
Definition after_rename : World :=
  let w1 := (Playlists.post_create alice (named "Mix") (world db_alice [])).2 in
  let w2 := (Playlists.post_create alice (named "Other") w1).2 in
  (Playlists.put_id alice 9 (named "mix") w2).2.

(** "Rock" holds "Song A" at position 1. *)
Definition song_a : PlaylistSong :=
  {| ps_id := 21; ps_playlist_id := 20; ps_song_title := "Song A";
     ps_song_src := Some "a.mp3"; ps_song_img := Some "a.png";
     ps_album_id := Some "album-1"; ps_artist := Some "Artist";
     ps_position := Some 1; ps_added_at := 1690000000000 |}.

Definition db_rock_song : Db :=
  with_next_uuid 22 (with_playlist_songs [song_a] db_rock).

Definition titled (t : string) : Playlists.SongDescriptor :=
  {| Playlists.songTitle := None; Playlists.title := Some t;
     Playlists.songSrc := None; Playlists.src := Some (t +:+ ".mp3");
     Playlists.songImg := None; Playlists.img := Some (t +:+ ".png");
     Playlists.albumId := None; Playlists.album_id := Some "album-1";
     Playlists.artist := Some "Artist" |}.

(** A batch with one song the playlist has and two it has not. *)
Definition batch : list Playlists.SongDescriptor :=
  [titled "Song B"; titled "Song A"; titled "Song C"].

Definition favorite_body (t : string) : Favorites.SongBody :=
  {| Favorites.songTitle := Some t; Favorites.songSrc := Some (t +:+ ".mp3");
     Favorites.songImg := None; Favorites.albumId := None;
     Favorites.albumCover := None; Favorites.artist := None |}.

(** Alice has "Song A" among her favorites. *)
Definition favorite_a : Favorite :=
  {| fav_id := 30; fav_user_id := 7; fav_song_title := "Song A";
     fav_song_src := None; fav_song_img := None; fav_album_id := None;
     fav_album_cover := None; fav_artist := None; fav_added_at := 1690000000000 |}.

Definition db_favorite : Db := with_next_uuid 31 (with_favorites [favorite_a] db_alice).

(** Bob has an account, and no playlist. *)
Definition bob_account : AuthUser :=
  {| au_id := 8; au_email := "bob@x.com"; au_password := "password2" |}.

Definition bob : ReqUser :=
  {| userId := 8; email := "bob@x.com"; username := "bob" |}.

(** A second Bob, who registered the user name "bob". *)
Definition robert_account : AuthUser :=
  {| au_id := 9; au_email := "bob@y.com"; au_password := "password3" |}.

(** Three accounts; alice and the second Bob have profiles, the first
    Bob has none. *)
Definition db_profiles : Db :=
  with_next_uuid 10
    (with_user_profiles
       [{| pr_id := 7; pr_username := "alice" |}; {| pr_id := 9; pr_username := "bob" |}]
       (with_auth_users [alice_account; bob_account; robert_account] empty_db)).

Definition payload_of_alice : Jwt.Payload :=
  {| Jwt.userId := Some 7%nat; Jwt.email := Some "alice@x.com";
     Jwt.username := Some "al"; Jwt.exp := Some 1700086400 |}.

Definition payload_of_bob : Jwt.Payload :=
  {| Jwt.userId := Some 8%nat; Jwt.email := Some "bob@x.com";
     Jwt.username := None; Jwt.exp := Some 1700086400 |}.

(** A registration of carol. *)
Definition registration_of_carol : Users.InsertBody :=
  {| Users.username := Some "carol"; Users.email := Some "carol@x.com";
     Users.password := Some "password4" |}.

(** The same user name under another address. *)
Definition registration_of_caroline : Users.InsertBody :=
  {| Users.username := Some "carol"; Users.email := Some "caroline@x.com";
     Users.password := Some "password5" |}.

(** "Rock" holds "Song A" and "Song B". *)
Definition song_b : PlaylistSong :=
  {| ps_id := 22; ps_playlist_id := 20; ps_song_title := "Song B";
     ps_song_src := Some "b.mp3"; ps_song_img := None;
     ps_album_id := None; ps_artist := None;
     ps_position := Some 2; ps_added_at := 1690000001000 |}.

Definition db_rock_songs : Db :=
  with_next_uuid 23 (with_playlist_songs [song_b; song_a] db_rock).

(** Alice has "Song A" and, more recently, "Song B" among her favorites. *)
Definition favorite_b : Favorite :=
  {| fav_id := 31; fav_user_id := 7; fav_song_title := "Song B";
     fav_song_src := None; fav_song_img := None; fav_album_id := None;
     fav_album_cover := None; fav_artist := None; fav_added_at := 1690000002000 |}.

Definition db_favorites : Db :=
  with_next_uuid 32 (with_favorites [favorite_a; favorite_b] db_alice).

(** An album that holds "One" twice. *)
Definition one : Albums.Song :=
  {| Albums.title := "One"; Albums.src := "one.mp3"; Albums.img := None;
     Albums.duration := Some 180 |}.

Definition two : Albums.Song :=
  {| Albums.title := "Two"; Albums.src := "two.mp3"; Albums.img := Some "two.png";
     Albums.duration := None |}.

Definition album_with (songs : list Albums.Song) : Albums.Album :=
  {| Albums.id := "album-1"; Albums.album_title := "Album"; Albums.artist := "Artist";
     Albums.album_img := Some "album.png"; Albums.category := None;
     Albums.genre := None; Albums.description := None; Albums.songs := Some songs |}.

End Scenario.

(** * Properties *)

(** ** The monad and the round trips *)

Lemma read_spec {A} (q : Db → Response A) (w : World) :
  ∃ r w', read q w = (Value r, w') ∧ db w' = db w ∧ console w' = console w ∧
    ((∃ e, r = failed e) ∨ r = q (db w)).
Proof.
  unfold read, round_trip.
  destruct (faults w) as [|[e|] plan]; simpl; eauto 10.
Qed.

Lemma read_clock {A} (q : Db → Response A) (w : World) :
  clock (read q w).2 = clock w.
Proof. unfold read, round_trip. by destruct (faults w) as [|[e|] plan]. Qed.

(** A failed [.single()] carries no data. *)
Lemma single_error_no_data {A} (rows : list A) e :
  error (Pg.single rows) = Some e → data (Pg.single rows) = None.
Proof. destruct rows as [|? [|? ?]]; simpl; congruence. Qed.

Ltac run_in H :=
  unfold try_catch, mbind, M_bind, mret, M_ret, console_error, throw in H;
  simpl in H.

Lemma round_trip_spec {A} (q : Db → Response A * Db) (w : World) :
  ∃ r w', round_trip q w = (Value r, w') ∧ console w' = console w ∧
    clock w' = clock w ∧ JWT_SECRET w' = JWT_SECRET w ∧
    ((∃ e, r = failed e ∧ db w' = db w) ∨ (r, db w') = q (db w)).
Proof.
  unfold round_trip.
  destruct (faults w) as [|[e|] plan]; simpl.
  - destruct (q (db w)) as [r d]; simpl; eauto 10.
  - eauto 10.
  - destruct (q (db w)) as [r d]; simpl; eauto 10.
Qed.

Lemma round_trip_healthy {A} (q : Db → Response A * Db) (w : World) :
  healthy w → round_trip q w = (Value (q (db w)).1, with_db (q (db w)).2 w).
Proof. unfold healthy, round_trip. intros ->. by destruct (q (db w)). Qed.

Lemma read_healthy {A} (q : Db → Response A) (w : World) :
  healthy w → read q w = (Value (q (db w)), w).
Proof.
  intros H. unfold read. rewrite round_trip_healthy by done. simpl.
  by destruct w as [[] ? ? ? ?].
Qed.

(** ** The writes of the store *)

Section store.
Import Store.

(** An insert into [favorites] is refused, changing nothing, or appends
    the row: then the values fit their columns, the user had no row for
    the title, and the user is an account. *)
Lemma favorites_insert_inv row d r d' :
  (r, d') = favorites_insert row d →
  (∃ e, r = failed e ∧ d' = d) ∨
  (favorite_refusal row = None ∧
   favorites_of (user_id row) (song_title row) d = [] ∧
   user_id row ∈ au_id <$> auth_users d ∧
   let f := {| fav_id := next_uuid d; fav_user_id := user_id row;
               fav_song_title := song_title row; fav_song_src := song_src row;
               fav_song_img := song_img row; fav_album_id := album_id row;
               fav_album_cover := album_cover row; fav_artist := artist row;
               fav_added_at := now d |} in
   r = ok f ∧
   d' = with_next_uuid (S (next_uuid d)) (with_favorites (favorites d ++ [f]) d)).
Proof.
  unfold favorites_insert.
  destruct (favorite_refusal row) as [e|]; [intros [= -> ->]; eauto|].
  destruct (favorites_of _ _ d) as [|g l] eqn:E; [|intros [= -> ->]; eauto].
  case_bool_decide as Hfk; [intros [= -> ->]; eauto|].
  intros [= -> ->]. right. by repeat split.
Qed.

Lemma favorites_insert_ok row d :
  favorite_refusal row = None →
  favorites_of (user_id row) (song_title row) d = [] →
  user_id row ∈ au_id <$> auth_users d →
  let f := {| fav_id := next_uuid d; fav_user_id := user_id row;
              fav_song_title := song_title row; fav_song_src := song_src row;
              fav_song_img := song_img row; fav_album_id := album_id row;
              fav_album_cover := album_cover row; fav_artist := artist row;
              fav_added_at := now d |} in
  favorites_insert row d =
    (ok f, with_next_uuid (S (next_uuid d)) (with_favorites (favorites d ++ [f]) d)).
Proof.
  intros Hfit Hnone Hacc. unfold favorites_insert. rewrite Hfit, Hnone.
  by rewrite bool_decide_false by (by intros ?).
Qed.

(** The same for [playlists]. *)
Lemma playlists_insert_ok row d :
  playlist_refusal row = None → new_user_id row ∈ au_id <$> auth_users d →
  let p := {| pl_id := next_uuid d; pl_user_id := new_user_id row;
              pl_name := new_name row; pl_description := new_description row;
              pl_cover_image := new_cover_image row;
              pl_created_at := now d; pl_updated_at := now d |} in
  playlists_insert row d =
    (ok p, with_next_uuid (S (next_uuid d)) (with_playlists (playlists d ++ [p]) d)).
Proof.
  intros Hfit Hacc. unfold playlists_insert. rewrite Hfit.
  by rewrite bool_decide_false by (by intros ?).
Qed.

(** An update is refused, changing nothing, or rewrites the one row the
    filter selects. *)
Lemma playlists_update_inv id u d r d' :
  (r, d') = playlists_update id u d →
  (∃ e, r = failed e ∧ d' = d) ∨
  (update_refusal u = None ∧
   ∃ p, filter (λ p, pl_id p = id) (playlists d) = [p] ∧
        r = ok (apply_update u p) ∧
        d' = with_playlists
               ((λ q, if decide (pl_id q = id) then apply_update u q else q)
                  <$> playlists d) d).
Proof.
  unfold playlists_update.
  destruct (update_refusal u) as [e|]; [intros [= -> ->]; eauto|].
  destruct (filter _ (playlists d)) as [|p [|q l]]; intros [= -> ->]; eauto 10.
Qed.

(** An insert into [playlist_songs] is refused, changing nothing, or
    appends all the rows. *)
Lemma playlist_songs_insert_inv rows d r d' :
  (r, d') = playlist_songs_insert rows d →
  (∃ e, r = failed e ∧ d' = d) ∨
  (Pg.first_refusal (song_refusal <$> rows) = None ∧
   ∃ new, mapM id (imap (new_playlist_song d) rows) = Some new ∧
          r = ok new ∧
          d' = with_next_uuid (next_uuid d + length rows)%nat
                 (with_playlist_songs (playlist_songs d ++ new) d)).
Proof.
  unfold playlist_songs_insert.
  destruct (Pg.first_refusal _) as [e|]; [intros [= -> ->]; eauto|].
  destruct (mapM id _) as [new|]; intros [= -> ->]; eauto 10.
Qed.

(** An insert into [user_profiles] is refused, changing nothing, or
    appends the row. *)
Lemma profiles_insert_inv id username d r d' :
  (r, d') = profiles_insert id username d →
  (∃ e, r = failed e ∧ d' = d) ∨
  (Pg.refusal (Pg.VARCHAR 50) username = None ∧
   (id ∉ pr_id <$> user_profiles d) ∧ id ∈ au_id <$> auth_users d ∧
   (username ∉ pr_username <$> user_profiles d) ∧
   error r = None ∧
   d' = with_user_profiles
          (user_profiles d ++ [{| pr_id := id; pr_username := username |}]) d).
Proof.
  unfold profiles_insert.
  destruct (Pg.refusal _ username) as [e|]; [intros [= -> ->]; eauto|].
  repeat case_bool_decide; intros [= -> ->]; eauto.
  right. by repeat split.
Qed.

Lemma profiles_insert_ok id username d :
  Pg.refusal (Pg.VARCHAR 50) username = None →
  (id ∉ pr_id <$> user_profiles d) → id ∈ au_id <$> auth_users d →
  (username ∉ pr_username <$> user_profiles d) →
  profiles_insert id username d =
    ({| data := None; error := None |},
     with_user_profiles
       (user_profiles d ++ [{| pr_id := id; pr_username := username |}]) d).
Proof.
  intros Hfit Hpk Hfk Huniq. unfold profiles_insert. rewrite Hfit.
  rewrite bool_decide_false by done.
  rewrite bool_decide_false by (by intros ?).
  by rewrite bool_decide_false by done.
Qed.

Lemma first_refusal_None columns :
  Pg.first_refusal columns = None ↔ Forall (λ c, c = None) columns.
Proof.
  induction columns as [|[e|] l IH]; simpl.
  - split; [constructor|done].
  - split; [done|]. by intros [? _]%Forall_cons.
  - rewrite IH. split; [by constructor|]. by intros [_ ?]%Forall_cons.
Qed.

(** A list of values none of which is empty selects the rows whose
    value it holds. *)
Lemma in_list_elem values v :
  Forall (λ x, x ≠ "") values → Pg.in_list values v = true ↔ v ∈ values.
Proof.
  intros Hne. unfold Pg.in_list. rewrite andb_true_iff, bool_decide_eq_true.
  split; [by intros [? _]|]. intros Hv. split; [done|].
  destruct values as [|x l]; [by apply not_elem_of_nil in Hv|].
  apply Forall_cons in Hne as [Hx _]. simpl.
  destruct x; [done|]. done.
Qed.

Lemma verbatim_not_empty s : Pg.verbatim s = true → s ≠ "".
Proof. by destruct s. Qed.

(** A value fits a [VARCHAR(n)] column exactly when the column does not
    refuse it. *)
Lemma refusal_varchar n s : Pg.refusal (Pg.VARCHAR n) s = None ↔ Pg.varchar n s = true.
Proof.
  unfold Pg.refusal, Pg.varchar.
  destruct (Pg.text s); simpl; [|split; discriminate].
  destruct (Utf8.code_points s <=? n)%nat; split; done.
Qed.

Lemma refusal_text s : Pg.refusal Pg.TEXT s = None ↔ Pg.text s = true.
Proof. unfold Pg.refusal. destruct (Pg.text s); simpl; split; done. Qed.

End store.

(** ** Favorites *)

Section favorites.
Import Store Favorites.

Lemma elem_of_favorite_set t u d :
  t ∈ favorite_set u d ↔ ∃ f, f ∈ favorites d ∧ fav_user_id f = u ∧ fav_song_title f = t.
Proof.
  unfold favorite_set. rewrite elem_of_list_to_set, list_elem_of_fmap.
  split.
  - intros (f & -> & Hf). apply list_elem_of_filter in Hf as [? ?]. eauto.
  - intros (f & ? & ? & <-). exists f. split; [done|]. by apply list_elem_of_filter.
Qed.

Lemma elem_of_favorites_of f u t d :
  f ∈ favorites_of u t d ↔ f ∈ favorites d ∧ fav_user_id f = u ∧ fav_song_title f = t.
Proof. unfold favorites_of. rewrite list_elem_of_filter. tauto. Qed.

Lemma favorites_of_nil u t d : favorites_of u t d = [] ↔ t ∉ favorite_set u d.
Proof.
  rewrite elem_of_favorite_set. split.
  - intros Hnil (f & Hf). apply elem_of_favorites_of in Hf.
    rewrite Hnil in Hf. by apply not_elem_of_nil in Hf.
  - intros Hno. destruct (favorites_of u t d) as [|f l] eqn:E; [done|].
    exfalso. apply Hno. exists f. apply elem_of_favorites_of. rewrite E. left.
Qed.

Lemma favorites_of_unique u t d :
  favorites_unique d → (length (favorites_of u t d) ≤ 1)%nat.
Proof.
  unfold favorites_unique, favorites_of.
  induction (favorites d) as [|f l IH]; simpl; [lia|].
  rewrite NoDup_cons. intros [Hf Hl]. specialize (IH Hl).
  rewrite filter_cons. case_decide as Hk; [|done].
  simpl. destruct (filter _ l) as [|g l'] eqn:E; [simpl; lia|].
  exfalso. apply Hf. assert (Hg : g ∈ filter (λ f, fav_user_id f = u ∧ fav_song_title f = t) l)
    by (rewrite E; left).
  apply list_elem_of_filter in Hg as [[? ?] Hg].
  apply list_elem_of_fmap. exists g. destruct Hk. split; [congruence|done].
Qed.

Lemma favorites_of_single u t d :
  favorites_unique d → t ∈ favorite_set u d → ∃ f, favorites_of u t d = [f].
Proof.
  intros Hu Ht. pose proof (favorites_of_unique u t d Hu) as Hlen.
  destruct (favorites_of u t d) as [|f [|g l]] eqn:E; simpl in Hlen; [|eauto|lia].
  apply favorites_of_nil in E. done.
Qed.

(** The store keeps [UNIQUE(user_id, song_title)]: an insert that would
    break it is refused, and a delete cannot break it. *)
Lemma favorites_insert_unique row d :
  favorites_unique d → favorites_unique (favorites_insert row d).2.
Proof.
  intros Hu. unfold favorites_insert.
  destruct (favorite_refusal row); [done|].
  destruct (favorites_of (user_id row) (song_title row) d) as [|f l] eqn:E; [|done].
  case_bool_decide; [done|].
  unfold favorites_unique. simpl. rewrite fmap_app. apply NoDup_app.
  split; [done|]. split; [|apply NoDup_singleton].
  intros k Hk Hk'. apply list_elem_of_singleton in Hk' as ->.
  apply list_elem_of_fmap in Hk as (f & Hkey & Hf). injection Hkey as Hu' Ht'.
  apply favorites_of_nil in E. apply E. apply elem_of_favorite_set. eauto.
Qed.

Lemma favorites_delete_unique u t d :
  favorites_unique d → favorites_unique (favorites_delete u t d).2.
Proof.
  unfold favorites_unique, favorites_delete. simpl.
  induction (favorites d) as [|f l IH]; [done|].
  rewrite fmap_cons, NoDup_cons. intros [Hf Hl]. rewrite filter_cons.
  case_decide; [|by apply IH].
  rewrite fmap_cons. apply NoDup_cons. split; [|by apply IH].
  intros (g & Hkey & Hg)%list_elem_of_fmap. apply list_elem_of_filter in Hg as [_ Hg].
  apply Hf. apply list_elem_of_fmap. eauto.
Qed.

(** What one toggle that answers 200 did. *)
Lemma toggle_step user b w :
  succeeded (post_toggle user b w) →
  ∃ title, Js.truthy_value (songTitle b) = Some title ∧
    ((title ∈ favorite_set (userId user) (db w) ∧
      action_of (post_toggle user b w) = Some "removed" ∧
      favorites (db (post_toggle user b w).2) =
        filter (λ f, ¬ (fav_user_id f = userId user ∧ fav_song_title f = title))
               (favorites (db w)))
     ∨
     ((title ∉ favorite_set (userId user) (db w)) ∧
      action_of (post_toggle user b w) = Some "added" ∧
      ∃ row, fav_user_id row = userId user ∧ fav_song_title row = title ∧
        favorites (db (post_toggle user b w).2) = favorites (db w) ++ [row])).
Proof.
  destruct (post_toggle user b w) as [out w2] eqn:Hrun.
  unfold post_toggle in Hrun.
  destruct (Js.truthy_value (songTitle b)) as [title|] eqn:Ht.
  2:{ run_in Hrun. simplify_eq/=. by intros [=]. }
  intros Hok. exists title. split; [done|].
  destruct (read_spec (favorites_select_single (userId user) title) w)
    as (r & w1 & Hr & Hdb & _ & Hcases).
  run_in Hrun. rewrite Hr in Hrun.
  destruct (data r) as [f|] eqn:Hd.
  - (* the row was found: remove *)
    destruct Hcases as [[e ->]| ->]; [done|].
    destruct (round_trip_spec (favorites_delete (userId user) title) w1)
      as (r2 & w3 & Hr2 & _ & _ & _ & Hw).
    rewrite Hr2 in Hrun.
    destruct Hw as [(e & -> & _)|Hw]; [by simplify_eq/=|].
    unfold favorites_delete in Hw. injection Hw as -> Hdb3. simplify_eq/=.
    left. split; [|split; [done|]].
    + unfold favorites_select_single in Hd.
      destruct (favorites_of (userId user) title (db w)) as [|g l] eqn:E; [done|].
      apply dec_stable. intros Hn. apply favorites_of_nil in Hn. congruence.
    + by rewrite Hdb3, Hdb.
  - (* no single row: insert *)
    destruct (round_trip_spec (favorites_insert (row_of (userId user) title b)) w1)
      as (r2 & w3 & Hr2 & _ & _ & _ & Hw).
    rewrite Hr2 in Hrun.
    destruct Hw as [(e & -> & _)|Hw]; [by simplify_eq/=|].
    apply favorites_insert_inv in Hw as [(e & -> & _)|(_ & E & _ & -> & Hdb3)];
      [by simplify_eq/=|].
    simpl in E. rewrite Hdb in E. simplify_eq/=.
    right. split; [by apply favorites_of_nil|]. split; [done|].
    eexists. split; [|split]; [| |by rewrite Hdb3, Hdb]; done.
Qed.

(** C3. Toggling the same title twice in a row, both requests answering
    200 (so both store writes went through), leaves every user's favorite
    set as it was: the first toggle reports [added] when the title was
    absent and [removed] when it was present, and the second reports the
    opposite.  The other fields of the two request bodies need not agree,
    and the earlier reads may have failed. *)
Theorem toggle_twice_restores user b1 b2 w :
  songTitle b1 = songTitle b2 →
  succeeded (post_toggle user b1 w) →
  succeeded (post_toggle user b2 (post_toggle user b1 w).2) →
  (∀ u, favorite_set u (db (post_toggle user b2 (post_toggle user b1 w).2).2) =
        favorite_set u (db w)) ∧
  ∃ title, Js.truthy_value (songTitle b1) = Some title ∧
    (action_of (post_toggle user b1 w),
     action_of (post_toggle user b2 (post_toggle user b1 w).2)) =
    if bool_decide (title ∈ favorite_set (userId user) (db w))
    then (Some "removed", Some "added")
    else (Some "added", Some "removed").
Proof.
  intros Hsame Hok1 Hok2.
  destruct (toggle_step user b1 w Hok1) as (t & Ht & H1).
  destruct (toggle_step user b2 _ Hok2) as (t' & Ht' & H2).
  rewrite <- Hsame, Ht in Ht'. injection Ht' as <-.
  set (w1 := (post_toggle user b1 w).2) in *.
  set (w2 := (post_toggle user b2 w1).2) in *.
  destruct H1 as [(Hin & Ha1 & Hf1)|(Hout & Ha1 & row & Hu & Hti & Hf1)].
  - (* present: removed, then added back *)
    assert (Hgone : t ∉ favorite_set (userId user) (db w1)).
    { rewrite elem_of_favorite_set, Hf1. intros (f & Hf & ? & ?).
      apply list_elem_of_filter in Hf as [Hf _]. by apply Hf. }
    destruct H2 as [(Hin2 & _)|(_ & Ha2 & row & Hu & Hti & Hf2)]; [done|].
    split.
    + intros u. apply set_eq. intros x. rewrite !elem_of_favorite_set, Hf2, Hf1.
      apply elem_of_favorite_set in Hin as (f0 & Hf0 & Hu0 & Ht0).
      split.
      * intros (f & Hf & ? & ?). apply elem_of_app in Hf as [Hf|Hf].
        -- apply list_elem_of_filter in Hf as [_ Hf]. eauto.
        -- apply list_elem_of_singleton in Hf as ->. exists f0. split; [done|].
           split; congruence.
      * intros (f & Hf & Hfu & Hft).
        destruct (decide (fav_user_id f = userId user ∧ fav_song_title f = t))
          as [[? ?]|Hne].
        -- exists row. split; [apply elem_of_app; right; left|]. split; congruence.
        -- exists f. split; [|done]. apply elem_of_app. left.
           by apply list_elem_of_filter.
    + exists t. split; [done|]. rewrite bool_decide_true by done. by rewrite Ha1, Ha2.
  - (* absent: added, then removed again *)
    assert (Hthere : t ∈ favorite_set (userId user) (db w1)).
    { rewrite elem_of_favorite_set, Hf1. exists row. split; [|done].
      apply elem_of_app. right. left. }
    destruct H2 as [(_ & Ha2 & Hf2)|(Hout2 & _)]; [|done].
    split.
    + intros u. apply set_eq. intros x. rewrite !elem_of_favorite_set, Hf2, Hf1.
      split.
      * intros (f & Hf & ? & ?). apply list_elem_of_filter in Hf as [Hne Hf].
        apply elem_of_app in Hf as [Hf|Hf]; [eauto|].
        apply list_elem_of_singleton in Hf as ->. exfalso. by apply Hne.
      * intros (f & Hf & Hfu & Hft). exists f. split; [|done].
        apply list_elem_of_filter. split; [|apply elem_of_app; by left].
        intros [? ?]. apply Hout. apply elem_of_favorite_set. eauto.
    + exists t. split; [done|]. rewrite bool_decide_false by done. by rewrite Ha1, Ha2.
Qed.

(** C5. Add, when the store serves the request: a missing (or empty)
    [songTitle] is rejected with 400 "Song title is required"; a title the
    user already has a row for is rejected with 400 "Song already in
    favorites", found by the read before the insert, and nothing is
    written; otherwise, the values of the request fitting their columns
    (the title and the other texts free of zero characters, the title
    within 200 characters, album id and artist within 100) and the
    caller being an account, as it is behind the gate, exactly one row is
    appended, built from the request, and it is the row the reply
    returns. *)
Theorem add_favorite_outcomes user b w :
  healthy w → favorites_unique (db w) →
  match Js.truthy_value (songTitle b) with
  | None =>
      post_add user b w = (Value (json 400 (Error "Song title is required")), w)
  | Some title =>
      if bool_decide (title ∈ favorite_set (userId user) (db w)) then
        post_add user b w = (Value (json 400 (Error "Song already in favorites")), w)
      else
        favorite_refusal (row_of (userId user) title b) = None →
        userId user ∈ au_id <$> auth_users (db w) →
        let row := {| fav_id := next_uuid (db w); fav_user_id := userId user;
                      fav_song_title := title; fav_song_src := songSrc b;
                      fav_song_img := songImg b; fav_album_id := albumId b;
                      fav_album_cover := albumCover b; fav_artist := artist b;
                      fav_added_at := now (db w) |} in
        (post_add user b w).1 =
          Value (json 200 (FavoriteAdded "Song added to favorites successfully"
                                         (Some row))) ∧
        favorites (db (post_add user b w).2) = favorites (db w) ++ [row]
  end.
Proof.
  intros Hw Hu. unfold post_add.
  destruct (Js.truthy_value (songTitle b)) as [title|] eqn:Ht; [|done].
  unfold try_catch, mbind, M_bind. rewrite read_healthy by done.
  unfold favorites_select_single.
  case_bool_decide as Hin.
  - destruct (favorites_of_single _ _ _ Hu Hin) as [f ->]. done.
  - intros Hfit Hacc. apply favorites_of_nil in Hin. rewrite Hin. simpl.
    rewrite round_trip_healthy by done.
    by rewrite (favorites_insert_ok (row_of (userId user) title b) (db w) Hfit Hin Hacc).
Qed.

(** C8. Check always answers 200 with a boolean [isFavorite] and never
    throws.  When the lookup comes back with an error the answer is
    [false]: silently for PostgREST's "no single row" code PGRST116, and
    after a line on the console for any other error.  Without an error the
    answer says whether a row was found. *)
Theorem check_fails_open (user : ReqUser) (songTitle : option string) (w : World) :
  ∃ b, (Favorites.post_check user songTitle w).1 = Value (json 200 (IsFavorite b)) ∧
    ∀ title r, Js.truthy_value songTitle = Some title →
      (read (Store.favorites_select_single (userId user) title) w).1 = Value r →
      match error r with
      | Some e =>
          b = false ∧
          console (Favorites.post_check user songTitle w).2 =
            if bool_decide (code e = "PGRST116") then console w
            else console w ++ ["Error checking favorite:"]
      | None =>
          b = bool_decide (is_Some (data r)) ∧
          console (Favorites.post_check user songTitle w).2 = console w
      end.
Proof.
  destruct (Favorites.post_check user songTitle w) as [out w2] eqn:Hrun.
  unfold Favorites.post_check in Hrun.
  destruct (Js.truthy_value songTitle) as [title|] eqn:Ht.
  - destruct (read_spec (Store.favorites_select_single (userId user) title) w)
      as (r & w' & Hr & Hdb & Hc & Hcases).
    run_in Hrun. rewrite Hr in Hrun.
    assert (Hnd : ∀ e, error r = Some e → data r = None).
    { intros e He. destruct Hcases as [[e' ->]| ->]; [done|].
      by eapply single_error_no_data. }
    destruct (error r) as [e|] eqn:He.
    + rewrite (Hnd e eq_refl) in Hrun.
      case_bool_decide as Hcode; simplify_eq/=.
      * exists false. split; [done|]. intros ? r' [= <-]. rewrite Hr. intros [= <-].
        rewrite He. split; [done|]. rewrite bool_decide_false by done. by rewrite Hc.
      * exists false. split; [done|]. intros ? r' [= <-]. rewrite Hr. intros [= <-].
        rewrite He. split; [done|]. rewrite bool_decide_true by done. done.
    + simplify_eq/=. eexists. split; [done|]. intros ? r' [= <-]. rewrite Hr.
      intros [= <-]. rewrite He. done.
  - run_in Hrun. simplify_eq/=. exists false. split; [done|]. intros; discriminate.
Qed.

End favorites.

(** ** Playlists *)

Section order_by.
Context {A : Type} (le : A → A → bool).

Lemma insert_by_perm x l : Pg.insert_by le x l ≡ₚ x :: l.
Proof.
  induction l as [|y l IH]; simpl; [done|].
  destruct (le x y); [done|]. rewrite IH. apply Permutation_swap.
Qed.

Lemma order_by_perm l : Pg.order_by le l ≡ₚ l.
Proof.
  unfold Pg.order_by. induction l as [|x l IH]; simpl; [done|].
  by rewrite insert_by_perm, IH.
Qed.

Lemma elem_of_order_by x l : x ∈ Pg.order_by le l ↔ x ∈ l.
Proof. by rewrite order_by_perm. Qed.

End order_by.

Section songs_shown.
Import Store Playlists PlaylistFacts.

Lemma format_song_stored d l :
  l ⊆ playlist_songs d → Forall (shows_stored d) (format_song <$> l).
Proof.
  intros Hl. apply Forall_fmap, Forall_forall. intros row Hrow.
  exists row. split; [by apply Hl|done].
Qed.

Lemma playlist_songs_select_stored id d l :
  data (playlist_songs_select id d) = Some l → l ⊆ playlist_songs d.
Proof.
  intros [= <-] x Hx. apply elem_of_order_by in Hx.
  unfold songs_of in Hx. by apply list_elem_of_filter in Hx as [_ ?].
Qed.

Lemma read_songs_stored id w :
  ∃ r w', read (playlist_songs_select id) w = (Value r, w') ∧ db w' = db w ∧
    Forall (shows_stored (db w)) (format_song <$> default [] (data r)).
Proof.
  destruct (read_spec (playlist_songs_select id) w) as (r & w' & Hr & Hdb & _ & Hc).
  exists r, w'. split; [done|]. split; [done|].
  destruct Hc as [[e ->]| ->]; [by constructor|].
  apply format_song_stored. by eapply playlist_songs_select_stored.
Qed.

Lemma playlistsWithSongs_stored (l : list Playlist) w :
  ∃ ys w',
    mapM (λ playlist,
            songs ← read (playlist_songs_select (pl_id playlist));
            mret (format_playlist playlist, format_song <$> default [] (data songs)))
         l w = (Value ys, w') ∧
    db w' = db w ∧ Forall (shows_stored (db w)) (ys ≫= snd).
Proof.
  revert w. induction l as [|p l IH]; intros w; simpl.
  - exists [], w. repeat split. constructor.
  - destruct (read_songs_stored (pl_id p) w) as (r & w1 & Hr & Hdb1 & Hs).
    destruct (IH w1) as (ys & w2 & Hm & Hdb2 & Hys).
    unfold mbind at 1, M_bind at 1. unfold mbind at 1, M_bind at 1.
    rewrite Hr. simpl. unfold mbind at 1, M_bind at 1. rewrite Hm. simpl.
    eexists _, w2. split; [done|]. split; [congruence|].
    simpl. apply Forall_app. split; [done|]. by rewrite <- Hdb1.
Qed.

Lemma get_user_shows_stored user w r :
  reply_of (get_user user w) = Some r →
  Forall (shows_stored (db (get_user user w).2)) (songs_in (body r)).
Proof.
  destruct (get_user user w) as [out w2] eqn:Hrun.
  unfold get_user in Hrun.
  destruct (read_spec (playlists_of_user (userId user)) w)
    as (r1 & w1 & Hr1 & Hdb1 & _ & _).
  run_in Hrun. rewrite Hr1 in Hrun.
  destruct (error r1); [simplify_eq/=; intros [= <-]; constructor|].
  destruct (data r1) as [pls|]; [|simplify_eq/=; intros [= <-]; constructor].
  destruct (playlistsWithSongs_stored pls w1) as (ys & w3 & Hm & Hdb3 & Hys).
  unfold mbind, M_bind, mret, M_ret in Hm. rewrite Hm in Hrun.
  simplify_eq/=. intros [= <-]. simpl. by rewrite Hdb3.
Qed.

Lemma get_id_songs_shows_stored user id w r :
  reply_of (get_id_songs user id w) = Some r →
  Forall (shows_stored (db (get_id_songs user id w).2)) (songs_in (body r)).
Proof.
  destruct (get_id_songs user id w) as [out w2] eqn:Hrun.
  unfold get_id_songs in Hrun.
  destruct (read_spec (playlists_select_single id) w)
    as (r1 & w1 & Hr1 & Hdb1 & _ & _).
  run_in Hrun. rewrite Hr1 in Hrun.
  destruct (match data r1 with None => true | Some p => _ end);
    [simplify_eq/=; intros [= <-]; constructor|].
  destruct (read_songs_stored id w1) as (r2 & w3 & Hr2 & Hdb3 & Hs).
  rewrite Hr2 in Hrun.
  destruct (error r2); simplify_eq/=; intros [= <-]; [constructor|].
  simpl. by rewrite Hdb3.
Qed.

End songs_shown.

Section positions.
Import Store Playlists PlaylistFacts.

Lemma asc_total a b : Pg.asc a b = true ∨ Pg.asc b a = true.
Proof. destruct a, b; simpl; auto. rewrite !Z.leb_le. lia. Qed.

Lemma asc_trans a b c : Pg.asc a b = true → Pg.asc b c = true → Pg.asc a c = true.
Proof. destruct a, b, c; simpl; try done. rewrite !Z.leb_le. lia. Qed.

Lemma asc_refl a : Pg.asc a a = true.
Proof. destruct a; simpl; [|done]. apply Z.leb_refl. Qed.

(** Ordered by position descending, the first row holds a largest one. *)
Lemma order_by_desc_head (l : list (option Z)) :
  match Pg.order_by Pg.desc l with
  | [] => l = []
  | x :: _ => x ∈ l ∧ ∀ y, y ∈ l → Pg.asc y x = true
  end.
Proof.
  induction l as [|a l IH]; [done|].
  change (Pg.order_by Pg.desc (a :: l)) with (Pg.insert_by Pg.desc a (Pg.order_by Pg.desc l)).
  destruct (Pg.order_by Pg.desc l) as [|h t]; simpl.
  - subst l. split; [left|]. intros y ->%list_elem_of_singleton. apply asc_refl.
  - destruct IH as [Hh Hmax]. unfold Pg.desc at 1.
    destruct (Pg.asc h a) eqn:Hha.
    + split; [left|]. intros y [->|Hy]%elem_of_cons; [apply asc_refl|].
      eapply asc_trans; [by apply Hmax|done].
    + split; [by right|]. intros y [->|Hy]%elem_of_cons; [|by apply Hmax].
      destruct (asc_total a h); congruence.
Qed.

Lemma foldr_max_spec p ps :
  foldr Z.max p ps ∈ p :: ps ∧ ∀ y, y ∈ p :: ps → y ≤ foldr Z.max p ps.
Proof.
  induction ps as [|q ps [IHin IHmax]]; simpl.
  - split; [left|]. intros y ->%list_elem_of_singleton. lia.
  - split.
    + destruct (Z.max_spec q (foldr Z.max p ps)) as [[_ ->]|[_ ->]].
      * apply elem_of_cons in IHin as [->|?]; [left|by do 2 right].
      * right; left.
    + intros y Hy. assert (y = q ∨ y ∈ p :: ps) as [->|Hy'].
      { apply elem_of_cons in Hy as [->|Hy]; [right; left|].
        apply elem_of_cons in Hy as [->|Hy]; [by left|right; by right]. }
      * lia.
      * specialize (IHmax y Hy'). lia.
Qed.

Lemma positions_assigned_fmap id d :
  positions_assigned id d →
  ps_position <$> songs_of id d = Some <$> omap ps_position (songs_of id d).
Proof.
  unfold positions_assigned. induction (songs_of id d) as [|s l IH]; intros H; [done|].
  destruct (H s) as [p Hp]; [left|]. simpl. rewrite Hp. simpl. f_equal.
  apply IH. intros s' Hs'. apply H. by right.
Qed.

Lemma max_position_spec id d m :
  max_position id d = Some m →
  m ∈ omap ps_position (songs_of id d) ∧
  ∀ y, y ∈ omap ps_position (songs_of id d) → y ≤ m.
Proof.
  unfold max_position. destruct (omap ps_position (songs_of id d)) as [|p ps]; [done|].
  intros [= <-]. apply foldr_max_spec.
Qed.

(** Rows only enter [playlist_songs] with a position. *)
Lemma playlist_songs_insert_positions rows id d :
  positions_assigned id d → positions_assigned id (playlist_songs_insert rows d).2.
Proof.
  intros Hpos. unfold playlist_songs_insert.
  destruct (Pg.first_refusal _); [done|].
  destruct (mapM _ _) as [new|] eqn:Hnew; [|done].
  intros s Hs. unfold songs_of in Hs. simpl in Hs.
  apply list_elem_of_filter in Hs as [Hid Hs]. apply elem_of_app in Hs as [Hs|Hs].
  - apply Hpos. by apply list_elem_of_filter.
  - apply mapM_Some_1 in Hnew.
    apply list_elem_of_lookup_1 in Hs as [i Hi].
    destruct (Forall2_lookup_r _ _ _ _ _ Hnew Hi) as (o & Ho & Hos). simpl in Hos.
    rewrite list_lookup_imap in Ho.
    destruct (rows !! i) as [r|]; [|done]. injection Ho as <-.
    unfold new_playlist_song in Hos. destruct (new_song_title r); [|done].
    injection Hos as <-. by eexists.
Qed.

(** [nextPosition] is the position after the largest one, and 1 in an
    empty playlist. *)
Lemma next_position_first_free id d :
  positions_assigned id d →
  next_position (data (playlist_songs_top_position id d)) = first_free id d.
Proof.
  intros Hpos. unfold playlist_songs_top_position, first_free. simpl.
  rewrite (positions_assigned_fmap id d Hpos).
  pose proof (order_by_desc_head (Some <$> omap ps_position (songs_of id d))) as Hhead.
  pose proof (max_position_spec id d) as Hmax. unfold max_position in *.
  destruct (Pg.order_by Pg.desc _) as [|x t].
  - apply fmap_nil_inv in Hhead. rewrite Hhead. done.
  - destruct Hhead as [Hx Hge].
    apply list_elem_of_fmap in Hx as (m & -> & Hm).
    destruct (omap ps_position (songs_of id d)) as [|p ps] eqn:E;
      [by apply not_elem_of_nil in Hm|].
    destruct (Hmax _ eq_refl) as [Hin Hle].
    assert (m = foldr Z.max p ps) as <-.
    { apply Z.le_antisymm; [by apply Hle|].
      apply Z.leb_le. apply (Hge (Some (foldr Z.max p ps))).
      apply (list_elem_of_fmap_2 Some). done. }
    simpl. case_bool_decide; [done|]. lia.
Qed.

End positions.

Section add_songs.
Import Store Playlists PlaylistFacts.

Lemma filter_ext_elem {A} (P Q : A → Prop) `{∀ x, Decision (P x), ∀ x, Decision (Q x)}
    (l : list A) :
  (∀ x, x ∈ l → P x ↔ Q x) → filter P l = filter Q l.
Proof.
  induction l as [|x l IH]; intros HPQ; [done|].
  rewrite !filter_cons. rewrite IH by (intros y Hy; apply HPQ; by right).
  destruct (HPQ x) as [H1 H2]; [left|].
  repeat case_decide; tauto.
Qed.

(** The songs the handler keeps are the songs whose title no song of the
    playlist has. *)
Lemma kept_songs_new id d songs :
  Forall plainly_titled songs →
  filter (λ song,
            has (list_to_set (default []
                   (data (playlist_songs_titles_in id (title_of <$> songs) d))))
                (title_of song) = false) songs
  = new_songs id d songs.
Proof.
  intros Hplain. unfold new_songs. apply filter_ext_elem. intros song Hsong.
  unfold has, already_in. destruct (title_of song) as [t|] eqn:Ht; [|done].
  assert (Hne : Forall (λ x, x ≠ "") (default "undefined" <$> (title_of <$> songs))).
  { apply Forall_fmap, Forall_fmap. eapply Forall_impl; [exact Hplain|].
    intros x (u & Hx & Hu). simpl. rewrite Hx. simpl. by apply verbatim_not_empty. }
  assert ((t ∈ (list_to_set (default []
             (data (playlist_songs_titles_in id (title_of <$> songs) d))) : gset string))
          ↔ t ∈ ps_song_title <$> songs_of id d) as Hiff.
  { rewrite elem_of_list_to_set. simpl. rewrite !list_elem_of_fmap. unfold songs_of.
    split.
    - intros (s & -> & Hs). apply list_elem_of_filter in Hs as [[? ?] ?].
      exists s. split; [done|]. by apply list_elem_of_filter.
    - intros (s & -> & Hs). apply list_elem_of_filter in Hs as [? ?].
      exists s. split; [done|]. apply list_elem_of_filter. split; [|done].
      split; [done|]. apply in_list_elem; [done|].
      apply list_elem_of_fmap. exists (title_of song).
      split; [by rewrite Ht|]. by apply list_elem_of_fmap_2. }
  rewrite !bool_decide_eq_false. by rewrite Hiff.
Qed.

Lemma mapM_id_imap {A B} (f : nat → A → option B) (g : nat → A → B) (l : list A) :
  (∀ i x, l !! i = Some x → f i x = Some (g i x)) →
  mapM id (imap f l) = Some (imap g l).
Proof.
  revert f g. induction l as [|x l IH]; intros f g Hfg; [done|].
  simpl. rewrite (Hfg 0%nat x eq_refl). simpl.
  rewrite (IH (f ∘ S) (g ∘ S)) by (intros i y Hy; apply (Hfg (S i) y Hy)).
  done.
Qed.

Lemma imap_imap {A B C} (f : nat → B → C) (g : nat → A → B) (l : list A) :
  imap f (imap g l) = imap (λ i x, f i (g i x)) l.
Proof.
  revert f g. induction l as [|x l IH]; intros f g; [done|].
  simpl. f_equal. apply IH.
Qed.

Lemma plainly_titled_is_Some song : plainly_titled song → is_Some (title_of song).
Proof. intros (t & -> & _). by eexists. Qed.

(** The rows the handler sends fit their columns when the new songs and
    the positions they take do. *)
Lemma payload_fits d pid songs :
  Forall plainly_titled songs →
  Forall song_fits (new_songs pid d songs) →
  positions_fit (first_free pid d) (length (new_songs pid d songs)) →
  Pg.first_refusal
    (song_refusal <$>
       songsToAdd pid (first_free pid d)
         (list_to_set (default []
            (data (playlist_songs_titles_in pid (title_of <$> songs) d))))
         songs) = None.
Proof.
  intros Hplain Hfit [Hlo Hhi]. unfold songsToAdd. rewrite kept_songs_new by done.
  apply first_refusal_None, Forall_fmap, Forall_lookup. intros i row Hi.
  rewrite list_lookup_imap in Hi.
  destruct (new_songs pid d songs !! i) as [song|] eqn:Hs; [|done].
  injection Hi as <-.
  pose proof (lookup_lt_Some _ _ _ Hs) as Hlt.
  apply (Forall_lookup_1 _ _ _ _ Hfit) in Hs.
  unfold song_fits in Hs. apply first_refusal_None in Hs.
  unfold song_refusal. apply first_refusal_None.
  repeat (apply Forall_cons in Hs as [? Hs]).
  repeat (constructor; [assumption|]). constructor; [|done].
  lazy beta iota delta [new_position].
  unfold Pg.refusal_integer, Pg.integer.
  rewrite (proj2 (Z.leb_le _ _)) by lia. by rewrite (proj2 (Z.leb_le _ _)) by lia.
Qed.

Lemma insert_new_songs d pid songs :
  Forall plainly_titled songs →
  mapM id (imap (new_playlist_song d)
                (songsToAdd pid (first_free pid d)
                   (list_to_set (default []
                      (data (playlist_songs_titles_in pid (title_of <$> songs) d))))
                   songs))
  = Some (expected_rows d pid songs).
Proof.
  intros Htitled. unfold songsToAdd, expected_rows. rewrite kept_songs_new by done.
  rewrite imap_imap. apply mapM_id_imap. intros i song Hi.
  assert (is_Some (title_of song)) as [t Ht].
  { apply list_elem_of_lookup_2 in Hi. unfold new_songs in Hi.
    apply list_elem_of_filter in Hi as [_ Hi].
    by apply plainly_titled_is_Some, (proj1 (Forall_forall _ _) Htitled). }
  unfold new_playlist_song, expected_row. simpl. rewrite Ht. done.
Qed.

Lemma owned_select user pid d :
  owned user pid d →
  ∃ p, playlists_select_single pid d = ok p ∧ pl_user_id p = userId user.
Proof. intros (p & Hp & Hu). exists p. unfold playlists_select_single. by rewrite Hp. Qed.



End add_songs.

Section album_cover.
Import Store Playlists PlaylistFacts.

Lemma add_songs_shows_stored user pid songs w r :
  reply_of (post_id_songs_add user pid songs w) = Some r →
  Forall (shows_stored (db (post_id_songs_add user pid songs w).2)) (songs_in (body r)).
Proof.
  destruct (post_id_songs_add user pid songs w) as [out w2] eqn:Hrun.
  unfold post_id_songs_add in Hrun.
  destruct songs as [[|s0 songs0]|];
    [run_in Hrun; simplify_eq/=; intros [= <-]; constructor| |
     run_in Hrun; simplify_eq/=; intros [= <-]; constructor].
  set (songs := s0 :: songs0) in *.
  destruct (read_spec (playlists_select_single pid) w) as (r1 & w1 & Hr1 & _ & _ & _).
  unfold try_catch, mbind, M_bind in Hrun. rewrite Hr1 in Hrun.
  destruct (match data r1 with Some p => _ | None => true end);
    [simplify_eq/=; intros [= <-]; constructor|].
  destruct (read_spec (playlist_songs_top_position pid) w1)
    as (r2 & w3 & Hr2 & _ & _ & _).
  rewrite Hr2 in Hrun.
  destruct (read_spec (playlist_songs_titles_in pid (title_of <$> songs)) w3)
    as (r3 & w4 & Hr3 & _ & _ & _).
  rewrite Hr3 in Hrun.
  case_bool_decide; [simplify_eq/=; intros [= <-]; constructor|].
  match type of Hrun with
  | context [round_trip (playlist_songs_insert ?rows) _] =>
      destruct (round_trip_spec (playlist_songs_insert rows) w4)
        as (r4 & w5 & Hr4 & _ & _ & _ & Hins)
  end.
  rewrite Hr4 in Hrun.
  destruct Hins as [(e & -> & _)|Hins];
    [run_in Hrun; simplify_eq/=; intros [= <-]; constructor|].
  apply playlist_songs_insert_inv in Hins
    as [(e & -> & _)|(_ & new & _ & -> & Hdb)].
  - run_in Hrun. simplify_eq/=. intros [= <-]. constructor.
  - run_in Hrun. simplify_eq/=. intros [= <-]. simpl.
    apply format_song_stored. rewrite Hdb. simpl. intros x Hx.
    apply elem_of_app. by right.
Qed.

(** C10. In the three playlist-song listings (the playlists of a user
    with their songs, the songs of one playlist, the songs just added)
    every song shown is the rendering of a stored [playlist_songs] row,
    and its [albumCover] is that row's [song_img], the same value as its
    [img]: the rows have no album-cover column. *)
Theorem albumCover_is_song_img user pid songs w run r sv :
  run ∈ [get_user user w; get_id_songs user pid w; post_id_songs_add user pid songs w] →
  reply_of run = Some r →
  sv ∈ songs_in (body r) →
  sv_albumCover sv = sv_img sv ∧
  ∃ row, row ∈ playlist_songs (db run.2) ∧ sv = format_song row ∧
         sv_albumCover sv = ps_song_img row.
Proof.
  intros Hrun Hr Hsv.
  assert (Forall (shows_stored (db run.2)) (songs_in (body r))) as Hall.
  { apply elem_of_cons in Hrun as [->|Hrun]; [by apply get_user_shows_stored|].
    apply elem_of_cons in Hrun as [->|Hrun]; [by apply get_id_songs_shows_stored|].
    apply list_elem_of_singleton in Hrun as ->. by apply add_songs_shows_stored. }
  destruct (proj1 (Forall_forall _ _) Hall sv Hsv) as (row & Hrow & ->).
  split; [done|]. by exists row.
Qed.

End album_cover.

Section update.
Import Store Playlists PlaylistFacts.

Lemma filter_singleton_elem {A} (P : A → Prop) `{∀ x, Decision (P x)} (l : list A) a x :
  filter P l = [a] → x ∈ l → P x → x = a.
Proof.
  intros Hf Hx HP. assert (x ∈ filter P l) as Hin by by apply list_elem_of_filter.
  rewrite Hf in Hin. by apply list_elem_of_singleton in Hin.
Qed.

Lemma single_ok_inv {A} (rows : list A) p :
  data (Pg.single rows) = Some p → rows = [p].
Proof. destruct rows as [|? [|? ?]]; simpl; congruence. Qed.

(** C7. Update: a playlist that does not exist or is not the caller's
    gets the one answer 404 "Playlist not found", and nothing is written;
    a request that answers 200 has replaced the caller's playlist row by
    a row in which the fields present in the body are set ([name]
    trimmed), the fields absent from it are as before, and [updated_at]
    is the time of the request, every other row being untouched; and an
    owned playlist is updated whenever the store serves the request and
    the fields present fit their columns (texts without a zero
    character, the trimmed name within 200 characters). *)
Theorem update_playlist user pid b w :
  (¬ owned user pid (db w) →
     (put_id user pid b w).1 = Value (json 404 (Error "Playlist not found")) ∧
     db (put_id user pid b w).2 = db w) ∧
  (succeeded (put_id user pid b w) →
     ∃ old, filter (λ p, pl_id p = pid) (playlists (db w)) = [old] ∧
       pl_user_id old = userId user ∧
       let new :=
         {| pl_id := pl_id old; pl_user_id := pl_user_id old;
            pl_name := match name b with Some n => Js.trim n | None => pl_name old end;
            pl_description :=
              match description b with Some x => Some x | None => pl_description old end;
            pl_cover_image :=
              match coverImage b with Some x => Some x | None => pl_cover_image old end;
            pl_created_at := pl_created_at old;
            pl_updated_at := clock w |} in
       db (put_id user pid b w).2 =
         with_playlists
           ((λ q, if decide (pl_id q = pid) then new else q) <$> playlists (db w)) (db w) ∧
       reply_of (put_id user pid b w) =
         Some (json 200 (PlaylistUpdated "Playlist updated successfully"
                           (format_playlist new)))) ∧
  (healthy w → owned user pid (db w) → update_fits b →
     succeeded (put_id user pid b w)).
Proof.
  destruct (put_id user pid b w) as [out w2] eqn:Hrun.
  unfold put_id in Hrun.
  destruct (read_spec (playlists_select_single pid) w)
    as (r1 & w1 & Hr1 & Hdb1 & _ & Hc1).
  unfold try_catch, mbind, M_bind in Hrun. rewrite Hr1 in Hrun.
  split; [|split].
  - (* not found, or not the caller's *)
    intros Hnot.
    assert (match data r1 with
            | Some p => bool_decide (pl_user_id p ≠ userId user)
            | None => true
            end = true) as Hguard.
    { destruct (data r1) as [p|] eqn:Hd; [|done].
      destruct Hc1 as [[e ->]| ->]; [done|].
      apply single_ok_inv in Hd. apply bool_decide_eq_true. intros Hu.
      apply Hnot. by exists p. }
    rewrite Hguard in Hrun. simplify_eq/=. done.
  - (* a successful update *)
    intros Hok.
    destruct (data r1) as [old|] eqn:Hd; [|simplify_eq/=; by inversion Hok].
    case_bool_decide as Hu; [simplify_eq/=; by inversion Hok|].
    destruct Hc1 as [[e ->]| ->]; [done|].
    apply single_ok_inv in Hd.
    unfold Date_now in Hrun.
    match type of Hrun with
    | context [round_trip (playlists_update pid ?u) _] =>
        destruct (round_trip_spec (playlists_update pid u) w1)
          as (r2 & w3 & Hr2 & _ & _ & _ & Hupd)
    end.
    assert (Hclock : clock w1 = clock w).
    { pose proof (read_clock (playlists_select_single pid) w) as Hcl.
      by rewrite Hr1 in Hcl. }
    rewrite Hr2 in Hrun.
    destruct Hupd as [(e & -> & _)|Hupd]; [simplify_eq/=; by inversion Hok|].
    apply playlists_update_inv in Hupd
      as [(e & -> & _)|(_ & old' & Hold' & -> & Hdb3)];
      [simplify_eq/=; by inversion Hok|].
    rewrite Hdb1, Hd in Hold'. injection Hold' as <-. rewrite Hdb1 in Hdb3.
    simplify_eq/=.
    exists old. split; [done|]. split; [done|].
    assert (Hnew : apply_update
              {| set_name := Js.trim <$> name b; set_description := description b;
                 set_cover_image := coverImage b; set_updated_at := clock w1 |} old =
            {| pl_id := pl_id old; pl_user_id := pl_user_id old;
               pl_name := match name b with Some n => Js.trim n | None => pl_name old end;
               pl_description :=
                 match description b with Some x => Some x | None => pl_description old end;
               pl_cover_image :=
                 match coverImage b with Some x => Some x | None => pl_cover_image old end;
               pl_created_at := pl_created_at old;
               pl_updated_at := clock w |}).
    { unfold apply_update. simpl. rewrite Hclock. by destruct (name b). }
    rewrite <- Hnew. split; [|done].
    rewrite Hdb3. f_equal. apply list_fmap_ext. intros i q Hq.
    case_decide as Hid; [|done].
    apply list_elem_of_lookup_2 in Hq.
    by rewrite (filter_singleton_elem _ _ _ _ Hd Hq Hid).
  - (* an owned playlist, a store that serves *)
    intros Hw Hown Hfit. destruct (owned_select _ _ _ Hown) as (p & Hsel & Hu).
    rewrite read_healthy in Hr1 by done. injection Hr1 as <- <-.
    rewrite Hsel in Hrun. change (data (ok p)) with (Some p) in Hrun.
    lazy beta iota in Hrun.
    rewrite bool_decide_false in Hrun by (intros ?; congruence).
    unfold Date_now in Hrun. rewrite round_trip_healthy in Hrun by done.
    unfold playlists_update in Hrun.
    change (update_refusal _) with
      (Pg.first_refusal
         [ Pg.refusal_nullable (Pg.VARCHAR 200) (Js.trim <$> name b);
           Pg.refusal_nullable Pg.TEXT (description b);
           Pg.refusal_nullable Pg.TEXT (coverImage b) ]) in Hrun.
    unfold update_fits in Hfit. rewrite Hfit in Hrun.
    destruct Hown as (p' & Hp' & _). rewrite Hp' in Hrun.
    simplify_eq/=. done.
Qed.

End update.

(** ** The auth gate *)

Section gate.
Import Store AuthGate.

Lemma live_not_expired w p :
  live w p →
  match Jwt.exp p with
  | Some e => bool_decide (e ≠ 0) && bool_decide (e * 1000 < clock w)
  | None => false
  end = false.
Proof.
  intros Hlive. destruct (Jwt.exp p) as [e|] eqn:He; [|done].
  specialize (Hlive e He). apply andb_false_iff. right.
  apply bool_decide_eq_false.
  pose proof (Z.div_mod (clock w) 1000 ltac:(lia)).
  pose proof (Z.mod_pos_bound (clock w) 1000 ltac:(lia)). lia.
Qed.

Lemma verify_live w p :
  JWT_SECRET w ≠ "" → live w p →
  Jwt.verify (Jwt.Signed (JWT_SECRET w) p) (JWT_SECRET w) w = (Value p, w).
Proof.
  intros Hsecret Hlive. unfold Jwt.verify. rewrite bool_decide_false by done.
  rewrite bool_decide_false by (by intros ?).
  destruct (Jwt.exp p) as [e|] eqn:He; [|done].
  rewrite bool_decide_false; [done|]. specialize (Hlive e He). lia.
Qed.

(** C2, as the code has it.  With a secret configured (not empty), a
    token (the header not being empty) that fails verification is
    answered according to the check it fails: 403 "Invalid or expired token" when it is malformed, wrongly
    signed or expired; 401 "Invalid token: missing user ID" when it has
    no subject; 401 "Invalid token: user not found" when the Identity
    Provider does not know the subject. *)
Theorem gate_failure_signals w token cause :
  JWT_SECRET w ≠ "" →
  fails_with w token cause →
  (authenticateToken (Some token) w).1 = Value (inl (signal cause)).
Proof.
  intros Hsecret.
  unfold authenticateToken, try_catch, mbind, M_bind, env_JWT_SECRET, Date_now.
  destruct cause; simpl.
  - intros (raw & _ & ->). done.
  - intros (key & p & -> & Hkey). simpl. rewrite bool_decide_false by done.
    by rewrite bool_decide_true.
  - intros (p & e & -> & He & Hexp). simpl. rewrite bool_decide_false by done.
    rewrite bool_decide_false by (by intros ?). rewrite He.
    by rewrite bool_decide_true.
  - intros (p & -> & Hlive & Hsub). rewrite verify_live by done.
    rewrite live_not_expired by done. by rewrite Hsub.
  - intros (p & id & -> & Hlive & Hsub & Hid). rewrite verify_live by done.
    rewrite live_not_expired by done. rewrite Hsub.
    destruct (read_spec (auth_getUserById id) w) as (r & w' & -> & _ & _ & Hr).
    assert (error r ≠ None) as Herr.
    { destruct Hr as [[e ->]| ->]; [done|]. unfold auth_getUserById.
      destruct (filter _ _) as [|u l] eqn:E; [done|]. exfalso. apply Hid.
      assert (u ∈ filter (λ u, au_id u = id) (auth_users (db w))) as Hu
        by (rewrite E; left).
      apply list_elem_of_filter in Hu as [<- Hu]. by apply list_elem_of_fmap_2. }
    destruct (error r); [done|]. done.
Qed.

(** C2, as stated, fails: in one and the same state a malformed token is
    answered 403 "Invalid or expired token" and a well-signed token
    without a subject 401 "Invalid token: missing user ID". *)
Lemma gate_signals_differ :
  let w := Scenario.world Scenario.db_alice [] in
  fails_with w Scenario.token_malformed MalformedToken ∧
  fails_with w Scenario.token_without_subject MissingSubject ∧
  (authenticateToken (Some Scenario.token_malformed) w).1 =
    Value (inl (json 403 (Error "Invalid or expired token"))) ∧
  (authenticateToken (Some Scenario.token_without_subject) w).1 =
    Value (inl (json 401 (Error "Invalid token: missing user ID"))) ∧
  ¬ one_generic_signal w.
Proof.
  intros w.
  assert (H1 : fails_with w Scenario.token_malformed MalformedToken).
  { exists "not.a.token". by split. }
  assert (H2 : fails_with w Scenario.token_without_subject MissingSubject).
  { eexists. split; [done|]. split; [|done]. intros e [= <-]. by vm_compute. }
  split; [done|]. split; [done|]. split; [by vm_compute|]. split; [by vm_compute|].
  intros [generic Hg].
  pose proof (Hg _ _ H1) as G1. pose proof (Hg _ _ H2) as G2.
  vm_compute in G1, G2. congruence.
Qed.

(** The user name the gate attaches: the profile's, else the token's;
    when both are missing the gate does not reach the handler but
    answers 403. *)
Lemma gate_username_chain w p id u :
  healthy w → JWT_SECRET w ≠ "" → live w p → Jwt.userId p = Some id →
  auth_getUserById id (db w) = ok u →
  let name := Js.or (pr_username <$> data (profiles_select_single id (db w)))
                    (Jwt.username p) in
  authenticateToken (Some (Jwt.Signed (JWT_SECRET w) p)) w =
    match Js.truthy_value name with
    | Some n =>
        (Value (inr {| userId := au_id u; email := au_email u; username := n |}), w)
    | None => (Value (inl (json 403 (Error "Invalid or expired token"))), w)
    end.
Proof.
  intros Hw Hsecret Hlive Hsub Hu name.
  unfold authenticateToken, try_catch, mbind, M_bind, env_JWT_SECRET, Date_now.
  rewrite verify_live by done. rewrite live_not_expired by done. rewrite Hsub.
  rewrite !read_healthy by done. rewrite Hu.
  change (error (ok u)) with (@None ApiError). change (data (ok u)) with (Some u).
  lazy beta iota. rewrite read_healthy by done. fold name.
  by destruct (Js.truthy_value name).
Qed.

(** C6, at the failing request: a valid token that carries no user name,
    for an account that has no profile row, is refused with 403 "Invalid
    or expired token" instead of reaching the handler under the local
    part of the e-mail address. *)
Theorem gate_email_fallback_refused :
  let w := Scenario.world Scenario.db_alice [] in
  (∃ p, Jwt.verify Scenario.token_without_username (JWT_SECRET w) w = (Value p, w) ∧
        Jwt.username p = None) ∧
  auth_getUserById 7 (db w) = ok Scenario.alice_account ∧
  data (profiles_select_single 7 (db w)) = None ∧
  authenticateToken (Some Scenario.token_without_username) w =
    (Value (inl (json 403 (Error "Invalid or expired token"))), w).
Proof.
  intros w. split; [eexists; split; by vm_compute|].
  split; [by vm_compute|]. split; by vm_compute.
Qed.

(** The same account with a user name in the token passes the gate. *)
Example gate_token_username_passes :
  authenticateToken (Some Scenario.token_with_username)
                    (Scenario.world Scenario.db_alice []) =
    (Value (inr Scenario.alice), Scenario.world Scenario.db_alice []).
Proof. by vm_compute. Qed.

End gate.

(** ** Registration *)

Section registration.
Import Store Users.

(** A round trip consumes one planned outcome. *)
Lemma round_trip_plan {A} (q : Db → Response A * Db) (w : World) :
  ∃ r w', round_trip q w = (Value r, w') ∧ faults w' = tail (faults w) ∧
    ((∃ e, head (faults w) = Some (Some e) ∧ r = failed e ∧ db w' = db w) ∨
     ((∀ e, head (faults w) ≠ Some (Some e)) ∧ (r, db w') = q (db w))).
Proof.
  unfold round_trip. destruct (faults w) as [|[e|] plan] eqn:Hf; simpl.
  - destruct (q (db w)) as [r d]. eexists _, _. split; [done|]. simpl.
    split; [done|]. right. by split.
  - eexists _, _. split; [done|]. split; [done|]. left. by exists e.
  - destruct (q (db w)) as [r d]. eexists _, _. split; [done|]. simpl.
    split; [done|]. right. by split.
Qed.

Lemma head_tail3 {A} (l : list A) : head (tail (tail (tail l))) = l !! 3%nat.
Proof. by destruct l as [|? [|? [|? [|? ?]]]]. Qed.

Lemma unchanged_both_or_neither d id :
  fresh_ids d → (next_uuid d ≤ id)%nat → identity_exists id d ↔ profile_exists id d.
Proof. intros Hf Hid. destruct (Hf id Hid). tauto. Qed.

(** C9, as the code has it.  Provided the Identity Provider carries out
    the deletion the handler asks for when the profile insert has
    failed, a registration request leaves the identity it created and
    its profile row both present or both absent, whatever the outcome
    of the other round trips. *)
Theorem registration_both_or_neither b w :
  fresh_ids (db w) → deletion_served w → both_or_neither b w.
Proof.
  intros Hfresh Hserved. unfold both_or_neither.
  destruct (post_insert b w) as [out w'] eqn:Hrun. simpl.
  assert (Hsame : db w' = db w →
            identity_exists (next_uuid (db w)) (db w') ↔
            profile_exists (next_uuid (db w)) (db w')).
  { intros ->. by apply unchanged_both_or_neither. }
  unfold post_insert in Hrun.
  destruct (Js.truthy_value (username b)) as [username|];
    [|run_in Hrun; simplify_eq/=; by apply Hsame].
  destruct (Js.truthy_value (email b)) as [email|];
    [|run_in Hrun; simplify_eq/=; by apply Hsame].
  destruct (Js.truthy_value (password b)) as [password|];
    [|run_in Hrun; simplify_eq/=; by apply Hsame].
  destruct (Js.length password <? 8)%nat;
    [run_in Hrun; simplify_eq/=; by apply Hsame|].
  unfold try_catch, mbind, M_bind, read in Hrun.
  (* the user name lookup *)
  destruct (round_trip_plan (λ d, (profiles_select_single_username username d, d)) w)
    as (r1 & w1 & Hr1 & Hf1 & Hc1).
  rewrite Hr1 in Hrun.
  assert (Hdb1 : db w1 = db w).
  { destruct Hc1 as [(e & _ & _ & ?)|[_ Hq]]; [done|]. by injection Hq. }
  destruct (data r1); [run_in Hrun; simplify_eq/=; apply Hsame; congruence|].
  (* the account *)
  destruct (round_trip_plan (auth_createUser email password) w1)
    as (r2 & w2 & Hr2 & Hf2 & Hc2).
  rewrite Hr2 in Hrun.
  destruct Hc2 as [(e & _ & -> & Hdb2)|[_ Hq2]].
  { run_in Hrun. destruct (Js.includes _ _); simplify_eq/=; apply Hsame; congruence. }
  unfold auth_createUser in Hq2. injection Hq2 as -> Hdb2. rewrite Hdb1 in Hdb2.
  change (error (ok ?u)) with (@None ApiError) in Hrun.
  change (data (ok ?u)) with (Some u) in Hrun. lazy beta iota in Hrun.
  simpl au_id in Hrun. rewrite Hdb1 in Hrun.
  set (id := next_uuid (db w)) in *.
  (* the profile row *)
  destruct (round_trip_plan (profiles_insert id username) w2)
    as (r3 & w3 & Hr3 & Hf3 & Hc3).
  rewrite Hr3 in Hrun.
  assert (Hid2 : identity_exists id (db w2)).
  { unfold identity_exists. rewrite Hdb2. simpl. rewrite fmap_app.
    apply elem_of_app. right. left. }
  assert (Hnp2 : ¬ profile_exists id (db w2)).
  { unfold profile_exists. rewrite Hdb2. simpl. by apply (Hfresh id). }
  assert (Hins : (error r3 = None ∧ profile_exists id (db w3) ∧ identity_exists id (db w3))
                 ∨ (is_Some (error r3) ∧ db w3 = db w2)).
  { destruct Hc3 as [(e & _ & -> & ?)|[_ Hq3]]; [right; by split; [eexists|]|].
    apply profiles_insert_inv in Hq3
      as [(e & -> & ?)|(_ & _ & _ & _ & He & Hdb3)]; [right; by split; [eexists|]|].
    left. split; [done|]. unfold profile_exists, identity_exists. rewrite Hdb3. simpl.
    split; [|done]. rewrite fmap_app. apply elem_of_app. right. left. }
  destruct Hins as [(He & Hp3 & Hi3)|([e He] & Hdb3)]; rewrite He in Hrun.
  - run_in Hrun. simplify_eq/=. tauto.
  - (* the insert failed: the identity is deleted *)
    destruct (round_trip_plan (auth_deleteUser id) w3) as (r4 & w4 & Hr4 & Hf4 & Hc4).
    lazy beta iota in Hrun. simpl au_id in Hrun. rewrite ?Hdb1 in Hrun. fold id in Hrun.
    rewrite Hr4 in Hrun. run_in Hrun. simplify_eq/=.
    destruct Hc4 as [(e' & Hhead & _)|[_ Hq4]].
    { exfalso. rewrite Hf3, Hf2, Hf1, head_tail3 in Hhead. by apply (Hserved e'). }
    unfold auth_deleteUser in Hq4. rewrite Hdb3 in Hq4.
    rewrite bool_decide_true in Hq4 by done. injection Hq4 as _ Hdb4.
    unfold identity_exists, profile_exists. rewrite Hdb4. simpl.
    split; intros (x & Hx & Hin)%list_elem_of_fmap;
      apply list_elem_of_filter in Hin as [Hne _]; by destruct Hne.
Qed.

(** C9, as stated, fails: when the profile insert fails and the deletion
    of the new identity fails too, the request ends with 500 and leaves
    the identity without a profile row. *)
Lemma registration_orphan_identity :
  let w := Scenario.world Scenario.empty_db Scenario.registration_plan in
  fresh_ids (db w) ∧
  (post_insert Scenario.registration w).1 =
    Value (send 500 "500::Registration failed. Please try again.") ∧
  identity_exists 1 (db (post_insert Scenario.registration w).2) ∧
  ¬ profile_exists 1 (db (post_insert Scenario.registration w).2) ∧
  ¬ both_or_neither Scenario.registration w.
Proof.
  intros w.
  assert (Hi : identity_exists 1 (db (post_insert Scenario.registration w).2)).
  { unfold identity_exists. apply (bool_decide_unpack _). by vm_compute. }
  assert (Hp : ¬ profile_exists 1 (db (post_insert Scenario.registration w).2)).
  { unfold profile_exists. apply (bool_decide_unpack _). by vm_compute. }
  split.
  { intros id _. unfold identity_exists, profile_exists. simpl.
    split; apply not_elem_of_nil. }
  split; [by vm_compute|]. split; [done|]. split; [done|].
  unfold both_or_neither. change (next_uuid (db w)) with 1%nat. tauto.
Qed.

End registration.

(** ** Creating a playlist *)

Section create.
Import Store Playlists PlaylistFacts.

Lemma truthy_value_Some s v : Js.truthy_value s = Some v → s = Some v.
Proof. unfold Js.truthy_value. by destruct (Js.truthy s). Qed.

(** What create does when the store serves it, the fields fit their
    columns and the caller is an account: the trimmed name is used as an
    ILIKE pattern against the caller's playlists; exactly one match is a
    conflict, anything else inserts the playlist. *)
Lemma create_run user b w n :
  healthy w → Js.truthy_value (name b) = Some n → Js.trim n ≠ "" →
  create_fits b → userId user ∈ au_id <$> auth_users (db w) →
  let playlistName := Js.trim n in
  post_create user b w =
    match filter (λ p, pl_user_id p = userId user ∧
                       Pg.ilike (pl_name p) playlistName = true) (playlists (db w)) with
    | [_] => (Value (json 400 (Error (already_exists playlistName))), w)
    | _ =>
        let p := {| pl_id := next_uuid (db w); pl_user_id := userId user;
                    pl_name := playlistName;
                    pl_description := Js.or_null (description b);
                    pl_cover_image := Js.or_null (coverImage b);
                    pl_created_at := now (db w); pl_updated_at := now (db w) |} in
        (Value (json 200 (PlaylistCreated "Playlist created successfully"
                            (format_playlist p) [])),
         with_db (with_next_uuid (S (next_uuid (db w)))
                    (with_playlists (playlists (db w) ++ [p]) (db w))) w)
    end.
Proof.
  intros Hw Hn Htrim Hfit Hacc playlistName. unfold post_create. rewrite Hn.
  assert (Js.truthy (Some (Js.trim n)) = true) as ->.
  { simpl. by destruct (Js.trim n). }
  unfold try_catch, mbind, M_bind. change (negb true) with false.
  lazy beta iota zeta.
  rewrite read_healthy by done. unfold playlists_select_single_ilike.
  fold playlistName.
  unfold create_fits in Hfit. rewrite (truthy_value_Some _ _ Hn) in Hfit.
  assert (Hins := playlists_insert_ok
            {| new_user_id := userId user; new_name := playlistName;
               new_description := Js.or_null (description b);
               new_cover_image := Js.or_null (coverImage b) |} (db w) Hfit Hacc).
  destruct (filter _ (playlists (db w))) as [|p [|q l]];
    [|done|];
    change (data (Pg.single _)) with (@None Playlist); lazy beta iota;
    rewrite round_trip_healthy by done; by rewrite Hins.
Qed.

(** The playlists of other owners play no part: a name no playlist of
    the caller matches is accepted. *)
Lemma create_other_owner user b w n :
  healthy w → Js.truthy_value (name b) = Some n → Js.trim n ≠ "" →
  create_fits b → userId user ∈ au_id <$> auth_users (db w) →
  (∀ p, p ∈ playlists (db w) → pl_user_id p ≠ userId user) →
  succeeded (post_create user b w).
Proof.
  intros Hw Hn Htrim Hfit Hacc Hother. rewrite (create_run user b w n) by done.
  destruct (filter _ (playlists (db w))) as [|p l] eqn:E; [done|]. exfalso.
  assert (p ∈ filter (λ p, pl_user_id p = userId user ∧
                           Pg.ilike (pl_name p) (Js.trim n) = true) (playlists (db w)))
    as Hp by (rewrite E; left).
  apply list_elem_of_filter in Hp as [[Hu _] Hp]. by apply (Hother p).
Qed.

(** C4, at two failing requests.  With "Rock" as her only playlist,
    alice is refused the name "R_ck", which equals none of her names
    without regard to case.  And once she has both "Mix" and "mix" (by
    renaming), she is given a third playlist "MIX". *)
Theorem create_conflict_is_not_name_equality :
  (let w := Scenario.world Scenario.db_rock [] in
   Forall (λ p, Pg.same_name (pl_name p) "R_ck" = false) (playlists (db w)) ∧
   post_create Scenario.alice (Scenario.named "R_ck") w =
     (Value (json 400 (Error (already_exists "R_ck"))), w)) ∧
  (let w := Scenario.after_rename in
   pl_name <$> playlists (db w) = ["Mix"; "mix"] ∧
   Forall (λ p, pl_user_id p = userId Scenario.alice ∧
                Pg.same_name (pl_name p) "MIX" = true) (playlists (db w)) ∧
   succeeded (post_create Scenario.alice (Scenario.named "MIX") w) ∧
   pl_name <$> playlists (db (post_create Scenario.alice (Scenario.named "MIX") w).2) =
     ["Mix"; "mix"; "MIX"]).
Proof.
  split.
  - split; [|by vm_compute].
    apply (bool_decide_unpack _). by vm_compute.
  - split; [by vm_compute|]. split; [|split; by vm_compute].
    apply (bool_decide_unpack _). by vm_compute.
Qed.

End create.

(** ** The theorems at concrete requests *)

Section witnesses.
Import Store Scenario.

Lemma check_fails_open_witness :
  (Favorites.post_check alice (Some "Song A") (world db_favorite [Some unavailable])).1 =
    Value (json 200 (IsFavorite false)) ∧
  console (Favorites.post_check alice (Some "Song A")
             (world db_favorite [Some unavailable])).2 = ["Error checking favorite:"].
Proof.
  destruct (check_fails_open alice (Some "Song A") (world db_favorite [Some unavailable]))
    as (b & Hb & Hlog).
  destruct (Hlog "Song A" (failed unavailable) eq_refl eq_refl) as [-> Hc].
  split; [exact Hb|exact Hc].
Defined.

Lemma toggle_twice_restores_witness :
  let w := world db_favorite [] in
  let w1 := (Favorites.post_toggle alice (favorite_body "Song A") w).2 in
  let w2 := (Favorites.post_toggle alice (favorite_body "Song A") w1).2 in
  Favorites.favorite_set 7 (db w2) = Favorites.favorite_set 7 (db w) ∧
  action_of (Favorites.post_toggle alice (favorite_body "Song A") w) = Some "removed" ∧
  action_of (Favorites.post_toggle alice (favorite_body "Song A") w1) = Some "added".
Proof.
  intros w w1 w2.
  destruct (toggle_twice_restores alice (favorite_body "Song A") (favorite_body "Song A") w)
    as (Hset & t & Ht & Hact); [reflexivity|vm_compute; reflexivity|vm_compute; reflexivity|].
  split; [exact (Hset 7%nat)|].
  vm_compute in Ht. injection Ht as <-.
  rewrite bool_decide_true in Hact by (apply (bool_decide_unpack _); vm_compute; exact I).
  split; [exact (f_equal fst Hact)|exact (f_equal snd Hact)].
Defined.

Lemma add_favorite_outcomes_witness :
  let w := world db_favorite [] in
  healthy w ∧ favorites_unique (db w) ∧
  favorite_refusal (Favorites.row_of 7 "Song B" (favorite_body "Song B")) = None ∧
  7%nat ∈ au_id <$> auth_users (db w) ∧
  Favorites.post_add alice (favorite_body "Song A") w =
    (Value (json 400 (Error "Song already in favorites")), w) ∧
  length (favorites (db (Favorites.post_add alice (favorite_body "Song B") w).2)) = 2%nat.
Proof.
  intros w.
  assert (Hw : healthy w) by reflexivity.
  assert (Hu : favorites_unique (db w)).
  { apply (bool_decide_unpack _). vm_compute. exact I. }
  assert (Hfit : favorite_refusal (Favorites.row_of 7 "Song B" (favorite_body "Song B"))
                 = None) by (vm_compute; reflexivity).
  assert (Hacc : 7%nat ∈ au_id <$> auth_users (db w)) by left.
  split; [exact Hw|]. split; [exact Hu|]. split; [exact Hfit|]. split; [exact Hacc|].
  split.
  - pose proof (add_favorite_outcomes alice (favorite_body "Song A") w Hw Hu) as Ha.
    simpl in Ha. rewrite bool_decide_true in Ha
      by (apply (bool_decide_unpack _); vm_compute; exact I).
    exact Ha.
  - pose proof (add_favorite_outcomes alice (favorite_body "Song B") w Hw Hu) as Hb.
    simpl in Hb. rewrite bool_decide_false in Hb
      by (apply (bool_decide_unpack _); vm_compute; exact I).
    destruct (Hb Hfit Hacc) as [_ Hrows]. exact (f_equal length Hrows).
Defined.


Lemma update_playlist_witness :
  let w := world db_rock [] in
  let b := {| Playlists.name := Some (Utf8.bytes [194; 160]%nat +:+ " Jazz ");
              Playlists.description := None;
              Playlists.coverImage := Some "jazz.png" |} in
  healthy w ∧ PlaylistFacts.owned alice 20 (db w) ∧ ¬ PlaylistFacts.owned alice 99 (db w) ∧
  PlaylistFacts.update_fits b ∧
  (Playlists.put_id alice 99 b w).1 = Value (json 404 (Error "Playlist not found")) ∧
  succeeded (Playlists.put_id alice 20 b w) ∧
  playlists (db (Playlists.put_id alice 20 b w).2) =
    [ {| pl_id := 20; pl_user_id := 7; pl_name := "Jazz"; pl_description := None;
         pl_cover_image := Some "jazz.png"; pl_created_at := 1690000000000;
         pl_updated_at := 1700000000000 |} ].
Proof.
  intros w b.
  assert (H1 : healthy w) by reflexivity.
  assert (H2 : PlaylistFacts.owned alice 20 (db w)).
  { exists rock. split; reflexivity. }
  assert (H3 : ¬ PlaylistFacts.owned alice 99 (db w)).
  { intros (p & Hp & _). vm_compute in Hp. discriminate Hp. }
  assert (H4 : PlaylistFacts.update_fits b) by (vm_compute; reflexivity).
  repeat (split; [assumption|]).
  split; [exact (proj1 (proj1 (update_playlist alice 99 b w) H3))|].
  destruct (update_playlist alice 20 b w) as (_ & Hupd & Hok).
  specialize (Hok H1 H2 H4). split; [exact Hok|].
  destruct (Hupd Hok) as (old & Hold & _ & Hdb & _).
  vm_compute in Hold. injection Hold as <-.
  rewrite Hdb. vm_compute. reflexivity.
Defined.

Lemma albumCover_is_song_img_witness :
  let w := world db_rock_song [] in
  let run := Playlists.get_id_songs alice 20 w in
  let r := json 200 (SongList [Playlists.format_song song_a]) in
  let sv := Playlists.format_song song_a in
  run ∈ [Playlists.get_user alice w; run; Playlists.post_id_songs_add alice 20 None w] ∧
  reply_of run = Some r ∧ sv ∈ songs_in (body r) ∧
  sv_albumCover sv = sv_img sv ∧ sv_albumCover sv = Some "a.png".
Proof.
  intros w run r sv.
  assert (H1 : run ∈ [Playlists.get_user alice w; run;
                      Playlists.post_id_songs_add alice 20 None w])
    by (right; left).
  assert (H2 : reply_of run = Some r) by reflexivity.
  assert (H3 : sv ∈ songs_in (body r)) by left.
  repeat (split; [assumption|]).
  destruct (albumCover_is_song_img alice 20 None w run r sv H1 H2 H3) as [H _].
  split; [exact H|reflexivity].
Defined.

Lemma gate_failure_signals_witness :
  let w := world db_alice [] in
  JWT_SECRET w ≠ "" ∧
  AuthGate.fails_with w token_of_stranger AuthGate.SubjectNotFound ∧
  (AuthGate.authenticateToken (Some token_of_stranger) w).1 =
    Value (inl (json 401 (Error "Invalid token: user not found"))).
Proof.
  intros w.
  assert (Hsecret : JWT_SECRET w ≠ "") by discriminate.
  assert (H : AuthGate.fails_with w token_of_stranger AuthGate.SubjectNotFound).
  { eexists _, _. split; [reflexivity|]. split; [|split; [reflexivity|]].
    - intros e He. injection He as <-. vm_compute. reflexivity.
    - apply (bool_decide_unpack _). vm_compute. exact I. }
  split; [exact Hsecret|]. split; [exact H|].
  exact (gate_failure_signals w token_of_stranger AuthGate.SubjectNotFound Hsecret H).
Defined.

Lemma registration_both_or_neither_witness :
  let w := world empty_db [None; None; Some unavailable] in
  Users.fresh_ids (db w) ∧ Users.deletion_served w ∧
  Users.both_or_neither registration w ∧
  (Users.post_insert registration w).1 =
    Value (send 500 "500::Registration failed. Please try again.") ∧
  auth_users (db (Users.post_insert registration w).2) = [].
Proof.
  intros w.
  assert (H1 : Users.fresh_ids (db w)).
  { intros id _. unfold Users.identity_exists, Users.profile_exists. simpl.
    split; apply not_elem_of_nil. }
  assert (H2 : Users.deletion_served w).
  { intros e He. vm_compute in He. discriminate He. }
  split; [exact H1|]. split; [exact H2|].
  split; [exact (registration_both_or_neither registration w H1 H2)|].
  split; vm_compute; reflexivity.
Defined.

End witnesses.

(** * Further properties of the routers *)

(** ** The gate in front of a route *)

Section gate_more.
Import Store AuthGate.

Lemma read_keeps {A} (q : Db → Response A) (w : World) :
  db (read q w).2 = db w ∧ console (read q w).2 = console w ∧
  clock (read q w).2 = clock w ∧ JWT_SECRET (read q w).2 = JWT_SECRET w.
Proof. unfold read, round_trip. by destruct (faults w) as [|[e|] plan]. Qed.

Lemma verify_value token w p w' :
  Jwt.verify token (JWT_SECRET w) w = (Value p, w') →
  token = Jwt.Signed (JWT_SECRET w) p ∧ live w p ∧ w' = w.
Proof.
  unfold Jwt.verify. destruct token as [raw|key p0]; [done|].
  case_bool_decide as Hsecret; [done|].
  case_bool_decide as Hkey; [done|]. subst key.
  destruct (Jwt.exp p0) as [e|] eqn:He.
  - case_bool_decide as Hexp; [done|]. intros [= <- <-].
    split; [done|]. split; [|done]. intros e' He'. rewrite He in He'.
    injection He' as <-. lia.
  - intros [= <- <-]. split; [done|]. split; [|done]. intros e' He'. congruence.
Qed.

Lemma getUserById_found id d u :
  data (auth_getUserById id d) = Some u → u ∈ auth_users d ∧ au_id u = id.
Proof.
  unfold auth_getUserById. destruct (filter _ _) as [|u' l] eqn:E; [done|].
  intros [= <-]. assert (u' ∈ filter (λ u, au_id u = id) (auth_users d)) as Hu
    by (rewrite E; left).
  by apply list_elem_of_filter in Hu as [? ?].
Qed.

(** X1. The gate lets a request through only with a token signed with the
    server's secret, not expired, whose subject is an account of the
    Identity Provider; the identity it attaches has the subject as its id,
    the account's e-mail address and a non-empty user name.  The gate
    itself writes nothing. *)
Theorem gate_pass_sound authorization w user :
  (authenticateToken authorization w).1 = Value (inr user) →
  ∃ p account,
    authorization = Some (Jwt.Signed (JWT_SECRET w) p) ∧ live w p ∧
    Jwt.userId p = Some (userId user) ∧
    account ∈ auth_users (db w) ∧ au_id account = userId user ∧
    email user = au_email account ∧ username user ≠ "" ∧
    db (authenticateToken authorization w).2 = db w.
Proof.
  destruct (authenticateToken authorization w) as [out w2] eqn:Hrun. simpl.
  intros ->. unfold authenticateToken in Hrun.
  destruct authorization as [token|]; [|done].
  unfold try_catch, mbind, M_bind, env_JWT_SECRET, Date_now in Hrun.
  destruct (Jwt.verify token (JWT_SECRET w) w) as [[p|e] w1] eqn:Hv; [|done].
  apply verify_value in Hv as (-> & Hlive & ->).
  destruct (match Jwt.exp p with Some e => _ | None => false end); [done|].
  destruct (Jwt.userId p) as [id|] eqn:Hid; [|done].
  pose proof (read_spec (auth_getUserById id) w) as (r & w1 & Hr & Hdb1 & _ & Hc).
  rewrite Hr in Hrun.
  destruct (error r) eqn:He; [done|]. destruct (data r) as [u|] eqn:Hd; [|done].
  destruct Hc as [[e ->]| ->]; [done|].
  apply getUserById_found in Hd as [Hu Huid].
  pose proof (read_spec (profiles_select_single id) w1) as (r2 & w3 & Hr2 & Hdb3 & _ & _).
  rewrite Hr2 in Hrun.
  destruct (Js.truthy_value _) as [n|] eqn:Hn; [|done].
  run_in Hrun. injection Hrun as <- <-.
  exists p, u. simpl. repeat split; try done; try congruence.
  intros ->. unfold Js.truthy_value in Hn. destruct (Js.truthy _) eqn:Ht; [|done].
  rewrite Hn in Ht. done.
Qed.

(** The gate never throws and never writes, whatever it is given. *)
Lemma gate_keeps authorization w :
  (∃ r, (authenticateToken authorization w).1 = Value r) ∧
  db (authenticateToken authorization w).2 = db w ∧
  console (authenticateToken authorization w).2 = console w.
Proof.
  destruct (authenticateToken authorization w) as [out w2] eqn:Hrun. simpl.
  unfold authenticateToken in Hrun.
  destruct authorization as [token|]; [|injection Hrun as <- <-; eauto].
  unfold try_catch, mbind, M_bind, env_JWT_SECRET, Date_now in Hrun.
  destruct (Jwt.verify token (JWT_SECRET w) w) as [[p|e] w1] eqn:Hv.
  2:{ assert (w1 = w) as ->.
      { revert Hv. unfold Jwt.verify. destruct token; [by intros [= _ <-]|].
        repeat case_match; by intros [= _ <-]. }
      injection Hrun as <- <-. eauto. }
  apply verify_value in Hv as (-> & Hlive & ->).
  destruct (match Jwt.exp p with Some e => _ | None => false end);
    [injection Hrun as <- <-; eauto|].
  destruct (Jwt.userId p) as [id|] eqn:Hid; [|injection Hrun as <- <-; eauto].
  pose proof (read_spec (auth_getUserById id) w) as (r & w1 & Hr & Hdb1 & Hc1 & _).
  rewrite Hr in Hrun.
  destruct (error r) eqn:He; [injection Hrun as <- <-; eauto|].
  destruct (data r) as [u|] eqn:Hd; [|injection Hrun as <- <-; eauto].
  pose proof (read_spec (profiles_select_single id) w1) as (r2 & w3 & Hr2 & Hdb3 & Hc3 & _).
  rewrite Hr2 in Hrun.
  destruct (Js.truthy_value _) as [n|] eqn:Hn; run_in Hrun; injection Hrun as <- <-;
    (split; [eauto|split; congruence]).
Qed.

(** X2. A request the gate refuses never reaches the handler of a guarded
    route: the reply is the gate's, and neither the store nor the console
    has changed.  Without an authorization header the refusal is 401
    "Access token required" and no round trip is made. *)
Theorem guarded_refusal {A} authorization (handler : ReqUser → M A) w refusal :
  (authenticateToken authorization w).1 = Value (inl refusal) →
  (guarded authorization handler w).1 = Value (inl refusal) ∧
  db (guarded authorization handler w).2 = db w ∧
  console (guarded authorization handler w).2 = console w ∧
  (authorization = None →
     refusal = json 401 (Error "Access token required") ∧
     (guarded authorization handler w).2 = w).
Proof.
  intros Hgate. destruct (gate_keeps authorization w) as (_ & Hdb & Hcon).
  unfold guarded, mbind, M_bind.
  destruct (authenticateToken authorization w) as [out w2] eqn:Hrun. simpl in *.
  subst out. simpl. split; [done|]. split; [done|]. split; [done|].
  intros ->. by injection Hrun as <- <-.
Qed.

End gate_more.

(** ** What a handler can do to the store *)

Section steps.
Context {R : relation Db} `{!PreOrder R}.

Lemma steps_ret {A} (a : A) : steps R (mret a).
Proof. intros w. simpl. reflexivity. Qed.

Lemma steps_throw {A} e : steps R (@throw A e).
Proof. intros w. simpl. reflexivity. Qed.

Lemma steps_bind {A B} (m : M A) (f : A → M B) :
  steps R m → (∀ a, steps R (f a)) → steps R (m ≫= f).
Proof.
  intros Hm Hf w. unfold mbind, M_bind. specialize (Hm w).
  destruct (m w) as [[a|e] w1]; simpl in *; [|done].
  etrans; [exact Hm|apply Hf].
Qed.

Lemma steps_try_catch {A} (m : M A) (h : Exn → M A) :
  steps R m → (∀ e, steps R (h e)) → steps R (try_catch m h).
Proof.
  intros Hm Hh w. unfold try_catch. specialize (Hm w).
  destruct (m w) as [[a|e] w1]; simpl in *; [done|].
  etrans; [exact Hm|apply Hh].
Qed.

Lemma steps_console line : steps R (console_error line).
Proof. intros w. simpl. reflexivity. Qed.

Lemma steps_Date_now : steps R Date_now.
Proof. intros w. simpl. reflexivity. Qed.

Lemma steps_env : steps R env_JWT_SECRET.
Proof. intros w. simpl. reflexivity. Qed.

Lemma steps_round_trip {A} (q : Db → Response A * Db) :
  (∀ d, R d (q d).2) → steps R (round_trip q).
Proof.
  intros Hq w. unfold round_trip. specialize (Hq (db w)).
  destruct (faults w) as [|[e|] plan]; simpl; [|reflexivity|];
    by destruct (q (db w)).
Qed.

Lemma steps_read {A} (q : Db → Response A) : steps R (read q).
Proof. apply steps_round_trip. intros d. simpl. reflexivity. Qed.

End steps.

(** The shape of a handler decides what it can do: follow it. *)
Ltac steps_tac :=
  repeat first
    [ apply steps_ret | apply steps_throw | apply steps_console
    | apply steps_read | apply steps_Date_now | apply steps_env
    | apply steps_try_catch; [|intros ?]
    | apply steps_bind; [|intros ?]
    | case_match ].

(** ** Favorites: the remaining routes, and how the routes combine *)

Section favorites_more.
Import Store Favorites.

Lemma unique_kept_preorder : PreOrder unique_kept.
Proof.
  split; [intros d H; exact H|]. intros d1 d2 d3 H12 H23 H. by apply H23, H12.
Qed.

Lemma only_favorites_of_preorder u : PreOrder (only_favorites_of u).
Proof.
  split; [intros d; by repeat split|].
  intros d1 d2 d3 (?&?&?&?&?) (?&?&?&?&?). repeat split; congruence.
Qed.

#[local] Existing Instance unique_kept_preorder.
#[local] Existing Instance only_favorites_of_preorder.

Lemma favorites_insert_only row d :
  only_favorites_of (user_id row) d (favorites_insert row d).2.
Proof.
  unfold favorites_insert. destruct (favorite_refusal row); [done|].
  destruct (favorites_of _ _ d); [|done]. case_bool_decide as Hacc; [done|].
  repeat split. simpl. rewrite filter_app, filter_cons, filter_nil. simpl.
  rewrite decide_False by (by intros Hne; apply Hne). by rewrite app_nil_r.
Qed.

Lemma favorites_delete_only u t d :
  only_favorites_of u d (favorites_delete u t d).2.
Proof.
  repeat split. simpl. rewrite list_filter_filter. apply filter_ext_elem.
  intros f _. split; [tauto|]. intros Hne. split; [done|]. intros [? _]. done.
Qed.

Lemma favorites_writers_keep_unique user b songTitle :
  steps unique_kept (post_add user b) ∧ steps unique_kept (post_toggle user b) ∧
  steps unique_kept (delete_remove user songTitle).
Proof.
  assert (Hins : ∀ row d, unique_kept d (favorites_insert row d).2)
    by (intros row d ?; by apply favorites_insert_unique).
  assert (Hdel : ∀ u t d, unique_kept d (favorites_delete u t d).2)
    by (intros u t d ?; by apply favorites_delete_unique).
  split; [|split].
  - unfold post_add. steps_tac. by apply steps_round_trip.
  - unfold post_toggle. steps_tac; by apply steps_round_trip.
  - unfold delete_remove. steps_tac. by apply steps_round_trip.
Qed.

(** X3. The three writing routes keep [UNIQUE(user_id, song_title)]: from
    a state without two rows for one user and title, add, toggle and remove
    lead to such a state again, whatever the outcome of their round
    trips. *)
Theorem favorites_routes_keep_unique user b songTitle w :
  favorites_unique (db w) →
  favorites_unique (db (post_add user b w).2) ∧
  favorites_unique (db (post_toggle user b w).2) ∧
  favorites_unique (db (delete_remove user songTitle w).2).
Proof.
  intros Hu. destruct (favorites_writers_keep_unique user b songTitle) as (H1 & H2 & H3).
  split; [by apply H1|]. split; [by apply H2|by apply H3].
Qed.

(** X4. Add, toggle and remove, called by one user, leave the favorites of
    every other user, and all other tables, exactly as they were. *)
Theorem favorites_routes_touch_own_rows user b songTitle w :
  only_favorites_of (userId user) (db w) (db (post_add user b w).2) ∧
  only_favorites_of (userId user) (db w) (db (post_toggle user b w).2) ∧
  only_favorites_of (userId user) (db w) (db (delete_remove user songTitle w).2).
Proof.
  assert (H1 : steps (only_favorites_of (userId user)) (post_add user b)).
  { unfold post_add. steps_tac. apply steps_round_trip. intros d.
    apply (favorites_insert_only (row_of (userId user) _ b)). }
  assert (H2 : steps (only_favorites_of (userId user)) (post_toggle user b)).
  { unfold post_toggle. steps_tac; apply steps_round_trip; intros d.
    - apply favorites_delete_only.
    - apply (favorites_insert_only (row_of (userId user) _ b)). }
  assert (H3 : steps (only_favorites_of (userId user)) (delete_remove user songTitle)).
  { unfold delete_remove. steps_tac. apply steps_round_trip. intros d.
    apply favorites_delete_only. }
  split; [apply H1|]. split; [apply H2|apply H3].
Qed.

Lemma insert_by_sorted {A} (le : A → A → bool) x l :
  (∀ a b, le a b = true ∨ le b a = true) →
  (∀ a b c, le a b = true → le b c = true → le a c = true) →
  StronglySorted (λ a b, le a b = true) l →
  StronglySorted (λ a b, le a b = true) (Pg.insert_by le x l).
Proof.
  intros Htot Htrans. induction 1 as [|y l Hl IH Hy]; simpl.
  - repeat constructor.
  - destruct (le x y) eqn:Hxy.
    + constructor; [by constructor|]. constructor; [done|].
      eapply Forall_impl; [exact Hy|]. intros z Hz. by eapply Htrans.
    + constructor; [done|].
      assert (le y x = true) as Hyx by (destruct (Htot x y); congruence).
      apply Forall_forall. intros z Hz.
      rewrite (insert_by_perm le x l) in Hz.
      apply elem_of_cons in Hz as [->|Hz]; [done|].
      by apply (proj1 (Forall_forall _ _) Hy).
Qed.

(** [ORDER BY] by a total, transitive test gives a sorted list. *)
Lemma order_by_sorted {A} (le : A → A → bool) l :
  (∀ a b, le a b = true ∨ le b a = true) →
  (∀ a b c, le a b = true → le b c = true → le a c = true) →
  StronglySorted (λ a b, le a b = true) (Pg.order_by le l).
Proof.
  intros Htot Htrans. induction l as [|x l IH]; [constructor|].
  by apply insert_by_sorted.
Qed.

Lemma StronglySorted_weaken {A} (R1 R2 : A → A → Prop) l :
  (∀ a b, R1 a b → R2 a b) → StronglySorted R1 l → StronglySorted R2 l.
Proof.
  intros HR. induction 1 as [|x l Hl IH Hx]; constructor; [done|].
  eapply Forall_impl; [exact Hx|]. intros y. apply HR.
Qed.

(** X5. The list route shows exactly the caller's favorites, the most
    recently added first, and the count route counts the same rows. *)
Theorem favorites_list_and_count user w :
  healthy w →
  ∃ rows,
    (get_user user w).1 = Value (respond 200 (FavoriteList (format_favorite <$> rows))) ∧
    rows ≡ₚ filter (λ f, fav_user_id f = userId user) (favorites (db w)) ∧
    StronglySorted (λ a b, fav_added_at b ≤ fav_added_at a) rows ∧
    (get_count user w).1 = Value (respond 200 (Count (length rows))).
Proof.
  intros Hw.
  set (mine := filter (λ f, fav_user_id f = userId user) (favorites (db w))).
  exists (Pg.order_by (λ a b, fav_added_at b <=? fav_added_at a) mine).
  split; [|split; [|split]].
  - unfold get_user, try_catch, mbind, M_bind. by rewrite read_healthy.
  - apply order_by_perm.
  - eapply StronglySorted_weaken; [|apply order_by_sorted].
    + intros a b Hab. by apply Z.leb_le in Hab.
    + intros a b. rewrite !Z.leb_le. lia.
    + intros a b c. rewrite !Z.leb_le. lia.
  - unfold get_count, try_catch, mbind, M_bind. rewrite read_healthy by done.
    simpl. by rewrite order_by_perm.
Qed.


Lemma post_add_fresh user b title w :
  healthy w → Js.truthy_value (songTitle b) = Some title →
  favorites_of (userId user) title (db w) = [] →
  favorite_refusal (row_of (userId user) title b) = None →
  userId user ∈ au_id <$> auth_users (db w) →
  post_add user b w =
    (Value (json 200 (FavoriteAdded "Song added to favorites successfully"
                        (data (favorites_insert (row_of (userId user) title b) (db w)).1))),
     with_db (favorites_insert (row_of (userId user) title b) (db w)).2 w) ∧
  favorites (favorites_insert (row_of (userId user) title b) (db w)).2 =
    favorites (db w) ++
    [{| fav_id := next_uuid (db w); fav_user_id := userId user;
        fav_song_title := title; fav_song_src := songSrc b;
        fav_song_img := songImg b; fav_album_id := albumId b;
        fav_album_cover := albumCover b; fav_artist := artist b;
        fav_added_at := now (db w) |}].
Proof.
  intros Hw Ht Hnone Hfit Hacc.
  pose proof (favorites_insert_ok (row_of (userId user) title b) (db w) Hfit Hnone Hacc)
    as Hins.
  split.
  - unfold post_add, try_catch, mbind, M_bind. rewrite Ht.
    rewrite read_healthy by done. unfold favorites_select_single. rewrite Hnone.
    simpl. rewrite round_trip_healthy by done. by rewrite Hins.
  - by rewrite Hins.
Qed.

Lemma post_add_present user b title f w :
  healthy w → Js.truthy_value (songTitle b) = Some title →
  favorites_of (userId user) title (db w) = [f] →
  post_add user b w = (Value (json 400 (Error "Song already in favorites")), w).
Proof.
  intros Hw Ht Hone. unfold post_add, try_catch, mbind, M_bind. rewrite Ht.
  rewrite read_healthy by done. unfold favorites_select_single. by rewrite Hone.
Qed.

(** X7. Adding a title that was not a favorite, the store serving the
    requests, the values of the request fitting their columns and the
    caller being an account, succeeds; afterwards check answers [true],
    the count has grown by exactly one, and adding the title again is
    refused with 400 "Song already in favorites". *)
Theorem add_then_check_count_add user b title w :
  healthy w → favorites_unique (db w) →
  Js.truthy_value (songTitle b) = Some title →
  (title ∉ favorite_set (userId user) (db w)) →
  favorite_refusal (row_of (userId user) title b) = None →
  userId user ∈ au_id <$> auth_users (db w) →
  let w1 := (post_add user b w).2 in
  succeeded (post_add user b w) ∧
  (post_check user (songTitle b) w1).1 = Value (json 200 (IsFavorite true)) ∧
  (∃ n, (get_count user w).1 = Value (respond 200 (Count n)) ∧
        (get_count user w1).1 = Value (respond 200 (Count (S n)))) ∧
  post_add user b w1 = (Value (json 400 (Error "Song already in favorites")), w1).
Proof.
  intros Hw Hu Ht Hnew Hfit Hacc w1.
  apply favorites_of_nil in Hnew.
  destruct (post_add_fresh user b title w Hw Ht Hnew Hfit Hacc) as [Hrun Hrows].
  assert (Hw1 : healthy w1) by (unfold w1; by rewrite Hrun).
  assert (Hdb1 : favorites (db w1) = favorites (db w) ++
            [{| fav_id := next_uuid (db w); fav_user_id := userId user;
                fav_song_title := title; fav_song_src := songSrc b;
                fav_song_img := songImg b; fav_album_id := albumId b;
                fav_album_cover := albumCover b; fav_artist := artist b;
                fav_added_at := now (db w) |}])
    by (unfold w1; by rewrite Hrun).
  assert (Hin : title ∈ favorite_set (userId user) (db w1)).
  { apply elem_of_favorite_set.
    match type of Hdb1 with _ = _ ++ [?r] => exists r end.
    rewrite Hdb1. split; [|done]. apply elem_of_app. right. left. }
  assert (Hu1 : favorites_unique (db w1)).
  { destruct (favorites_writers_keep_unique user b None) as (H1 & _). by apply H1. }
  destruct (favorites_of_single _ _ _ Hu1 Hin) as [f Hf].
  split; [by rewrite Hrun|]. split; [|split].
  - unfold post_check, try_catch, mbind, M_bind. rewrite Ht.
    rewrite read_healthy by done. unfold favorites_select_single. by rewrite Hf.
  - exists (length (filter (λ f, fav_user_id f = userId user) (favorites (db w)))).
    unfold get_count, try_catch, mbind, M_bind. rewrite !read_healthy by done.
    split; [done|]. simpl. rewrite Hdb1, filter_app, length_app.
    rewrite filter_cons, decide_True by done. simpl. do 4 f_equal. lia.
  - by eapply post_add_present.
Qed.

End favorites_more.

(** ** Playlists: the remaining routes, and how the routes combine *)

Section playlists_more.
Import Store Playlists PlaylistFacts.

(** The ownership test of every playlist route turns away whoever does
    not own the playlist, also when the lookup fails. *)
Lemma not_owned_turned_away user pid w :
  ¬ owned user pid (db w) →
  ∃ r w1, read (playlists_select_single pid) w = (Value r, w1) ∧ db w1 = db w ∧
    match data r with
    | Some p => bool_decide (pl_user_id p ≠ userId user)
    | None => true
    end = true.
Proof.
  intros Hnot.
  destruct (read_spec (playlists_select_single pid) w) as (r & w1 & Hr & Hdb & _ & Hc).
  exists r, w1. split; [done|]. split; [done|].
  destruct (data r) as [p|] eqn:Hd; [|done].
  destruct Hc as [[e ->]| ->]; [done|].
  apply single_ok_inv in Hd. apply bool_decide_eq_true. intros Hu.
  apply Hnot. by exists p.
Qed.

(** X8. Whoever does not own a playlist (or names one that does not
    exist) cannot read or change it: deleting it, listing its songs,
    adding songs, removing one song or several never answers 200 and
    leaves the store as it was, whatever the round trips do. *)
Theorem not_owner_changes_nothing user pid songs songTitle songTitles w :
  ¬ owned user pid (db w) →
  (¬ answered 200 (delete_id user pid w) ∧ db (delete_id user pid w).2 = db w) ∧
  (¬ succeeded (get_id_songs user pid w) ∧ db (get_id_songs user pid w).2 = db w) ∧
  (¬ succeeded (post_id_songs_add user pid songs w) ∧
   db (post_id_songs_add user pid songs w).2 = db w) ∧
  (¬ answered 200 (delete_id_songs_remove user pid songTitle w) ∧
   db (delete_id_songs_remove user pid songTitle w).2 = db w) ∧
  (¬ answered 200 (delete_id_songs_remove_multiple user pid songTitles w) ∧
   db (delete_id_songs_remove_multiple user pid songTitles w).2 = db w).
Proof.
  intros Hnot.
  destruct (not_owned_turned_away user pid w Hnot) as (r & w1 & Hr & Hdb & Hguard).
  split; [|split; [|split; [|split]]].
  - unfold delete_id, try_catch, mbind, M_bind. rewrite Hr, Hguard. by split.
  - unfold get_id_songs, try_catch, mbind, M_bind. rewrite Hr, Hguard. by split.
  - unfold post_id_songs_add.
    destruct songs as [[|s0 songs0]|]; [by split| |by split].
    unfold try_catch, mbind, M_bind. rewrite Hr, Hguard. by split.
  - unfold delete_id_songs_remove.
    destruct (Js.truthy_value songTitle); [|by split].
    unfold try_catch, mbind, M_bind. rewrite Hr, Hguard. by split.
  - unfold delete_id_songs_remove_multiple.
    destruct songTitles as [[|t0 titles0]|]; [by split| |by split].
    unfold try_catch, mbind, M_bind. rewrite Hr, Hguard. by split.
Qed.


(** X9. Deleting an owned playlist, when the store serves the request,
    removes the playlist and, by the cascade, all its songs, and nothing
    else; from then on listing its songs answers 404 "Playlist not
    found". *)
Theorem delete_playlist_cascades user pid w :
  healthy w → owned user pid (db w) →
  let run := delete_id user pid w in
  run.1 = Value (respond 200 (Message "Playlist deleted successfully")) ∧
  playlists (db run.2) = filter (λ p, pl_id p ≠ pid) (playlists (db w)) ∧
  playlist_songs (db run.2) =
    filter (λ s, ps_playlist_id s ≠ pid) (playlist_songs (db w)) ∧
  favorites (db run.2) = favorites (db w) ∧
  get_id_songs user pid run.2 = (Value (json 404 (Error "Playlist not found")), run.2).
Proof.
  intros Hw Hown run.
  destruct (owned_select _ _ _ Hown) as (p & Hsel & Hu).
  destruct Hown as (p' & Hp' & _).
  assert (Hrun : run =
            (Value (respond 200 (Message "Playlist deleted successfully")),
             with_db (with_playlists (filter (λ p, pl_id p ≠ pid) (playlists (db w)))
                        (with_playlist_songs
                           (filter (λ s, ps_playlist_id s ≠ pid) (playlist_songs (db w)))
                           (db w))) w)).
  { unfold run, delete_id, try_catch, mbind, M_bind. rewrite read_healthy by done.
    rewrite Hsel. change (data (ok p)) with (Some p). lazy beta iota.
    rewrite bool_decide_false by (intros ?; congruence).
    rewrite round_trip_healthy by done. unfold playlists_delete. by rewrite Hp'. }
  rewrite Hrun. simpl. repeat (split; [done|]).
  unfold get_id_songs, try_catch, mbind, M_bind. rewrite read_healthy by done.
  unfold playlists_select_single. simpl.
  assert (filter (λ p, pl_id p = pid) (filter (λ p, pl_id p ≠ pid) (playlists (db w))) = [])
    as ->; [|done].
  destruct (filter _ (filter _ _)) as [|q l] eqn:E; [done|]. exfalso.
  assert (Hq : q ∈ q :: l) by left. rewrite <- E in Hq.
  apply list_elem_of_filter in Hq as [Hid Hq].
  by apply list_elem_of_filter in Hq as [Hne _].
Qed.




Lemma add_songs_run user pid songs w :
  healthy w → owned user pid (db w) → positions_assigned pid (db w) →
  Forall plainly_titled songs →
  new_songs pid (db w) songs ≠ [] →
  Forall song_fits (new_songs pid (db w) songs) →
  positions_fit (first_free pid (db w)) (length (new_songs pid (db w) songs)) →
  post_id_songs_add user pid (Some songs) w =
    (Value (json 200 (SongsAdded (added_message (length (expected_rows (db w) pid songs)))
                                 (format_song <$> expected_rows (db w) pid songs))),
     with_db (with_next_uuid
                (next_uuid (db w) +
                 length (songsToAdd pid (first_free pid (db w))
                   (list_to_set (default [] (data
                      (playlist_songs_titles_in pid (title_of <$> songs) (db w)))))
                   songs))%nat
                (with_playlist_songs
                   (playlist_songs (db w) ++ expected_rows (db w) pid songs) (db w)))
             w).
Proof.
  intros Hw Hown Hpos Htitled Hnew Hfit Hint.
  destruct songs as [|s0 songs0]; [done|].
  unfold post_id_songs_add. lazy beta iota.
  set (songs := s0 :: songs0) in *.
  destruct (owned_select _ _ _ Hown) as (p & Hsel & Hu).
  unfold try_catch, mbind, M_bind. rewrite read_healthy by done. rewrite Hsel.
  change (data (ok p)) with (Some p). lazy beta iota.
  rewrite bool_decide_false by (intros ?; congruence).
  rewrite !read_healthy by done. lazy beta iota.
  rewrite next_position_first_free by done.
  rewrite bool_decide_false.
  2:{ unfold songsToAdd. rewrite length_imap, kept_songs_new by done.
      by destruct (new_songs pid (db w) songs). }
  rewrite round_trip_healthy by done.
  unfold playlist_songs_insert. rewrite payload_fits by done.
  rewrite insert_new_songs by done. done.
Qed.

Lemma add_songs_all_present user pid s0 songs0 w :
  healthy w → owned user pid (db w) →
  Forall plainly_titled (s0 :: songs0) →
  new_songs pid (db w) (s0 :: songs0) = [] →
  post_id_songs_add user pid (Some (s0 :: songs0)) w =
    (Value (json 400 (Error "All songs are already in the playlist")), w).
Proof.
  intros Hw Hown Htitled Hnone.
  unfold post_id_songs_add. lazy beta iota.
  set (songs := s0 :: songs0) in *.
  destruct (owned_select _ _ _ Hown) as (p & Hsel & Hu).
  unfold try_catch, mbind, M_bind. rewrite read_healthy by done. rewrite Hsel.
  change (data (ok p)) with (Some p). lazy beta iota.
  rewrite bool_decide_false by (intros ?; congruence).
  rewrite !read_healthy by done. lazy beta iota.
  rewrite bool_decide_true; [done|].
  unfold songsToAdd. rewrite length_imap, kept_songs_new by done. by rewrite Hnone.
Qed.

(** X12. Add-songs is idempotent on titles: when the store serves the
    requests, every song of the batch has a title that the list of the
    title filter carries as it is (not empty, free of commas,
    parentheses, double quotes and backslashes, not beginning or ending
    with a blank), the values of the new songs fit their columns (title
    within 200 characters, album id and artist within 100, no zero
    character) and the positions they take are values of an INTEGER
    column, the batch is added, and submitting it again answers 400
    "All songs are already in the playlist" and writes nothing. *)
Theorem add_songs_again user pid songs w :
  healthy w → owned user pid (db w) → positions_assigned pid (db w) →
  Forall plainly_titled songs →
  new_songs pid (db w) songs ≠ [] →
  Forall song_fits (new_songs pid (db w) songs) →
  positions_fit (first_free pid (db w)) (length (new_songs pid (db w) songs)) →
  let w1 := (post_id_songs_add user pid (Some songs) w).2 in
  succeeded (post_id_songs_add user pid (Some songs) w) ∧
  post_id_songs_add user pid (Some songs) w1 =
    (Value (json 400 (Error "All songs are already in the playlist")), w1).
Proof.
  intros Hw Hown Hpos Htitled Hnew Hfit Hint w1.
  pose proof (add_songs_run user pid songs w Hw Hown Hpos Htitled Hnew Hfit Hint) as Hrun.
  split; [by rewrite Hrun|].
  assert (Hsongs1 : playlist_songs (db w1) =
                    playlist_songs (db w) ++ expected_rows (db w) pid songs)
    by (unfold w1; by rewrite Hrun).
  assert (Hpl1 : playlists (db w1) = playlists (db w)) by (unfold w1; by rewrite Hrun).
  assert (Hw1 : healthy w1) by (unfold w1; by rewrite Hrun).
  assert (Hown1 : owned user pid (db w1)) by (unfold owned; by rewrite Hpl1).
  destruct songs as [|s0 songs0]; [done|].
  apply add_songs_all_present; [done..|].
  unfold new_songs.
  destruct (filter _ (s0 :: songs0)) as [|s l] eqn:E; [done|]. exfalso.
  assert (Hs : s ∈ s :: l) by left. rewrite <- E in Hs.
  apply list_elem_of_filter in Hs as [Hout Hs].
  destruct (proj1 (Forall_forall _ _) Htitled s Hs) as (t & Ht & _).
  unfold already_in in Hout. rewrite Ht in Hout. apply bool_decide_eq_false in Hout.
  apply Hout. unfold songs_of. rewrite Hsongs1, filter_app, fmap_app.
  apply elem_of_app.
  destruct (already_in pid (db w) s) eqn:Hwas.
  - left. unfold already_in in Hwas. rewrite Ht in Hwas.
    by apply bool_decide_eq_true in Hwas.
  - right. assert (s ∈ new_songs pid (db w) (s0 :: songs0)) as Hnews
      by (by apply list_elem_of_filter).
    apply list_elem_of_lookup_1 in Hnews as [i Hi].
    apply list_elem_of_fmap. exists (expected_row (db w) pid i s).
    split; [simpl; by rewrite Ht|].
    apply list_elem_of_filter. split; [done|].
    unfold expected_rows. by apply elem_of_lookup_imap_2.
Qed.

Lemma asc_antisym a b : Pg.asc a b = true → Pg.asc b a = true → a = b.
Proof. destruct a, b; simpl; try done. rewrite !Z.leb_le. intros. f_equal. lia. Qed.

Lemma by_position_total a b :
  by_position_then_recent a b = true ∨ by_position_then_recent b a = true.
Proof.
  unfold by_position_then_recent. repeat case_decide; try congruence.
  - rewrite !Z.leb_le. lia.
  - apply asc_total.
Qed.

Lemma by_position_trans a b c :
  by_position_then_recent a b = true → by_position_then_recent b c = true →
  by_position_then_recent a c = true.
Proof.
  unfold by_position_then_recent.
  destruct (decide (ps_position a = ps_position b)) as [Hab|Hab],
           (decide (ps_position b = ps_position c)) as [Hbc|Hbc],
           (decide (ps_position a = ps_position c)) as [Hac|Hac];
    try congruence.
  - rewrite !Z.leb_le. lia.
  - intros H1 H2. exfalso. apply Hab. apply asc_antisym; [done|]. congruence.
  - apply asc_trans.
Qed.

(** X13. Listing the songs of an owned playlist, when the store serves the
    request, shows exactly the rows of that playlist, by ascending
    position (rows without one last) and, at equal position, the most
    recently added first. *)
Theorem songs_listed_in_order user pid w :
  healthy w → owned user pid (db w) →
  ∃ rows,
    (get_id_songs user pid w).1 = Value (json 200 (SongList (format_song <$> rows))) ∧
    rows ≡ₚ songs_of pid (db w) ∧
    StronglySorted (λ a b, by_position_then_recent a b = true) rows ∧
    StronglySorted (λ a b, Pg.asc (ps_position a) (ps_position b) = true) rows.
Proof.
  intros Hw Hown. destruct (owned_select _ _ _ Hown) as (p & Hsel & Hu).
  exists (Pg.order_by by_position_then_recent (songs_of pid (db w))).
  assert (Hsorted : StronglySorted (λ a b, by_position_then_recent a b = true)
                      (Pg.order_by by_position_then_recent (songs_of pid (db w)))).
  { apply order_by_sorted; [apply by_position_total|apply by_position_trans]. }
  split; [|split; [apply order_by_perm|split; [done|]]].
  - unfold get_id_songs, try_catch, mbind, M_bind. rewrite read_healthy by done.
    rewrite Hsel. change (data (ok p)) with (Some p). lazy beta iota.
    rewrite bool_decide_false by (intros ?; congruence).
    by rewrite read_healthy.
  - eapply StronglySorted_weaken; [|exact Hsorted].
    intros a b. unfold by_position_then_recent. case_decide as Heq; [|done].
    intros _. rewrite Heq. apply asc_refl.
Qed.

Lemma songs_appended_preorder : PreOrder songs_appended.
Proof.
  split.
  - intros d. repeat split. exists []. by rewrite app_nil_r.
  - intros d1 d2 d3 (?&?&?&?&n1&Happ1&F1) (?&?&?&?&n2&Happ2&F2).
    repeat split; try congruence. exists (n1 ++ n2).
    rewrite Happ2, Happ1, app_assoc. split; [done|]. by apply Forall_app.
Qed.

#[local] Existing Instance songs_appended_preorder.

Lemma playlist_songs_insert_appends rows d :
  songs_appended d (playlist_songs_insert rows d).2.
Proof.
  unfold playlist_songs_insert. destruct (Pg.first_refusal _); [reflexivity|].
  destruct (mapM _ _) as [new|] eqn:Hnew; [|reflexivity].
  repeat split. exists new. split; [done|].
  apply mapM_Some_1 in Hnew. apply Forall_forall. intros s Hs.
  apply list_elem_of_lookup_1 in Hs as [i Hi].
  destruct (Forall2_lookup_r _ _ _ _ _ Hnew Hi) as (o & Ho & Hos). simpl in Hos.
  rewrite list_lookup_imap in Ho. destruct (rows !! i) as [r|]; [|done].
  injection Ho as <-. unfold new_playlist_song in Hos.
  destruct (new_song_title r); [|done]. injection Hos as <-. by eexists.
Qed.

(** X14. Add-songs only ever appends: whatever the request and the outcome
    of its round trips, the rows that were in [playlist_songs] are still
    there, unchanged and in place, the rows after them all have a
    position, and no other table has changed. *)
Theorem add_songs_only_appends user pid songs w :
  songs_appended (db w) (db (post_id_songs_add user pid songs w).2).
Proof.
  assert (Hs : steps songs_appended (post_id_songs_add user pid songs)).
  { unfold post_id_songs_add. steps_tac; apply steps_round_trip;
      apply playlist_songs_insert_appends. }
  apply Hs.
Qed.

End playlists_more.

(** ** Registration, sign-in and the gate *)

Section users_more.
Import Store Users AuthGate.

Lemma filter_key_unique {A B} `{EqDecision B} (f : A → B) (l : list A) x :
  NoDup (f <$> l) → x ∈ l → filter (λ y, f y = f x) l = [x].
Proof.
  induction l as [|y l IH]; [by intros _ ?%not_elem_of_nil|].
  rewrite fmap_cons, NoDup_cons. intros [Hy Hl] Hx. rewrite filter_cons.
  apply elem_of_cons in Hx as [->|Hx].
  - rewrite decide_True by done. f_equal.
    destruct (filter _ l) as [|z l'] eqn:E; [done|]. exfalso. apply Hy.
    assert (Hz : z ∈ z :: l') by left. rewrite <- E in Hz.
    apply list_elem_of_filter in Hz as [<- Hz]. by apply list_elem_of_fmap_2.
  - rewrite decide_False; [by apply IH|].
    intros Heq. apply Hy. rewrite Heq. by apply list_elem_of_fmap_2.
Qed.

Lemma filter_none {A} (P : A → Prop) `{∀ x, Decision (P x)} (l : list A) :
  (∀ x, x ∈ l → ¬ P x) → filter P l = [].
Proof.
  intros Hno. destruct (filter P l) as [|z l'] eqn:E; [done|]. exfalso.
  assert (Hz : z ∈ z :: l') by left. rewrite <- E in Hz.
  apply list_elem_of_filter in Hz as [? ?]. by eapply Hno.
Qed.

(** A registration answered with 200 has passed the three checks of the
    handler, and both writes went through. *)
Lemma register_succeeded b w :
  succeeded (post_insert b w) →
  ∃ u e pw,
    Js.truthy_value (username b) = Some u ∧ Js.truthy_value (email b) = Some e ∧
    Js.truthy_value (password b) = Some pw ∧ (8 ≤ Js.length pw)%nat ∧
    (u ∉ pr_username <$> user_profiles (db w)) ∧
    (next_uuid (db w) ∉ pr_id <$> user_profiles (db w)) ∧
    JWT_SECRET (post_insert b w).2 = JWT_SECRET w ∧
    db (post_insert b w).2 =
      with_user_profiles
        (user_profiles (db w) ++ [{| pr_id := next_uuid (db w); pr_username := u |}])
        (with_next_uuid (S (next_uuid (db w)))
           (with_auth_users
              (auth_users (db w) ++
               [{| au_id := next_uuid (db w); au_email := e; au_password := pw |}])
              (db w))).
Proof.
  destruct (post_insert b w) as [out w'] eqn:Hrun. unfold succeeded, reply_of. simpl.
  unfold post_insert in Hrun.
  destruct (Js.truthy_value (username b)) as [u|];
    [|run_in Hrun; by simplify_eq/=].
  destruct (Js.truthy_value (email b)) as [e|];
    [|run_in Hrun; by simplify_eq/=].
  destruct (Js.truthy_value (password b)) as [pw|];
    [|run_in Hrun; by simplify_eq/=].
  destruct (Js.length pw <? 8)%nat eqn:Hlen;
    [run_in Hrun; by simplify_eq/=|].
  apply Nat.ltb_ge in Hlen.
  unfold try_catch, mbind, M_bind in Hrun.
  destruct (read_spec (profiles_select_single_username u) w)
    as (r1 & w1 & Hr1 & Hdb1 & _ & _).
  pose proof (read_keeps (profiles_select_single_username u) w) as (_ & _ & _ & Hs1).
  rewrite Hr1 in Hrun, Hs1. simpl in Hs1.
  destruct (data r1); [run_in Hrun; by simplify_eq/=|].
  destruct (round_trip_spec (auth_createUser e pw) w1)
    as (r2 & w2 & Hr2 & _ & _ & Hs2 & Hc2).
  rewrite Hr2 in Hrun.
  destruct Hc2 as [(e2 & -> & Hdb2)|Hq2].
  { run_in Hrun. destruct (Js.includes _ _); by simplify_eq/=. }
  unfold auth_createUser in Hq2. injection Hq2 as -> Hdb2. rewrite Hdb1 in Hdb2.
  change (error (ok ?a)) with (@None ApiError) in Hrun.
  change (data (ok ?a)) with (Some a) in Hrun. lazy beta iota in Hrun.
  simpl au_id in Hrun. rewrite Hdb1 in Hrun.
  destruct (round_trip_spec (profiles_insert (next_uuid (db w)) u) w2)
    as (r3 & w3 & Hr3 & _ & _ & Hs3 & Hc3).
  rewrite Hr3 in Hrun.
  destruct Hc3 as [(e3 & -> & Hdb3)|Hq3].
  { run_in Hrun. destruct (round_trip _ _) as [[?|?] ?]; by simplify_eq/=. }
  apply profiles_insert_inv in Hq3
    as [(e3 & -> & Hdb3)|(_ & Hpk & _ & Huniq & He3 & Hdb3)].
  { run_in Hrun. destruct (round_trip _ _) as [[?|?] ?]; by simplify_eq/=. }
  rewrite He3 in Hrun. run_in Hrun. injection Hrun as <- <-. intros _.
  rewrite Hdb2 in Hpk, Huniq, Hdb3. simpl in Hpk, Huniq.
  exists u, e, pw. repeat (split; [done|]). split; [congruence|]. exact Hdb3.
Qed.

(** X15. A registration answered with 200, for a user name that fits the
    column ([VARCHAR(50)], no zero character), has created one account
    and one profile row with that user name under the account's id, both
    at the end of their tables; when the store serves the next request,
    registering the user name again (all fields given, a password of at
    least 8 UTF-16 units) is refused with 400 "Username already exists."
    and creates nothing. *)
Theorem register_then_again b b' u w :
  Js.truthy_value (username b) = Some u →
  Pg.refusal (Pg.VARCHAR 50) u = None →
  succeeded (post_insert b w) →
  let w1 := (post_insert b w).2 in
  (∃ account,
     auth_users (db w1) = auth_users (db w) ++ [account] ∧
     user_profiles (db w1) =
       user_profiles (db w) ++ [{| pr_id := au_id account; pr_username := u |}]) ∧
  (healthy w1 →
   Js.truthy_value (username b') = Some u → is_Some (Js.truthy_value (email b')) →
   (∃ pw', Js.truthy_value (password b') = Some pw' ∧ (8 ≤ Js.length pw')%nat) →
   post_insert b' w1 = (Value (send 400 "400::Username already exists."), w1)).
Proof.
  intros Hu _ Hok w1.
  destruct (register_succeeded b w Hok)
    as (u0 & e & pw & Hu0 & _ & _ & _ & Hfree & _ & _ & Hdb).
  rewrite Hu in Hu0. injection Hu0 as <-. fold w1 in Hdb. split.
  - exists {| au_id := next_uuid (db w); au_email := e; au_password := pw |}.
    by rewrite Hdb.
  - intros Hw1 Hu' [e' He'] (pw' & Hpw' & Hlen').
    unfold post_insert. rewrite Hu', He', Hpw'.
    rewrite (proj2 (Nat.ltb_ge _ _)) by done.
    unfold try_catch, mbind, M_bind. rewrite read_healthy by done.
    unfold profiles_select_single_username. rewrite Hdb. simpl.
    rewrite filter_app, filter_none.
    2:{ intros p Hp Heq. apply Hfree. rewrite <- Heq. by apply list_elem_of_fmap_2. }
    rewrite filter_cons, decide_True by done. done.
Qed.

Lemma signIn_found e pw d u :
  data (auth_signInWithPassword e pw d) = Some u →
  u ∈ auth_users d ∧ au_email u = e ∧ au_password u = pw.
Proof.
  unfold auth_signInWithPassword. destruct (filter _ _) as [|u' l] eqn:E; [done|].
  intros [= <-]. assert (Hu : u' ∈ u' :: l) by left. rewrite <- E in Hu.
  apply list_elem_of_filter in Hu as [[? ?] ?]. done.
Qed.

Lemma signin_run expiresIn email password e pw u w :
  healthy w → JWT_SECRET w ≠ "" →
  Js.truthy_value email = Some e → Js.truthy_value password = Some pw →
  auth_signInWithPassword e pw (db w) = ok u →
  post_signin expiresIn email password w =
    (Value (respond 200 (TextToken "200::" (issued_token expiresIn e u w))), w).
Proof.
  intros Hw Hsecret He Hpw Hu. unfold post_signin. rewrite He, Hpw.
  unfold try_catch, mbind, M_bind, env_JWT_SECRET, Jwt.sign.
  rewrite read_healthy by done. rewrite Hu.
  change (error (ok u)) with (@None ApiError). change (data (ok u)) with (Some u).
  lazy beta iota. rewrite read_healthy by done.
  by rewrite bool_decide_false by done.
Qed.

(** X16. Sign-in hands out a token only for credentials the Identity
    Provider accepts: a reply with status 200 means that an account with
    this e-mail address and password exists, and the token is signed with
    the server's secret, names that account as its subject, carries the
    account's address and expires [expiresIn] seconds later.  Sign-in
    writes nothing. *)
Theorem signin_sound expiresIn email password w :
  answered 200 (post_signin expiresIn email password w) →
  ∃ e pw u prefix p,
    Js.truthy_value email = Some e ∧ Js.truthy_value password = Some pw ∧
    u ∈ auth_users (db w) ∧ au_email u = e ∧ au_password u = pw ∧
    (post_signin expiresIn email password w).1 =
      Value (respond 200 (TextToken prefix (Jwt.Signed (JWT_SECRET w) p))) ∧
    Jwt.userId p = Some (au_id u) ∧ Jwt.email p = Some (au_email u) ∧
    Jwt.exp p = Some (clock w `div` 1000 + expiresIn) ∧
    db (post_signin expiresIn email password w).2 = db w.
Proof.
  destruct (post_signin expiresIn email password w) as [out w2] eqn:Hrun.
  unfold post_signin in Hrun.
  destruct (Js.truthy_value email) as [e|];
    [|run_in Hrun; injection Hrun as <- <-; by intros ?].
  destruct (Js.truthy_value password) as [pw|];
    [|run_in Hrun; injection Hrun as <- <-; by intros ?].
  unfold try_catch, mbind, M_bind, env_JWT_SECRET, Jwt.sign in Hrun.
  destruct (read_spec (auth_signInWithPassword e pw) w) as (r & w1 & Hr & Hdb & _ & Hc).
  pose proof (read_keeps (auth_signInWithPassword e pw) w) as (_ & _ & Hcl & Hsec).
  rewrite Hr in Hrun, Hcl, Hsec. simpl in Hcl, Hsec.
  destruct (error r); [injection Hrun as <- <-; by intros ?|].
  destruct (data r) as [u|] eqn:Hd; [|injection Hrun as <- <-; by intros ?].
  destruct Hc as [[e' ->]| ->]; [done|].
  apply signIn_found in Hd as (Hu & Hue & Hup).
  destruct (read_spec (profiles_select_single (au_id u)) w1)
    as (r2 & w3 & Hr2 & Hdb3 & _ & _).
  pose proof (read_keeps (profiles_select_single (au_id u)) w1) as (_ & _ & Hcl3 & Hsec3).
  rewrite Hr2 in Hrun, Hcl3, Hsec3. simpl in Hcl3, Hsec3.
  case_bool_decide as Hsecret; [run_in Hrun; injection Hrun as <- <-; by intros ?|].
  injection Hrun as <- <-. intros _.
  eexists e, pw, u, _, _. simpl.
  repeat (split; [done|]). split; [by rewrite Hsec3, Hsec|].
  split; [done|]. split; [done|]. split; [by rewrite Hcl3, Hcl|]. congruence.
Qed.

(** X17. The token of a sign-in opens the gate: presented in the same
    state to a store that serves the requests (the secret being
    configured, the life time positive and the user name not empty), it
    passes, and the identity
    attached is the account that signed in, under the user name the token
    carries. *)
Theorem signin_token_passes_gate expiresIn email password e pw u n w :
  healthy w → JWT_SECRET w ≠ "" → accounts_unique (db w) → 0 < expiresIn →
  Js.truthy_value email = Some e → Js.truthy_value password = Some pw →
  auth_signInWithPassword e pw (db w) = ok u →
  Js.truthy_value
    (Js.or (pr_username <$> data (profiles_select_single (au_id u) (db w)))
           (Some (Js.split_head "@" e))) = Some n →
  (post_signin expiresIn email password w).1 =
    Value (respond 200 (TextToken "200::" (issued_token expiresIn e u w))) ∧
  authenticateToken (Some (issued_token expiresIn e u w)) w =
    (Value (inr (Build_ReqUser (au_id u) (au_email u) n)), w).
Proof.
  intros Hw Hsecret Huniq Hpos He Hpw Hu Hn.
  split; [by rewrite (signin_run expiresIn email password e pw u w)|].
  assert (Hin : u ∈ auth_users (db w)).
  { assert (data (auth_signInWithPassword e pw (db w)) = Some u) as Hd by (by rewrite Hu).
    by apply signIn_found in Hd as (? & _). }
  assert (Hget : auth_getUserById (au_id u) (db w) = ok u).
  { unfold auth_getUserById. by rewrite (filter_key_unique au_id _ u Huniq Hin). }
  unfold issued_token.
  rewrite (gate_username_chain w _ (au_id u) u Hw Hsecret); [| |done|done].
  2:{ intros x [= <-]. lia. }
  simpl.
  set (P := pr_username <$> data (profiles_select_single (au_id u) (db w))) in *.
  assert (Js.or P (Js.or P (Some (Js.split_head "@" e))) =
          Js.or P (Some (Js.split_head "@" e))) as ->.
  { unfold Js.or. by destruct (Js.truthy P) eqn:HP; rewrite ?HP. }
  by rewrite Hn.
Qed.

(** X18. Registration, sign-in and the gate fit together: after a
    registration answered with 200, for a user name that fits the column
    ([VARCHAR(50)], no zero character) and an address no account had,
    when the store serves the requests that follow (the secret being
    configured and the life time positive), signing in with the
    registered address and password answers 200 with a token, and that
    token passes the gate as the new account under the registered user
    name. *)
Theorem register_signin_gate expiresIn b u e w :
  JWT_SECRET w ≠ "" → 0 < expiresIn → fresh_ids (db w) →
  Js.truthy_value (username b) = Some u → Pg.refusal (Pg.VARCHAR 50) u = None →
  Js.truthy_value (email b) = Some e → (e ∉ au_email <$> auth_users (db w)) →
  succeeded (post_insert b w) →
  let w1 := (post_insert b w).2 in
  healthy w1 →
  ∃ token account,
    auth_users (db w1) = auth_users (db w) ++ [account] ∧
    post_signin expiresIn (email b) (password b) w1 =
      (Value (respond 200 (TextToken "200::" token)), w1) ∧
    authenticateToken (Some token) w1 =
      (Value (inr (Build_ReqUser (au_id account) (au_email account) u)), w1).
Proof.
  intros Hsecret Hpos Hfresh Hu _ He Hmail Hok w1 Hw1.
  destruct (register_succeeded b w Hok)
    as (u0 & e0 & pw & Hu0 & He0 & Hpw & _ & _ & Hnp & Hs1 & Hdb).
  rewrite Hu in Hu0. injection Hu0 as <-. rewrite He in He0. injection He0 as <-.
  fold w1 in Hdb, Hs1.
  assert (Hsecret1 : JWT_SECRET w1 ≠ "") by (by rewrite Hs1).
  set (account := {| au_id := next_uuid (db w); au_email := e; au_password := pw |}).
  destruct (Hfresh (next_uuid (db w))) as [Hna _]; [lia|].
  assert (Hin : auth_signInWithPassword e pw (db w1) = ok account).
  { unfold auth_signInWithPassword. rewrite Hdb. simpl. rewrite filter_app, filter_none.
    2:{ intros a Ha [Hae _]. apply Hmail. rewrite <- Hae. by apply list_elem_of_fmap_2. }
    by rewrite filter_cons, decide_True. }
  assert (Hget : auth_getUserById (au_id account) (db w1) = ok account).
  { unfold auth_getUserById. rewrite Hdb. simpl. rewrite filter_app, filter_none.
    2:{ intros a Ha Hid. apply Hna. unfold identity_exists. rewrite <- Hid.
        by apply list_elem_of_fmap_2. }
    by rewrite filter_cons, decide_True. }
  assert (Hprofile : profiles_select_single (au_id account) (db w1) =
                     ok {| pr_id := next_uuid (db w); pr_username := u |}).
  { unfold profiles_select_single. rewrite Hdb. simpl. rewrite filter_app, filter_none.
    2:{ intros q Hq Hid. apply Hnp. rewrite <- Hid. by apply list_elem_of_fmap_2. }
    by rewrite filter_cons, decide_True. }
  assert (Hname : Js.truthy_value (Some u) = Some u).
  { unfold Js.truthy_value in Hu |- *. destruct (Js.truthy (username b)) eqn:Ht; [|done].
    rewrite Hu in Ht. by rewrite Ht. }
  exists (issued_token expiresIn e account w1), account.
  split; [by rewrite Hdb|]. split.
  - exact (signin_run expiresIn (email b) (password b) e pw account w1
             Hw1 Hsecret1 He Hpw Hin).
  - unfold issued_token.
    rewrite (gate_username_chain w1 _ (au_id account) account Hw1 Hsecret1);
      [| |done|done].
    2:{ unfold live. simpl. intros x [= <-]. lia. }
    cbv zeta. rewrite !Hprofile.
    change (pr_username <$> data (ok _)) with (Some u).
    assert (Js.truthy (Some u) = true) as Ht.
    { unfold Js.truthy_value in Hname. by destruct (Js.truthy (Some u)). }
    unfold Js.or. rewrite Ht. by rewrite Hname.
Qed.

(** *** The user name route *)

Lemma to_uint_not_nil i : Nat.to_uint i ≠ Decimal.Nil.
Proof.
  intros E. pose proof (DecimalNat.Unsigned.of_to i) as H. rewrite E in H.
  simpl in H. subst i. discriminate E.
Qed.

Lemma of_nat_inj i j : Js.of_nat i = Js.of_nat j → i = j.
Proof.
  unfold Js.of_nat. intros H. apply (f_equal NilZero.uint_of_string) in H.
  rewrite !NilZero.usu in H by apply to_uint_not_nil.
  injection H as H. by apply DecimalNat.Unsigned.to_uint_inj.
Qed.

Lemma append_inv_head (a x y : string) : a +:+ x = a +:+ y → x = y.
Proof. induction a as [|c a IH]; simpl; [done|]. intros [= H]. auto. Qed.

Lemma append_not_self (a : string) c x : a ≠ a +:+ String c x.
Proof. induction a as [|d a IH]; simpl; [done|]. intros [= H]. auto. Qed.

Lemma candidate_inj defaultUsername i j :
  candidate defaultUsername i = candidate defaultUsername j → i = j.
Proof.
  destruct i as [|i], j as [|j]; simpl; [done| | |].
  - intros H. by apply append_not_self in H.
  - intros H. symmetry in H. by apply append_not_self in H.
  - intros H. apply append_inv_head in H. injection H as H. by apply of_nat_inj.
Qed.

(** Among the first [n + 1] candidates there is one that [n] profiles
    have not taken. *)
Lemma candidate_free defaultUsername (names : list string) :
  ∃ j, (j ≤ length names)%nat ∧ (candidate defaultUsername j ∉ names) ∧
       ∀ i, (i < j)%nat → candidate defaultUsername i ∈ names.
Proof.
  assert (Hex : ∃ j, (j ≤ length names)%nat ∧ candidate defaultUsername j ∉ names).
  { destruct (decide (Forall (λ j, candidate defaultUsername j ∈ names)
                             (seq 0 (S (length names))))) as [Hall|Hsome].
    - exfalso.
      assert (Hsub : (candidate defaultUsername <$> seq 0 (S (length names))) ⊆+ names).
      { apply NoDup_submseteq.
        - apply NoDup_fmap_2; [|apply NoDup_seq].
          intros i j. apply candidate_inj.
        - intros x (j & -> & Hj)%list_elem_of_fmap.
          by eapply Forall_forall in Hall. }
      apply submseteq_length in Hsub. rewrite length_fmap, length_seq in Hsub. lia.
    - apply not_Forall_Exists in Hsome; [|apply _].
      apply Exists_exists in Hsome as (j & Hj & Hfree).
      apply elem_of_seq in Hj. exists j. split; [lia|done]. }
  destruct Hex as (j & _ & Hj). revert Hj.
  induction j as [j IH] using lt_wf_ind. intros Hj.
  destruct (decide (Forall (λ i, candidate defaultUsername i ∈ names) (seq 0 j)))
    as [Hall|Hsome].
  - exists j. split; [|split; [done|]].
    + destruct (decide (j ≤ length names)%nat) as [?|Hgt]; [done|exfalso].
      assert (Hsub : (candidate defaultUsername <$> seq 0 j) ⊆+ names).
      { apply NoDup_submseteq.
        - apply NoDup_fmap_2; [|apply NoDup_seq].
          intros a b. apply candidate_inj.
        - intros x (i & -> & Hi)%list_elem_of_fmap.
          by eapply Forall_forall in Hall. }
      apply submseteq_length in Hsub. rewrite length_fmap, length_seq in Hsub. lia.
    + intros i Hi. eapply Forall_forall in Hall; [done|]. apply elem_of_seq. lia.
  - apply not_Forall_Exists in Hsome; [|apply _].
    apply Exists_exists in Hsome as (i & Hi & Hfree).
    apply elem_of_seq in Hi. apply (IH i); [lia|done].
Qed.

(** With unique user names, the lookup of a name finds a row exactly
    when the name is taken. *)
Lemma username_lookup name d :
  usernames_unique d →
  match data (profiles_select_single_username name d) with
  | Some _ => name ∈ pr_username <$> user_profiles d
  | None => name ∉ pr_username <$> user_profiles d
  end.
Proof.
  intros Huniq. unfold profiles_select_single_username.
  destruct (decide (name ∈ pr_username <$> user_profiles d)) as [Hin|Hout].
  - pose proof Hin as (p & -> & Hp)%list_elem_of_fmap.
    by rewrite (filter_key_unique pr_username _ p Huniq Hp).
  - rewrite filter_none; [done|].
    intros p Hp <-. apply Hout. by apply list_elem_of_fmap_2.
Qed.

(** The loop stops at the first candidate that is not taken, when it has
    the fuel to reach it. *)
Lemma finalUsername_loop_run defaultUsername w j :
  healthy w → usernames_unique (db w) →
  (candidate defaultUsername j ∉ pr_username <$> user_profiles (db w)) →
  (∀ i, (i < j)%nat → candidate defaultUsername i ∈ pr_username <$> user_profiles (db w)) →
  ∀ fuel k, (k ≤ j)%nat → (j < k + fuel)%nat →
  finalUsername_loop fuel defaultUsername (candidate defaultUsername k) (S k) w =
    (Value (Some (candidate defaultUsername j)), w).
Proof.
  intros Hw Huniq Hfree Htaken fuel.
  induction fuel as [|fuel IH]; intros k Hk Hfuel; [lia|].
  simpl. unfold mbind, M_bind. rewrite read_healthy by done.
  pose proof (username_lookup (candidate defaultUsername k) (db w) Huniq) as Hlook.
  destruct (data (profiles_select_single_username _ (db w))) as [p|].
  - destruct (decide (k = j)) as [->|Hne]; [done|].
    apply (IH (S k)); lia.
  - destruct (decide (k = j)) as [->|Hne]; [done|].
    exfalso. apply Hlook, Htaken. lia.
Qed.

(** X19. The user name route never asks the token for a name the store
    has: with a secret configured (not empty), for a valid token whose
    subject has a profile, and a store that serves the request, it
    answers 200 with the profile's user name, whatever name the token
    carries, and writes nothing. *)
Theorem getusername_reads_profile uuid_text fuel w p id profile :
  healthy w → JWT_SECRET w ≠ "" →
  profiles_keyed (db w) → live w p → Jwt.userId p = Some id →
  profile ∈ user_profiles (db w) → pr_id profile = id →
  post_getusername uuid_text fuel (Some (Jwt.Signed (JWT_SECRET w) p)) w =
    (Value (Some (send 200 (pr_username profile))), w).
Proof.
  intros Hw Hsecret Hkey Hlive Hsub Hin Hid. subst id.
  unfold post_getusername, try_catch, mbind, M_bind, env_JWT_SECRET.
  rewrite verify_live by done. rewrite Hsub.
  rewrite read_healthy by done. unfold profiles_select_single.
  by rewrite (filter_key_unique pr_id _ profile Hkey Hin).
Qed.

(** X20. The user name route gives an account that has no profile one:
    with a secret configured (not empty), for a valid token of such an
    account, a store that serves the requests and holds no user name
    twice, candidates that fit the column ([VARCHAR(50)], no zero
    character) and fuel for one more lookup than there are profiles,
    the loop ends; the name chosen is the first of the candidates (the
    local part of the token's address or, without an address, [user_]
    and the first eight characters of the identifier; then the same
    followed by [_1], [_2], ...) that no profile has; the route stores
    a profile with that name for the account, answers 200 with it, and
    user names stay unique. *)
Theorem getusername_provides_profile uuid_text fuel w p id :
  healthy w → JWT_SECRET w ≠ "" →
  usernames_unique (db w) → live w p → Jwt.userId p = Some id →
  id ∈ au_id <$> auth_users (db w) → id ∉ pr_id <$> user_profiles (db w) →
  (length (user_profiles (db w)) < fuel)%nat →
  let defaultUsername :=
    match Js.truthy_value (Jwt.email p) with
    | Some address => Js.split_head "@" address
    | None => "user_" +:+ String.substring 0 8 (uuid_text id)
    end in
  (∀ k, (k ≤ length (user_profiles (db w)))%nat →
        Pg.refusal (Pg.VARCHAR 50) (candidate defaultUsername k) = None) →
  ∃ j,
    (j ≤ length (user_profiles (db w)))%nat ∧
    (candidate defaultUsername j ∉ pr_username <$> user_profiles (db w)) ∧
    (∀ i, (i < j)%nat →
          candidate defaultUsername i ∈ pr_username <$> user_profiles (db w)) ∧
    let w' := (post_getusername uuid_text fuel (Some (Jwt.Signed (JWT_SECRET w) p)) w).2 in
    (post_getusername uuid_text fuel (Some (Jwt.Signed (JWT_SECRET w) p)) w).1 =
      Value (Some (send 200 (candidate defaultUsername j))) ∧
    user_profiles (db w') =
      user_profiles (db w) ++
        [{| pr_id := id; pr_username := candidate defaultUsername j |}] ∧
    usernames_unique (db w').
Proof.
  intros Hw Hsecret Huniq Hlive Hsub Hacc Hnew Hfuel defaultUsername Hfit.
  destruct (candidate_free defaultUsername (pr_username <$> user_profiles (db w)))
    as (j & Hj & Hfree & Htaken).
  rewrite length_fmap in Hj.
  exists j. split; [done|]. split; [done|]. split; [done|].
  assert (Hrun :
    post_getusername uuid_text fuel (Some (Jwt.Signed (JWT_SECRET w) p)) w =
      (Value (Some (send 200 (candidate defaultUsername j))),
       with_db (with_user_profiles
                  (user_profiles (db w) ++
                     [{| pr_id := id; pr_username := candidate defaultUsername j |}])
                  (db w)) w)).
  { unfold post_getusername, try_catch, mbind, M_bind, env_JWT_SECRET.
    rewrite verify_live by done. rewrite Hsub.
    rewrite read_healthy by done. unfold profiles_select_single.
    rewrite filter_none.
    2:{ intros q Hq Hqid. apply Hnew. rewrite <- Hqid. by apply list_elem_of_fmap_2. }
    change (error (Pg.single [])) with (Some Pg.PGRST116).
    lazy beta iota zeta. fold defaultUsername.
    pose proof (finalUsername_loop_run defaultUsername w j Hw Huniq Hfree Htaken
                  fuel 0%nat ltac:(lia) ltac:(lia)) as Hloop.
    change (candidate defaultUsername 0) with defaultUsername in Hloop.
    rewrite Hloop.
    lazy beta iota. rewrite round_trip_healthy by done.
    rewrite profiles_insert_ok by auto. done. }
  rewrite Hrun. simpl. split; [done|]. split; [done|].
  unfold usernames_unique. simpl. rewrite fmap_app. simpl.
  apply NoDup_app. split; [done|]. split; [|apply NoDup_singleton].
  intros x Hx Hx'. apply list_elem_of_singleton in Hx'. by subst x.
Qed.

Lemma steps_verify (R : relation Db) `{!PreOrder R} token secret :
  steps R (Jwt.verify token secret).
Proof.
  intros w. unfold Jwt.verify. repeat case_match; simpl; reflexivity.
Qed.

Lemma profiles_appended_preorder : PreOrder profiles_appended.
Proof.
  split.
  - intros d. split; [exists []; by rewrite app_nil_r|done].
  - intros d1 d2 d3 ((n1 & Hn1) & ? & ? & ? & ?) ((n2 & Hn2) & ? & ? & ? & ?).
    split; [exists (n1 ++ n2); by rewrite Hn2, Hn1, app_assoc|].
    repeat split; congruence.
Qed.
#[local] Existing Instance profiles_appended_preorder.

Lemma profiles_insert_appends id name d :
  profiles_appended d (profiles_insert id name d).2.
Proof.
  unfold profiles_insert. destruct (Pg.refusal _ name); [reflexivity|].
  repeat case_bool_decide; simpl; try reflexivity.
  split; [by eexists|done].
Qed.

Lemma steps_finalUsername_loop fuel defaultUsername finalUsername counter :
  steps profiles_appended (finalUsername_loop fuel defaultUsername finalUsername counter).
Proof.
  revert finalUsername counter.
  induction fuel as [|fuel IH]; intros finalUsername counter; simpl.
  - apply steps_ret.
  - apply steps_bind; [apply steps_read|].
    intros r. destruct (data r); [apply IH|apply steps_ret].
Qed.

(** X21. Whatever token it is given, however long its loop runs and
    whichever requests to the store fail, the user name route leaves
    every profile that exists as it is and in its place, and changes no
    account, favorite, playlist or playlist song: all it can do is add
    profile rows after the existing ones. *)
Theorem getusername_only_adds_profiles uuid_text fuel csrid w :
  profiles_appended (db w) (db (post_getusername uuid_text fuel csrid w).2).
Proof.
  assert (Hs : steps profiles_appended (post_getusername uuid_text fuel csrid)).
  { unfold post_getusername.
    steps_tac;
      first [ apply steps_verify
            | apply steps_finalUsername_loop
            | apply steps_round_trip; apply profiles_insert_appends ].
    all: apply _. }
  apply Hs.
Qed.

End users_more.

(** ** Playlist names that ILIKE takes literally *)

Section create_more.
Import Store Playlists.

Lemma ilike_literal p s : literal p = true → Pg.ilike_match p s = Pg.same_name s p.
Proof.
  revert s. induction p as [|c p IH]; intros s Hlit.
  - unfold Pg.same_name. destruct s; symmetry;
      [by apply bool_decide_eq_true_2|by apply bool_decide_eq_false_2].
  - simpl in Hlit. apply andb_true_iff in Hlit as [Hc Hp].
    apply negb_true_iff in Hc.
    apply orb_false_iff in Hc as [Hc Hback].
    apply orb_false_iff in Hc as [Hc Hunder].
    apply orb_false_iff in Hc as [Hpercent Hstar].
    simpl. rewrite Hpercent, Hstar, Hunder, Hback. simpl.
    destruct s as [|d s].
    + symmetry. by apply bool_decide_eq_false_2.
    + rewrite (IH s Hp). unfold Pg.same_name.
      change (Pg.lowercase (String d s)) with (String (Pg.lower d) (Pg.lowercase s)).
      change (Pg.lowercase (String c p)) with (String (Pg.lower c) (Pg.lowercase p)).
      destruct (Ascii.eqb_spec (Pg.lower c) (Pg.lower d)) as [Heq|Hne].
      * rewrite Heq. rewrite andb_true_l. apply bool_decide_ext.
        split; [by intros ->|by intros [= ->]].
      * rewrite andb_false_l. symmetry. apply bool_decide_eq_false_2.
        intros [= ? ?]. by apply Hne.
Qed.

Lemma owned_matches_literal user_id playlistName d :
  literal playlistName = true →
  filter (λ p, pl_user_id p = user_id ∧ Pg.ilike (pl_name p) playlistName = true)
         (playlists d) =
  filter (λ p, (Pg.lowercase ∘ pl_name) p = Pg.lowercase playlistName)
         (playlists_of user_id d).
Proof.
  intros Hlit. unfold playlists_of. rewrite list_filter_filter.
  apply filter_ext_elem. intros p _. unfold Pg.ilike.
  rewrite (ilike_literal _ _ Hlit). unfold Pg.same_name. simpl.
  rewrite bool_decide_eq_true. tauto.
Qed.

(** X22. For a name that, trimmed of the white space of JavaScript, is
    not empty, is written in ASCII and holds no [%], [*], [_] or
    backslash, a caller who is an account and whose playlist names are
    written in ASCII and differ pairwise without regard to case, values
    that fit their columns (the trimmed name within [VARCHAR(200)], no
    zero character) and a store that serves the requests, the name check
    of create is equality without regard to case: when one of the
    caller's playlists has the trimmed name, create answers 400 and
    changes nothing; otherwise it stores a playlist of the caller under
    the trimmed name, shows it, and the caller's names still differ
    pairwise. *)
Theorem create_literal_name user b w n :
  healthy w → Js.truthy_value (name b) = Some n → Js.trim n ≠ "" →
  literal (Js.trim n) = true → names_distinct (userId user) (db w) →
  Utf8.ascii_only (Js.trim n) = true →
  Forall (λ p, Utf8.ascii_only (pl_name p) = true) (playlists_of (userId user) (db w)) →
  PlaylistFacts.create_fits b → userId user ∈ au_id <$> auth_users (db w) →
  let playlistName := Js.trim n in
  let names := Pg.lowercase ∘ pl_name <$> playlists_of (userId user) (db w) in
  (Pg.lowercase playlistName ∈ names →
   post_create user b w =
     (Value (json 400 (Error (already_exists playlistName))), w)) ∧
  (Pg.lowercase playlistName ∉ names →
   ∃ p, pl_name p = playlistName ∧ pl_user_id p = userId user ∧
        (post_create user b w).1 =
          Value (json 200 (PlaylistCreated "Playlist created successfully"
                             (format_playlist p) [])) ∧
        playlists (db (post_create user b w).2) = playlists (db w) ++ [p] ∧
        names_distinct (userId user) (db (post_create user b w).2)).
Proof.
  intros Hw Hn Htrim Hlit Hdistinct _ _ Hfit Hacc playlistName names.
  subst playlistName names.
  pose proof (create_run user b w n Hw Hn Htrim Hfit Hacc) as Hrun.
  lazy zeta in Hrun.
  rewrite (owned_matches_literal _ _ _ Hlit) in Hrun.
  split.
  - intros (q & Hq & Hin)%list_elem_of_fmap. rewrite Hq in Hrun.
    by rewrite (filter_key_unique (Pg.lowercase ∘ pl_name) _ q Hdistinct Hin) in Hrun.
  - intros Hfree. rewrite filter_none in Hrun.
    2:{ intros q Hq Hsame. apply Hfree. rewrite <- Hsame.
        by apply list_elem_of_fmap_2. }
    rewrite Hrun. eexists. split; [|split; [|split; [reflexivity|split]]];
      [done|done|done|].
    unfold names_distinct, playlists_of. simpl.
    rewrite filter_app, fmap_app. rewrite filter_cons, decide_True by done.
    rewrite filter_nil. simpl. apply NoDup_app. split; [exact Hdistinct|].
    split; [|apply NoDup_singleton].
    intros x Hx Hx'. apply list_elem_of_singleton in Hx'. subst x. by apply Hfree.
Qed.

End create_more.

(** ** Albums: each song once *)

Section albums_more.
Import Albums.

Lemma filter_unseen_spec seen l :
  filter_unseen seen l `sublist_of` l ∧
  NoDup (key <$> filter_unseen seen l) ∧
  (∀ s, s ∈ filter_unseen seen l → key s ∉ seen) ∧
  (∀ s, s ∈ l → key s ∈ seen ∨ key s ∈ key <$> filter_unseen seen l) ∧
  (∀ s, s ∈ filter_unseen seen l → head (filter (λ x, key x = key s) l) = Some s).
Proof.
  revert seen. induction l as [|x l IH]; intros seen; simpl.
  - split; [done|]. split; [apply NoDup_nil_2|].
    split; [by intros s ?%not_elem_of_nil|].
    split; by intros s ?%not_elem_of_nil.
  - case_bool_decide as Hseen.
    + destruct (IH seen) as (Hsub & Hnd & Hout & Hall & Hfirst).
      split; [by apply sublist_cons|]. split; [done|]. split; [done|]. split.
      * intros s [->|Hs]%elem_of_cons; [by left|by apply Hall].
      * intros s Hs. rewrite filter_cons, decide_False; [by apply Hfirst|].
        intros Hk. apply (Hout s Hs). by rewrite <- Hk.
    + destruct (IH ({[key x]} ∪ seen)) as (Hsub & Hnd & Hout & Hall & Hfirst).
      split; [by apply sublist_skip|]. split; [|split; [|split]].
      * rewrite fmap_cons. apply NoDup_cons. split; [|done].
        intros (s & Hk & Hs)%list_elem_of_fmap. apply (Hout s Hs).
        rewrite Hk. set_solver.
      * intros s [->|Hs]%elem_of_cons; [done|].
        specialize (Hout s Hs). set_solver.
      * intros s [->|Hs]%elem_of_cons.
        { right. rewrite fmap_cons. by left. }
        destruct (Hall s Hs) as [Hin|Hin].
        -- apply elem_of_union in Hin as [Hin|Hin]; [|by left].
           apply elem_of_singleton in Hin. right. rewrite fmap_cons, Hin. by left.
        -- right. rewrite fmap_cons. by right.
      * intros s [->|Hs]%elem_of_cons.
        { by rewrite filter_cons, decide_True. }
        rewrite filter_cons, decide_False; [by apply Hfirst|].
        intros Hk. apply (Hout s Hs). rewrite <- Hk. set_solver.
Qed.

(** X23. The songs an album is shown with are its songs, in their
    order, each key (title, a dash, source) once: of the songs with one
    key the first is kept, no key of the album is lost, and no two shown
    songs agree in title and source. *)
Theorem album_songs_once album :
  let given := default [] (songs album) in
  uniqueSongs album `sublist_of` given ∧
  NoDup (key <$> uniqueSongs album) ∧
  (∀ s, s ∈ given → key s ∈ key <$> uniqueSongs album) ∧
  (∀ s, s ∈ uniqueSongs album → head (filter (λ x, key x = key s) given) = Some s) ∧
  NoDup ((λ s, (shown_title s, shown_src s)) <$> shown_songs (format_album album)).
Proof.
  intros given. unfold uniqueSongs. fold given.
  destruct (filter_unseen_spec ∅ given) as (Hsub & Hnd & _ & Hall & Hfirst).
  split; [done|]. split; [done|]. split; [|split; [done|]].
  - intros s Hs. destruct (Hall s Hs) as [Hin|Hin]; [set_solver|done].
  - unfold format_album, uniqueSongs. simpl. fold given.
    rewrite <- list_fmap_compose.
    apply (NoDup_fmap_1 (λ ts : string * string, ts.1 +:+ "-" +:+ ts.2)).
    by rewrite <- list_fmap_compose.
Qed.

Lemma append_assoc (a b c : string) : (a +:+ b) +:+ c = a +:+ (b +:+ c).
Proof.
  induction a as [|x a IH]; [done|].
  change (String x ((a +:+ b) +:+ c) = String x (a +:+ (b +:+ c))). by rewrite IH.
Qed.

(** X24. The key does not tell title and source apart: a song titled
    [t-u] with source [s] and a song titled [t] with source [u-s] have
    one key, their titles differ, and an album that holds both, in this
    order, is shown with the first only. *)
Theorem album_songs_sharing_a_key album t u s i i' d d' :
  let a := {| title := t +:+ "-" +:+ u; src := s; img := i; duration := d |} in
  let b := {| title := t; src := u +:+ "-" +:+ s; img := i'; duration := d' |} in
  songs album = Some [a; b] →
  title a ≠ title b ∧ key a = key b ∧ uniqueSongs album = [a].
Proof.
  intros a b Hsongs.
  assert (Hkey : key a = key b).
  { unfold key, a, b. simpl. by rewrite !append_assoc. }
  split; [|split; [done|]].
  - unfold a, b. simpl. intros H. symmetry in H. by apply append_not_self in H.
  - unfold uniqueSongs. rewrite Hsongs. simpl.
    rewrite bool_decide_false by set_solver.
    rewrite <- Hkey. by rewrite bool_decide_true by set_solver.
Qed.

End albums_more.

(** ** The further properties at concrete requests *)

Section witnesses_more.
Import Store Scenario.

Lemma gate_pass_sound_witness :
  let w := world db_alice [] in
  (AuthGate.authenticateToken (Some token_with_username) w).1 = Value (inr alice) ∧
  ∃ p account,
    token_with_username = Jwt.Signed "secret" p ∧ Jwt.userId p = Some 7%nat ∧
    account ∈ auth_users (db w) ∧ au_email account = "alice@x.com".
Proof.
  intros w.
  assert (H : (AuthGate.authenticateToken (Some token_with_username) w).1 =
              Value (inr alice)) by (vm_compute; reflexivity).
  split; [exact H|].
  destruct (gate_pass_sound (Some token_with_username) w alice H)
    as (p & account & Htok & _ & Hsub & Hin & _ & Hmail & _).
  exists p, account.
  split; [exact (inj Some _ _ Htok)|]. split; [exact Hsub|]. split; [exact Hin|].
  symmetry. exact Hmail.
Defined.

Lemma guarded_refusal_witness :
  let w := world db_favorite [] in
  (AuthGate.authenticateToken None w).1 =
    Value (inl (json 401 (Error "Access token required"))) ∧
  AuthGate.guarded None (λ user, Favorites.delete_remove user (Some "Song A")) w =
    (Value (inl (json 401 (Error "Access token required"))), w).
Proof.
  intros w.
  assert (H : (AuthGate.authenticateToken None w).1 =
              Value (inl (json 401 (Error "Access token required"))))
    by (vm_compute; reflexivity).
  split; [exact H|].
  destruct (guarded_refusal None (λ user, Favorites.delete_remove user (Some "Song A"))
              w _ H) as (Hout & _ & _ & Hnone).
  destruct (Hnone eq_refl) as [_ Hw].
  rewrite (surjective_pairing (AuthGate.guarded _ _ w)). rewrite Hout, Hw. reflexivity.
Defined.

Lemma favorites_routes_keep_unique_witness :
  let w := world db_favorites [] in
  favorites_unique (db w) ∧
  favorites_unique (db (Favorites.post_add alice (favorite_body "Song C") w).2).
Proof.
  intros w.
  assert (H : favorites_unique (db w)).
  { apply (bool_decide_unpack _). vm_compute. exact I. }
  split; [exact H|].
  exact (proj1 (favorites_routes_keep_unique alice (favorite_body "Song C") None w H)).
Defined.

Lemma favorites_list_and_count_witness :
  let w := world db_favorites [] in
  healthy w ∧
  (Favorites.get_user alice w).1 =
    Value (respond 200 (FavoriteList (Favorites.format_favorite <$> [favorite_b; favorite_a]))) ∧
  (Favorites.get_count alice w).1 = Value (respond 200 (Count 2)).
Proof.
  intros w.
  assert (H : healthy w) by reflexivity.
  split; [exact H|].
  destruct (favorites_list_and_count alice w H) as (rows & Hlist & _ & _ & Hcount).
  split; [reflexivity|].
  assert (Hrows : length rows = 2%nat).
  { assert (He : Value (respond 200 (FavoriteList (Favorites.format_favorite <$> rows))) =
                 Value (respond 200 (FavoriteList
                          (Favorites.format_favorite <$> [favorite_b; favorite_a]))))
      by (rewrite <- Hlist; vm_compute; reflexivity).
    unfold respond in He. injection He as He.
    apply (f_equal length) in He. rewrite !length_fmap in He. exact He. }
  rewrite Hcount, Hrows. reflexivity.
Defined.


Lemma add_then_check_count_add_witness :
  let w := world db_favorite [] in
  let w1 := (Favorites.post_add alice (favorite_body "Song B") w).2 in
  healthy w ∧ favorites_unique (db w) ∧
  ("Song B" ∉ Favorites.favorite_set 7 (db w)) ∧
  favorite_refusal (Favorites.row_of 7 "Song B" (favorite_body "Song B")) = None ∧
  7%nat ∈ au_id <$> auth_users (db w) ∧
  (Favorites.post_check alice (Some "Song B") w1).1 = Value (json 200 (IsFavorite true)) ∧
  Favorites.post_add alice (favorite_body "Song B") w1 =
    (Value (json 400 (Error "Song already in favorites")), w1).
Proof.
  intros w w1.
  assert (H1 : healthy w) by reflexivity.
  assert (H2 : favorites_unique (db w)).
  { apply (bool_decide_unpack _). vm_compute. exact I. }
  assert (H3 : "Song B" ∉ Favorites.favorite_set 7 (db w)).
  { apply (bool_decide_unpack _). vm_compute. exact I. }
  assert (H4 : favorite_refusal (Favorites.row_of 7 "Song B" (favorite_body "Song B"))
               = None) by (vm_compute; reflexivity).
  assert (H5 : 7%nat ∈ au_id <$> auth_users (db w)) by left.
  repeat (split; [assumption|]).
  destruct (add_then_check_count_add alice (favorite_body "Song B") "Song B" w
              H1 H2 eq_refl H3 H4 H5) as (_ & Hcheck & _ & Hagain).
  split; [exact Hcheck|exact Hagain].
Defined.

Lemma not_owner_changes_nothing_witness :
  let w := world db_rock_songs [] in
  ¬ PlaylistFacts.owned bob 20 (db w) ∧
  db (Playlists.delete_id bob 20 w).2 = db w ∧
  db (Playlists.delete_id_songs_remove bob 20 (Some "Song A") w).2 = db w.
Proof.
  intros w.
  assert (H : ¬ PlaylistFacts.owned bob 20 (db w)).
  { intros (p & Hp & Ho). vm_compute in Hp. injection Hp as <-.
    vm_compute in Ho. discriminate Ho. }
  split; [exact H|].
  destruct (not_owner_changes_nothing bob 20 None (Some "Song A") None w H)
    as ((_ & Hd) & _ & _ & (_ & Hr) & _).
  split; [exact Hd|exact Hr].
Defined.

Lemma delete_playlist_cascades_witness :
  let w := world db_rock_songs [] in
  healthy w ∧ PlaylistFacts.owned alice 20 (db w) ∧
  playlists (db (Playlists.delete_id alice 20 w).2) = [] ∧
  playlist_songs (db (Playlists.delete_id alice 20 w).2) = [].
Proof.
  intros w.
  assert (H1 : healthy w) by reflexivity.
  assert (H2 : PlaylistFacts.owned alice 20 (db w)).
  { exists rock. split; reflexivity. }
  repeat (split; [assumption|]).
  destruct (delete_playlist_cascades alice 20 w H1 H2) as (_ & Hp & Hs & _).
  split; [rewrite Hp|rewrite Hs]; vm_compute; reflexivity.
Defined.



Lemma add_songs_again_witness :
  let w := world db_rock_song [] in
  let w1 := (Playlists.post_id_songs_add alice 20 (Some batch) w).2 in
  healthy w ∧ PlaylistFacts.owned alice 20 (db w) ∧
  PlaylistFacts.positions_assigned 20 (db w) ∧
  Forall PlaylistFacts.plainly_titled batch ∧
  PlaylistFacts.new_songs 20 (db w) batch ≠ [] ∧
  Forall PlaylistFacts.song_fits (PlaylistFacts.new_songs 20 (db w) batch) ∧
  PlaylistFacts.positions_fit (PlaylistFacts.first_free 20 (db w))
    (length (PlaylistFacts.new_songs 20 (db w) batch)) ∧
  Playlists.post_id_songs_add alice 20 (Some batch) w1 =
    (Value (json 400 (Error "All songs are already in the playlist")), w1).
Proof.
  intros w w1.
  assert (H1 : healthy w) by reflexivity.
  assert (H2 : PlaylistFacts.owned alice 20 (db w)).
  { exists rock. split; reflexivity. }
  assert (H3 : PlaylistFacts.positions_assigned 20 (db w)).
  { intros s Hs. change (s ∈ [song_a]) in Hs.
    apply list_elem_of_singleton in Hs. rewrite Hs. eexists. reflexivity. }
  assert (H4 : Forall PlaylistFacts.plainly_titled batch).
  { repeat constructor; eexists; (split; [reflexivity|vm_compute; reflexivity]). }
  assert (H5 : PlaylistFacts.new_songs 20 (db w) batch ≠ []).
  { intros H. vm_compute in H. discriminate H. }
  assert (E : PlaylistFacts.new_songs 20 (db w) batch = [titled "Song B"; titled "Song C"])
    by (vm_compute; reflexivity).
  assert (H6 : Forall PlaylistFacts.song_fits (PlaylistFacts.new_songs 20 (db w) batch)).
  { rewrite E. repeat constructor; vm_compute; reflexivity. }
  assert (H7 : PlaylistFacts.positions_fit (PlaylistFacts.first_free 20 (db w))
                 (length (PlaylistFacts.new_songs 20 (db w) batch))).
  { rewrite E. split; vm_compute; discriminate. }
  repeat (split; [assumption|]).
  exact (proj2 (add_songs_again alice 20 batch w H1 H2 H3 H4 H5 H6 H7)).
Defined.

Lemma songs_listed_in_order_witness :
  let w := world db_rock_songs [] in
  healthy w ∧ PlaylistFacts.owned alice 20 (db w) ∧
  (Playlists.get_id_songs alice 20 w).1 =
    Value (json 200 (SongList (Playlists.format_song <$> [song_a; song_b]))) ∧
  ∃ rows, rows ≡ₚ [song_b; song_a] ∧
          StronglySorted (λ a b, Pg.asc (ps_position a) (ps_position b) = true) rows.
Proof.
  intros w.
  assert (H1 : healthy w) by reflexivity.
  assert (H2 : PlaylistFacts.owned alice 20 (db w)).
  { exists rock. split; reflexivity. }
  repeat (split; [assumption|]).
  split; [vm_compute; reflexivity|].
  destruct (songs_listed_in_order alice 20 w H1 H2) as (rows & _ & Hperm & _ & Hsorted).
  exists rows. split; [exact Hperm|exact Hsorted].
Defined.

Lemma register_then_again_witness :
  let w := world db_profiles [] in
  let w1 := (Users.post_insert registration_of_carol w).2 in
  Pg.refusal (Pg.VARCHAR 50) "carol" = None ∧
  succeeded (Users.post_insert registration_of_carol w) ∧
  healthy w1 ∧
  pr_username <$> user_profiles (db w1) = ["alice"; "bob"; "carol"] ∧
  Users.post_insert registration_of_caroline w1 =
    (Value (send 400 "400::Username already exists."), w1).
Proof.
  intros w w1.
  assert (H1 : Pg.refusal (Pg.VARCHAR 50) "carol" = None) by (vm_compute; reflexivity).
  assert (H2 : succeeded (Users.post_insert registration_of_carol w))
    by (vm_compute; reflexivity).
  assert (H3 : healthy w1) by (vm_compute; reflexivity).
  repeat (split; [assumption|]).
  destruct (register_then_again registration_of_carol registration_of_caroline
              "carol" w eq_refl H1 H2) as ((account & _ & Hprofiles) & Hagain).
  split.
  - fold w1 in Hprofiles. rewrite Hprofiles, fmap_app. reflexivity.
  - apply (Hagain H3); [reflexivity|eexists; reflexivity|].
    exists "password5". split; [reflexivity|vm_compute; lia].
Defined.

Lemma signin_sound_witness :
  let w := world db_profiles [] in
  answered 200 (Users.post_signin 86400 (Some "alice@x.com") (Some "password1") w) ∧
  ∃ u, u ∈ auth_users (db w) ∧ au_email u = "alice@x.com" ∧ au_password u = "password1".
Proof.
  intros w.
  assert (H : answered 200
                (Users.post_signin 86400 (Some "alice@x.com") (Some "password1") w))
    by (vm_compute; reflexivity).
  split; [exact H|].
  destruct (signin_sound 86400 (Some "alice@x.com") (Some "password1") w H)
    as (e & pw & u & _ & _ & He & Hpw & Hin & Hmail & Hpass & _).
  exists u. split; [exact Hin|].
  change (Some "alice@x.com" = Some e) in He. change (Some "password1" = Some pw) in Hpw.
  rewrite (inj Some _ _ He), (inj Some _ _ Hpw). split; [exact Hmail|exact Hpass].
Defined.

Lemma signin_token_passes_gate_witness :
  let w := world db_profiles [] in
  let token := issued_token 86400 "alice@x.com" alice_account w in
  healthy w ∧ accounts_unique (db w) ∧
  (Users.post_signin 86400 (Some "alice@x.com") (Some "password1") w).1 =
    Value (respond 200 (TextToken "200::" token)) ∧
  AuthGate.authenticateToken (Some token) w = (Value (inr alice), w).
Proof.
  intros w token.
  assert (H1 : healthy w) by reflexivity.
  assert (H2 : accounts_unique (db w)).
  { apply (bool_decide_unpack _). vm_compute. exact I. }
  repeat (split; [assumption|]).
  apply (signin_token_passes_gate 86400 (Some "alice@x.com") (Some "password1")
           "alice@x.com" "password1" alice_account "alice" w H1);
    [discriminate|exact H2|lia|reflexivity|reflexivity|
     vm_compute; reflexivity|vm_compute; reflexivity].
Defined.

Lemma register_signin_gate_witness :
  let w := world db_profiles [] in
  let w1 := (Users.post_insert registration_of_carol w).2 in
  JWT_SECRET w ≠ "" ∧ Users.fresh_ids (db w) ∧
  Pg.refusal (Pg.VARCHAR 50) "carol" = None ∧
  ("carol@x.com" ∉ au_email <$> auth_users (db w)) ∧
  succeeded (Users.post_insert registration_of_carol w) ∧
  healthy w1 ∧
  ∃ token account,
    Users.post_signin 86400 (Some "carol@x.com") (Some "password4") w1 =
      (Value (respond 200 (TextToken "200::" token)), w1) ∧
    AuthGate.authenticateToken (Some token) w1 =
      (Value (inr (Build_ReqUser (au_id account) (au_email account) "carol")), w1).
Proof.
  intros w w1.
  assert (H1 : JWT_SECRET w ≠ "") by discriminate.
  assert (H2 : Users.fresh_ids (db w)).
  { intros id Hid. change (10 ≤ id)%nat in Hid.
    unfold Users.identity_exists, Users.profile_exists. simpl.
    split; intros Hin;
      repeat (apply elem_of_cons in Hin as [->|Hin]; [lia|]);
      by apply not_elem_of_nil in Hin. }
  assert (H3 : Pg.refusal (Pg.VARCHAR 50) "carol" = None) by (vm_compute; reflexivity).
  assert (H4 : "carol@x.com" ∉ au_email <$> auth_users (db w)).
  { apply (bool_decide_unpack _). vm_compute. exact I. }
  assert (H5 : succeeded (Users.post_insert registration_of_carol w))
    by (vm_compute; reflexivity).
  assert (H6 : healthy w1) by (vm_compute; reflexivity).
  repeat (split; [assumption|]).
  destruct (register_signin_gate 86400 registration_of_carol "carol" "carol@x.com" w
              H1 ltac:(lia) H2 eq_refl H3 eq_refl H4 H5 H6)
    as (token & account & _ & Hin & Hgate).
  exists token, account. split; [exact Hin|exact Hgate].
Defined.

Lemma getusername_reads_profile_witness :
  let w := world db_profiles [] in
  healthy w ∧ JWT_SECRET w ≠ "" ∧
  profiles_keyed (db w) ∧ AuthGate.live w payload_of_alice ∧
  Users.post_getusername Js.of_nat 0 (Some (Jwt.Signed "secret" payload_of_alice)) w =
    (Value (Some (send 200 "alice")), w).
Proof.
  intros w.
  assert (H1 : healthy w) by reflexivity.
  assert (H2 : profiles_keyed (db w)).
  { apply (bool_decide_unpack _). vm_compute. exact I. }
  assert (H3 : AuthGate.live w payload_of_alice).
  { intros e He. injection He as <-. vm_compute. reflexivity. }
  assert (H4 : JWT_SECRET w ≠ "") by discriminate.
  repeat (split; [assumption|]).
  apply (getusername_reads_profile Js.of_nat 0 w payload_of_alice 7
           {| pr_id := 7; pr_username := "alice" |} H1 H4 H2 H3 eq_refl);
    [left|reflexivity].
Defined.

Lemma getusername_provides_profile_witness :
  let w := world db_profiles [] in
  let run := Users.post_getusername Js.of_nat 3
               (Some (Jwt.Signed "secret" payload_of_bob)) w in
  healthy w ∧ JWT_SECRET w ≠ "" ∧
  usernames_unique (db w) ∧ AuthGate.live w payload_of_bob ∧
  (8%nat ∉ pr_id <$> user_profiles (db w)) ∧
  (∀ k, (k ≤ 2)%nat → Pg.refusal (Pg.VARCHAR 50) (candidate "bob" k) = None) ∧
  run.1 = Value (Some (send 200 "bob_1")) ∧
  usernames_unique (db run.2) ∧
  ∃ j, user_profiles (db run.2) =
         user_profiles (db w) ++ [{| pr_id := 8; pr_username := candidate "bob" j |}].
Proof.
  intros w run.
  assert (H1 : healthy w) by reflexivity.
  assert (H2 : usernames_unique (db w)).
  { apply (bool_decide_unpack _). vm_compute. exact I. }
  assert (H3 : AuthGate.live w payload_of_bob).
  { intros e He. injection He as <-. vm_compute. reflexivity. }
  assert (H4 : 8%nat ∉ pr_id <$> user_profiles (db w)).
  { apply (bool_decide_unpack _). vm_compute. exact I. }
  assert (H5 : JWT_SECRET w ≠ "") by discriminate.
  assert (H6 : ∀ k, (k ≤ 2)%nat →
                    Pg.refusal (Pg.VARCHAR 50) (candidate "bob" k) = None).
  { intros [|[|[|k]]] Hk; [vm_compute; reflexivity..|lia]. }
  repeat (split; [assumption|]).
  split; [vm_compute; reflexivity|].
  destruct (getusername_provides_profile Js.of_nat 3 w payload_of_bob 8
              H1 H5 H2 H3 eq_refl) as (j & _ & _ & _ & _ & Hprofiles & Hunique);
    [apply (bool_decide_unpack _); vm_compute; exact I|exact H4|simpl; lia|exact H6|].
  split; [exact Hunique|]. exists j. exact Hprofiles.
Defined.

Lemma create_literal_name_witness :
  let w := world db_rock [] in
  healthy w ∧ names_distinct 7 (db w) ∧
  Forall (λ p, Utf8.ascii_only (pl_name p) = true) (playlists_of 7 (db w)) ∧
  PlaylistFacts.create_fits (named " rock ") ∧ PlaylistFacts.create_fits (named "Jazz") ∧
  7%nat ∈ au_id <$> auth_users (db w) ∧
  Playlists.post_create alice (named " rock ") w =
    (Value (json 400 (Error (Playlists.already_exists "rock"))), w) ∧
  pl_name <$> playlists (db (Playlists.post_create alice (named "Jazz") w).2) =
    ["Rock"; "Jazz"].
Proof.
  intros w.
  assert (H1 : healthy w) by reflexivity.
  assert (H2 : names_distinct 7 (db w)).
  { apply (bool_decide_unpack _). vm_compute. exact I. }
  assert (H3 : Forall (λ p, Utf8.ascii_only (pl_name p) = true) (playlists_of 7 (db w))).
  { apply (bool_decide_unpack _). vm_compute. exact I. }
  assert (H4 : PlaylistFacts.create_fits (named " rock ")) by (vm_compute; reflexivity).
  assert (H5 : PlaylistFacts.create_fits (named "Jazz")) by (vm_compute; reflexivity).
  assert (H6 : 7%nat ∈ au_id <$> auth_users (db w)) by left.
  repeat (split; [assumption|]).
  split.
  - refine (proj1 (create_literal_name alice (named " rock ") w " rock "
                     H1 eq_refl _ eq_refl H2 eq_refl H3 H4 H6) _).
    + intros H. vm_compute in H. discriminate H.
    + apply (bool_decide_unpack _). vm_compute. exact I.
  - destruct (proj2 (create_literal_name alice (named "Jazz") w "Jazz"
                       H1 eq_refl ltac:(discriminate) eq_refl H2 eq_refl H3 H5 H6))
      as (p & Hname & _ & _ & Hdb & _).
    + apply (bool_decide_unpack _). vm_compute. exact I.
    + rewrite Hdb, fmap_app. simpl. rewrite Hname. reflexivity.
Defined.

Lemma album_songs_sharing_a_key_witness :
  let a := {| Albums.title := "Intro-Live"; Albums.src := "x.mp3";
              Albums.img := None; Albums.duration := None |} in
  let b := {| Albums.title := "Intro"; Albums.src := "Live-x.mp3";
              Albums.img := None; Albums.duration := None |} in
  Albums.songs (album_with [a; b]) = Some [a; b] ∧
  Albums.uniqueSongs (album_with [a; b]) = [a].
Proof.
  intros a b.
  assert (H : Albums.songs (album_with [a; b]) = Some [a; b]) by reflexivity.
  split; [exact H|].
  exact (proj2 (proj2 (album_songs_sharing_a_key (album_with [a; b])
                         "Intro" "Live" "x.mp3" None None None None H))).
Defined.

End witnesses_more.
